(** * libsphinxql: the connection, batch and result engine of [sphinxql.cc]

    A shallow embedding of [src/src/sphinxql.cc] and of the inline members of
    [src/include/sphinxql/sphinxql.h].  C++ exceptions become an explicit
    outcome type, objects mutated in place are threaded through as state,
    [std::map] is a [gmap], and every [uint32_t] is a [Z] whose wrap-around is
    written out.  The MySQL client library the engine drives is not part of
    the repository: its handle is a record holding the reply stream, and the
    behaviour of the remote daemon is a parameter of the engine. *)

From Stdlib Require Import ZArith String Ascii.
From stdpp Require Import gmap strings list pretty.

Local Open Scope string_scope.
Local Open Scope Z_scope.

(** ** Exceptions and outcomes *)

(** The three exception classes the engine throws: [SphinxQL::Exception], its
    subclass [SphinxQL::TimeoutException], and [std::out_of_range]. *)
Inductive exn : Type :=
  | Exception (what : string)
  | TimeoutException (what : string)
  | out_of_range (what : string).

(** [catch (const SphinxQL::Exception &)] also catches the subclass. *)
Definition is_Exception (e : exn) : bool :=
  match e with
  | Exception _ | TimeoutException _ => true
  | out_of_range _ => false
  end.

Definition is_TimeoutException (e : exn) : bool :=
  match e with
  | TimeoutException _ => true
  | _ => false
  end.

Definition is_out_of_range (e : exn) : bool :=
  match e with
  | out_of_range _ => true
  | _ => false
  end.

(** What a call does: it returns, it throws, or it reads through a pointer
    that does not point at live storage. *)
Inductive outcome (A : Type) : Type :=
  | Ok (a : A)
  | Throw (e : exn)
  | Undefined.
Arguments Ok {A} a.
Arguments Throw {A} e.
Arguments Undefined {A}.

Definition obind {A B : Type} (m : outcome A) (k : A -> outcome B) : outcome B :=
  match m with
  | Ok a => k a
  | Throw e => Throw e
  | Undefined => Undefined
  end.

Notation "'do' x <- m ; k" := (obind m (fun x => k))
  (at level 10, x name, m at level 100, k at level 200).

Definition returns {A : Type} (o : outcome A) : bool :=
  match o with Ok _ => true | _ => false end.

Definition throws {A : Type} (o : outcome A) : bool :=
  match o with Throw _ => true | _ => false end.

(** ** Fixed-width integers *)

Definition wrap32 (z : Z) : Z := z mod 2 ^ 32.
Definition wrap64 (z : Z) : Z := z mod 2 ^ 64.

(** Two's-complement narrowing to a signed [w]-bit integer. *)
Definition to_signed (w : Z) (z : Z) : Z :=
  let m := z mod 2 ^ w in
  if m <? 2 ^ (w - 1) then m else m - 2 ^ w.

Definition clamp (lo hi z : Z) : Z :=
  if z <? lo then lo else if hi <? z then hi else z.

(** [std::to_string] of an unsigned value. *)
Definition to_string (z : Z) : string := pretty (Z.to_N z).

(** ** Text to number: the C library calls the decoders use

    [long] and [unsigned long] are 64 bits wide (LP64), so [strtoul] and
    [strtoull] agree, and so do [strtol] and [strtoll]. *)

Definition isspace (c : ascii) : bool :=
  let n := nat_of_ascii c in
  ((n =? 32) || ((9 <=? n) && (n <=? 13)))%nat.

Definition digit_of (c : ascii) : option Z :=
  let n := nat_of_ascii c in
  if ((48 <=? n) && (n <=? 57))%nat then Some (Z.of_nat n - 48) else None.

Fixpoint skip_space (s : string) : string * nat :=
  match s with
  | String c rest =>
      if isspace c then let '(t, n) := skip_space rest in (t, S n) else (s, O)
  | EmptyString => (s, O)
  end.

(** The longest run of decimal digits at the head of [s]: its value on top of
    [acc], and how many characters it has. *)
Fixpoint scan_digits (s : string) (acc : Z) : Z * nat :=
  match s with
  | String c rest =>
      match digit_of c with
      | Some d => let '(v, n) := scan_digits rest (10 * acc + d) in (v, S n)
      | None => (acc, O)
      end
  | EmptyString => (acc, O)
  end.

(** The subject sequence of a base-10 conversion: white space, an optional
    sign, digits.  [None] when there is no digit, in which case nothing is
    consumed; otherwise the sign, the magnitude and the characters consumed. *)
Definition scan_integer (s : string) : option (bool * Z * nat) :=
  let '(t, ws) := skip_space s in
  let '(neg, u, sg) :=
    match t with
    | String "-" rest => (true, rest, 1%nat)
    | String "+" rest => (false, rest, 1%nat)
    | _ => (false, t, O)
    end in
  let '(v, n) := scan_digits u 0 in
  match n with
  | O => None
  | S _ => Some (neg, v, (ws + sg + n)%nat)
  end.

(** [strtoull(data, &end, 10)]: the value and [end - data]. *)
Definition strtoull (s : string) : Z * nat :=
  match scan_integer s with
  | None => (0, O)
  | Some (neg, v, n) =>
      (if 2 ^ 64 - 1 <? v then 2 ^ 64 - 1 else if neg then wrap64 (- v) else v, n)
  end.

(** [strtoll(data, &end, 10)]. *)
Definition strtoll (s : string) : Z * nat :=
  match scan_integer s with
  | None => (0, O)
  | Some (neg, v, n) => (clamp (- 2 ^ 63) (2 ^ 63 - 1) (if neg then - v else v), n)
  end.

Definition strtoul : string -> Z * nat := strtoull.
Definition strtol : string -> Z * nat := strtoll.

(** ** Scalar types the decoders target *)

Record uint32_t := U32 { u32 : Z }.
Record uint64_t := U64 { u64 : Z }.
Record int32_t := I32 { i32 : Z }.
Record int64_t := I64 { i64 : Z }.

(** Value initialisation, [T()] and [T{}]. *)
Class ValueInit (T : Type) := value_init : T.

#[export] Instance init_uint32 : ValueInit uint32_t := U32 0.
#[export] Instance init_uint64 : ValueInit uint64_t := U64 0.
#[export] Instance init_int32 : ValueInit int32_t := I32 0.
#[export] Instance init_int64 : ValueInit int64_t := I64 0.
#[export] Instance init_string : ValueInit string := "".

(** [Row::convertResult<T>(data, defaultValue)]; a null [data] is [None].

    The header declares the template and sphinxql.cc alone defines it, so a
    program gets a decoder only for the types sphinxql.cc provides one for.
    The body of the primary template there declares [ss] as a function
    ([std::stringstream ss(std::string(data));] is a declaration), which
    makes [ss >> res] ill-formed for every [T]: the primary template is
    instantiated for no type, and the decoders are the seven explicit
    specialisations. *)
Class ConvertResult (T : Type) := convertResult : option string -> T -> T.

(** The explicit specialisations. *)
Definition convertResult_uint32 (data : option string) (defaultValue : uint32_t)
    : uint32_t :=
  match data with
  | None => defaultValue
  | Some s =>
      let '(val, consumed) := strtoul s in
      if negb (Nat.eqb consumed 0) then U32 (wrap32 val) else defaultValue
  end.

Definition convertResult_uint64 (data : option string) (defaultValue : uint64_t)
    : uint64_t :=
  match data with
  | None => defaultValue
  | Some s =>
      let '(val, consumed) := strtoull s in
      if negb (Nat.eqb consumed 0) then U64 val else defaultValue
  end.

Definition convertResult_int32 (data : option string) (defaultValue : int32_t)
    : int32_t :=
  match data with
  | None => defaultValue
  | Some s =>
      let '(val, consumed) := strtol s in
      if negb (Nat.eqb consumed 0) then I32 (to_signed 32 val) else defaultValue
  end.

Definition convertResult_int64 (data : option string) (defaultValue : int64_t)
    : int64_t :=
  match data with
  | None => defaultValue
  | Some s =>
      let '(val, consumed) := strtoll s in
      if negb (Nat.eqb consumed 0) then I64 val else defaultValue
  end.

Definition convertResult_string (data : option string) (defaultValue : string)
    : string :=
  match data with
  | None => defaultValue
  | Some s => s
  end.

#[export] Instance convert_uint32 : ConvertResult uint32_t := convertResult_uint32.
#[export] Instance convert_uint64 : ConvertResult uint64_t := convertResult_uint64.
#[export] Instance convert_int32 : ConvertResult int32_t := convertResult_int32.
#[export] Instance convert_int64 : ConvertResult int64_t := convertResult_int64.
#[export] Instance convert_string : ConvertResult string := convertResult_string.

(** [float] and [double]: the values and [strtof]/[strtod] are taken as given,
    each returning the value and the number of characters consumed. *)
Section Floating.
Variable float_t : Type.
Variable strtof : string -> float_t * nat.

Definition convertResult_float (data : option string) (defaultValue : float_t)
    : float_t :=
  match data with
  | None => defaultValue
  | Some s =>
      let '(val, consumed) := strtof s in
      if negb (Nat.eqb consumed 0) then val else defaultValue
  end.

Variable double_t : Type.
Variable strtod : string -> double_t * nat.

Definition convertResult_double (data : option string) (defaultValue : double_t)
    : double_t :=
  match data with
  | None => defaultValue
  | Some s =>
      let '(val, consumed) := strtod s in
      if negb (Nat.eqb consumed 0) then val else defaultValue
  end.
End Floating.

(** ** Row: a borrowed view of one row *)

Definition MYSQL_ROW := list (option string).

Module Row.
Record t := mk {
  origin : bool;               (* const Result *origin: null or not *)
  data : option MYSQL_ROW;     (* const char *const *data *)
  fields : Z;                  (* uint32_t *)
  fieldIter : Z                (* uint32_t *)
}.

(** [Row::Row()]. *)
Definition new : t :=
  {| origin := false; data := None; fields := 0; fieldIter := 0 |}.

Definition size (r : t) : Z := fields r.

Definition checkBounds (r : t) (index : Z) : outcome unit :=
  if fields r <=? index
  then Throw (out_of_range ("Row column out of range: " +:+ to_string index))
  else Ok tt.

(** [data[index]] on the raw pointer: defined only inside the array. *)
Definition at_index (r : t) (index : Z) : outcome (option string) :=
  match data r with
  | None => Undefined
  | Some arr =>
      match arr !! Z.to_nat index with
      | Some cell => Ok cell
      | None => Undefined
      end
  end.

(** [Row::operator[]]. *)
Definition index (r : t) (i : Z) : outcome (option string) :=
  do _ <- checkBounds r i;
  at_index r i.

(** [Row::operator>>]: the row with its cursor moved and the new content of
    [value]; when it throws, neither the row nor [value] has changed. *)
Definition read {T : Type} `{ConvertResult T} (r : t) (value : T)
    : t * outcome T :=
  match checkBounds r (fieldIter r) with
  | Ok _ =>
      let i := fieldIter r in
      let r' := {| origin := origin r; data := data r; fields := fields r;
                   fieldIter := wrap32 (i + 1) |} in
      match at_index r i with
      | Ok cell => (r', Ok (convertResult cell value))
      | Throw e => (r', Throw e)
      | Undefined => (r', Undefined)
      end
  | Throw e => (r, Throw e)
  | Undefined => (r, Undefined)
  end.
End Row.

(** ** The transport: the MySQL client library as the engine sees it *)

Record MYSQL_FIELD := mk_field { name : string }.

(** A stored result set: column metadata, rows, and the fetch cursor. *)
Record MYSQL_RES := mk_res {
  res_fields : list MYSQL_FIELD;
  res_rows : list MYSQL_ROW;
  res_next : nat
}.

Definition mysql_num_fields (r : MYSQL_RES) : Z := Z.of_nat (length (res_fields r)).
Definition mysql_num_rows (r : MYSQL_RES) : Z := Z.of_nat (length (res_rows r)).
Definition mysql_fetch_fields (r : MYSQL_RES) : option (list MYSQL_FIELD) :=
  Some (res_fields r).

(** The next row, or a null pointer once the rows are exhausted. *)
Definition mysql_fetch_row (r : MYSQL_RES) : option MYSQL_ROW * MYSQL_RES :=
  match res_rows r !! res_next r with
  | Some row =>
      (Some row, {| res_fields := res_fields r; res_rows := res_rows r;
                    res_next := S (res_next r) |})
  | None => (None, r)
  end.

(** The library hands out rows as wide as the column metadata. *)
Definition well_formed (r : MYSQL_RES) : Prop :=
  Forall (fun row : MYSQL_ROW => length row = length (res_fields r)) (res_rows r).

(** [mysql_real_connect(con, host, NULL, NULL, NULL, port, unix_socket, 0)]. *)
Record Target := mk_target {
  t_host : option string;
  t_port : Z;
  t_unix_socket : option string
}.

Inductive mysql_option : Type :=
  | MYSQL_OPT_PROTOCOL
  | MYSQL_OPT_CONNECT_TIMEOUT
  | MYSQL_OPT_WRITE_TIMEOUT
  | MYSQL_OPT_READ_TIMEOUT.

(** The handle: the reply stream is the result set [mysql_store_result] would
    hand over now, followed by the ones [mysql_next_result] still has to step
    to, each with the status that step returns. *)
Record MYSQL := mk_mysql {
  my_handle : nat;
  my_options : list (mysql_option * Z);
  my_peer : option Target;
  my_request : string;
  my_current : option MYSQL_RES;
  my_pending : list (Z * option MYSQL_RES);
  my_error : string
}.

(** What the daemon answers to one payload. *)
Record Reply := mk_reply {
  rp_status : Z;
  rp_error : string;
  rp_current : option MYSQL_RES;
  rp_pending : list (Z * option MYSQL_RES)
}.

(** The world outside the process: whether a handle can be allocated (and the
    error text when not), whether a target accepts the connection, and what
    is answered to what is sent. *)
Record Daemon := mk_daemon {
  dm_init : nat -> bool;
  dm_init_error : string;
  dm_connect : MYSQL -> Target -> option string;
  dm_query : MYSQL -> string -> Reply;
  dm_send : MYSQL -> string -> Z * string;
  dm_read : MYSQL -> Reply
}.

Definition CR_SERVER_GONE_ERROR : Z := 2006.
Definition CR_SERVER_LOST : Z := 2013.

Definition mysql_error (con : MYSQL) : string := my_error con.

Definition set_reply (con : MYSQL) (request : string) (rp : Reply) : MYSQL :=
  {| my_handle := my_handle con; my_options := my_options con;
     my_peer := my_peer con; my_request := request;
     my_current := rp_current rp; my_pending := rp_pending rp;
     my_error := rp_error rp |}.

(** The text a [const char *] denotes ends at the first NUL. *)
Fixpoint c_str (s : string) : string :=
  match s with
  | String c rest => if Ascii.eqb c zero then EmptyString else String c (c_str rest)
  | EmptyString => EmptyString
  end.

(** [mysql_init(nullptr)], given how many handles were handed out so far. *)
Definition mysql_init (d : Daemon) (handles : nat) : nat * option MYSQL :=
  if dm_init d handles
  then (S handles,
        Some {| my_handle := handles; my_options := []; my_peer := None;
                my_request := ""; my_current := None; my_pending := [];
                my_error := "" |})
  else (handles, None).

Definition mysql_options (con : MYSQL) (opt : mysql_option) (value : Z) : MYSQL :=
  {| my_handle := my_handle con; my_options := my_options con ++ [(opt, value)];
     my_peer := my_peer con; my_request := my_request con;
     my_current := my_current con; my_pending := my_pending con;
     my_error := my_error con |}.

(** Returns whether the returned pointer is non-null. *)
Definition mysql_real_connect (d : Daemon) (con : MYSQL) (target : Target)
    : MYSQL * bool :=
  match dm_connect d con target with
  | None =>
      ({| my_handle := my_handle con; my_options := my_options con;
          my_peer := Some target; my_request := my_request con;
          my_current := my_current con; my_pending := my_pending con;
          my_error := my_error con |}, true)
  | Some e =>
      ({| my_handle := my_handle con; my_options := my_options con;
          my_peer := my_peer con; my_request := my_request con;
          my_current := my_current con; my_pending := my_pending con;
          my_error := e |}, false)
  end.

Definition mysql_query (d : Daemon) (con : MYSQL) (stmt : string) : MYSQL * Z :=
  let rp := dm_query d con stmt in
  (set_reply con stmt rp, rp_status rp).

Definition mysql_send_query (d : Daemon) (con : MYSQL) (stmt : string) : MYSQL * Z :=
  let '(status, e) := dm_send d con stmt in
  ({| my_handle := my_handle con; my_options := my_options con;
      my_peer := my_peer con; my_request := stmt;
      my_current := None; my_pending := [];
      my_error := e |}, status).

Definition mysql_read_query_result (d : Daemon) (con : MYSQL) : MYSQL * Z :=
  let rp := dm_read d con in
  (set_reply con (my_request con) rp, rp_status rp).

(** The current result set changes owner: a second call finds none. *)
Definition mysql_store_result (con : MYSQL) : MYSQL * option MYSQL_RES :=
  ({| my_handle := my_handle con; my_options := my_options con;
      my_peer := my_peer con; my_request := my_request con;
      my_current := None; my_pending := my_pending con;
      my_error := my_error con |}, my_current con).

Definition mysql_more_results (con : MYSQL) : bool :=
  match my_pending con with
  | [] => false
  | _ :: _ => true
  end.

(** Zero when the step reached a further result set, -1 when there is none,
    positive on an error. *)
Definition mysql_next_result (con : MYSQL) : MYSQL * Z :=
  match my_pending con with
  | [] => (con, -1)
  | (status, r) :: rest =>
      ({| my_handle := my_handle con; my_options := my_options con;
          my_peer := my_peer con; my_request := my_request con;
          my_current := r; my_pending := rest;
          my_error := my_error con |}, status)
  end.

(** ** ResultIndex: column name to position *)

Module ResultIndex.
(** The loop of [ResultIndex::initialize] from position [i] on, [count]
    more times: [index[fields[i].name] = i]. *)
Fixpoint initialize_from (fields : list MYSQL_FIELD) (i count : nat)
    (index : gmap string Z) : outcome (gmap string Z) :=
  match count with
  | O => Ok index
  | S count' =>
      match fields !! i with
      | Some f => initialize_from fields (S i) count' (<[name f := Z.of_nat i]> index)
      | None => Undefined
      end
  end.

Definition initialize (index : gmap string Z)
    (fields : option (list MYSQL_FIELD)) (fieldCount : Z)
    : outcome (gmap string Z) :=
  match fields with
  | None => Throw (Exception "Cannot initialize result index from null field result")
  | Some fs => initialize_from fs O (Z.to_nat fieldCount) index
  end.

Definition empty (index : gmap string Z) : bool := bool_decide (index = ∅).

Definition getFieldIndex (index : gmap string Z) (field : string) : outcome Z :=
  match index !! field with
  | None => Throw (out_of_range ("No such field in result set: " +:+ field))
  | Some pos => Ok pos
  end.
End ResultIndex.

(** ** Result: one result set, its column index and its merged SHOW META *)

Module Result.
(** [Result::PrivateData]. *)
Record t := mk {
  columnIndex : gmap string Z;
  metaReader : option (gmap string string);
  result : MYSQL_RES;
  fieldInfo : option (list MYSQL_FIELD);
  fields : Z
}.

(** [Result::Result(MYSQL *con)]. *)
Definition new (con : MYSQL) : MYSQL * outcome t :=
  let '(con', stored) := mysql_store_result con in
  match stored with
  | None =>
      (con', Throw (Exception ("mysql_store_result error: " +:+ mysql_error con')))
  | Some rs =>
      (con', Ok {| columnIndex := ∅; metaReader := None; result := rs;
                   fieldInfo := mysql_fetch_fields rs;
                   fields := mysql_num_fields rs |})
  end.

(** [Result::getNextRow]: the row's [origin] records that it is bound to a
    Result; the Result itself is handed to [Row_getValue]. *)
Definition getNextRow (r : t) (row : Row.t) : t * Row.t * bool :=
  let '(fetched, rs) := mysql_fetch_row (result r) in
  let r' := {| columnIndex := columnIndex r; metaReader := metaReader r;
               result := rs; fieldInfo := fieldInfo r; fields := fields r |} in
  let row' :=
    match fetched with
    | Some _ => {| Row.origin := true; Row.data := fetched;
                   Row.fields := fields r; Row.fieldIter := 0 |}
    | None => {| Row.origin := false; Row.data := fetched;
                 Row.fields := 0; Row.fieldIter := 0 |}
    end in
  (r', row', 0 <? Row.size row').

Definition size (r : t) : Z := wrap32 (mysql_num_rows (result r)).

(** [Result::getColumnIndex]: the index is built on first use. *)
Definition getColumnIndex (r : t) (fieldName : string) : t * outcome Z :=
  if ResultIndex.empty (columnIndex r) then
    match ResultIndex.initialize (columnIndex r) (fieldInfo r) (fields r) with
    | Ok index =>
        ({| columnIndex := index; metaReader := metaReader r; result := result r;
            fieldInfo := fieldInfo r; fields := fields r |},
         ResultIndex.getFieldIndex index fieldName)
    | Throw e => (r, Throw e)
    | Undefined => (r, Undefined)
    end
  else (r, ResultIndex.getFieldIndex (columnIndex r) fieldName).

(** The holder of a SHOW META answer. *)
Module MetaReader.
(** [values.emplace(key, value)]: an existing key keeps its value. *)
Definition emplace (values : gmap string string) (key value : string)
    : gmap string string :=
  match values !! key with
  | Some _ => values
  | None => <[key := value]> values
  end.

(** The [while] loop of the constructor, run for at most [fuel] calls of
    [getNextRow]; [None] when the fuel is used up. *)
Fixpoint read_rows (fuel : nat) (result : t) (row : Row.t)
    (values : gmap string string) : option (outcome (gmap string string)) :=
  match fuel with
  | O => None
  | S fuel' =>
      let '(result1, row1, more) := getNextRow result row in
      if more then
        let key := "" in
        let value := "" in
        let '(row2, okey) := Row.read row1 key in
        match okey with
        | Ok key' =>
            let '(row3, ovalue) := Row.read row2 value in
            match ovalue with
            | Ok value' =>
                read_rows fuel' result1 row3
                  (if negb (String.eqb key' "") then emplace values key' value'
                   else values)
            | Throw e => Some (Throw e)
            | Undefined => Some Undefined
            end
        | Throw e => Some (Throw e)
        | Undefined => Some Undefined
        end
      else Some (Ok values)
  end.

(** Rows not fetched yet. *)
Definition remaining (result : t) : nat :=
  length (res_rows (Result.result result)) - res_next (Result.result result).

(** [MetaReader::MetaReader(Result &result)]: one call of [getNextRow]
    per remaining row and one that finds none. *)
Definition new (result : t) : outcome (gmap string string) :=
  match read_rows (S (remaining result)) result Row.new ∅ with
  | Some o => o
  | None => Undefined
  end.

Definition getValue (values : gmap string string) (variable : string) : string :=
  match values !! variable with
  | Some v => v
  | None => ""
  end.
End MetaReader.

(** [Result::addMeta]; a null [unique_ptr] is [None]. *)
Definition addMeta (r : t) (meta : option t) : outcome t :=
  match meta with
  | Some m =>
      do values <- MetaReader.new m;
      Ok {| columnIndex := columnIndex r; metaReader := Some values;
            result := result r; fieldInfo := fieldInfo r; fields := fields r |}
  | None => Ok r
  end.

Definition getMeta (r : t) (variable : string) : outcome string :=
  match metaReader r with
  | None => Throw (Exception "No SHOW META result.")
  | Some values => Ok (MetaReader.getValue values variable)
  end.
End Result.

(** [Row::getValue<T>(field)], given the Result [origin] points at; the
    Result comes back with its column index built. *)
Definition Row_getValue {T : Type} `{ValueInit T} `{ConvertResult T}
    (row : Row.t) (origin : Result.t) (field : string) : Result.t * outcome T :=
  if negb (Row.origin row) then
    (origin, Throw (Exception "Row is probably not initialized!"))
  else
    let '(origin', oidx) := Result.getColumnIndex origin field in
    (origin', do idx <- oidx;
              do cell <- Row.index row idx;
              Ok (convertResult cell value_init)).

(** ** Query: one connection and its batch of statements *)

Record Config := mk_config {
  connectTimeout : Z;
  writeTimeout : Z;
  readTimeout : Z;
  optProtocol : Z
}.

Module Query.
(** [Query::PrivateData]. *)
Record t := mk {
  con : MYSQL;
  connected : bool;
  firstToRetrieve : bool;
  queries : list (string * bool)
}.

Definition set_con (q : t) (c : MYSQL) : t :=
  {| con := c; connected := connected q;
     firstToRetrieve := firstToRetrieve q; queries := queries q |}.

Definition set_firstToRetrieve (q : t) (b : bool) : t :=
  {| con := con q; connected := connected q;
     firstToRetrieve := b; queries := queries q |}.

(** [Query::Query()], given how many handles exist; the count comes back. *)
Definition new (d : Daemon) (handles : nat) : nat * outcome t :=
  let '(handles', c) := mysql_init d handles in
  match c with
  | Some c =>
      (handles', Ok {| con := c; connected := false;
                       firstToRetrieve := true; queries := [] |})
  | None => (handles', Throw (Exception (dm_init_error d)))
  end.

Definition setConfigOptions (q : t) (cfg : Config) : t :=
  let c0 := con q in
  let c1 := if negb (optProtocol cfg =? 0)
            then mysql_options c0 MYSQL_OPT_PROTOCOL (optProtocol cfg) else c0 in
  let c2 := mysql_options c1 MYSQL_OPT_CONNECT_TIMEOUT (wrap32 (connectTimeout cfg)) in
  let c3 := mysql_options c2 MYSQL_OPT_WRITE_TIMEOUT (wrap32 (writeTimeout cfg)) in
  let c4 := mysql_options c3 MYSQL_OPT_READ_TIMEOUT (wrap32 (readTimeout cfg)) in
  set_con q c4.

(** [Query::Query(const Config &cfg)]. *)
Definition new_cfg (d : Daemon) (handles : nat) (cfg : Config) : nat * outcome t :=
  let '(handles', o) := new d handles in
  (handles', do q <- o; Ok (setConfigOptions q cfg)).

(** [Query::Query(Query &&other)], given how many handles exist: a new
    [PrivateData] is made, a handle with it, and swapped with the one of
    [other].  The Query made, then what [other] is left with. *)
Definition new_move (d : Daemon) (handles : nat) (other : t)
    : nat * outcome (t * t) :=
  let '(handles', o) := new d handles in
  (handles', do fresh <- o; Ok (other, fresh)).

(** [connect(host, port)]; a port that is not positive makes [host] the
    path of a unix socket. *)
Definition connect (d : Daemon) (q : t) (host : string) (port : Z)
    : t * outcome unit :=
  let target :=
    if 0 <? port
    then {| t_host := Some host; t_port := port;
            t_unix_socket := Some "/var/run/sphinx.s" |}
    else {| t_host := None; t_port := 0; t_unix_socket := Some host |} in
  let '(c, status) := mysql_real_connect d (con q) target in
  if status then
    ({| con := c; connected := true;
        firstToRetrieve := firstToRetrieve q; queries := queries q |}, Ok tt)
  else (set_con q c, Throw (Exception (mysql_error c))).

Definition isConnected (q : t) : bool := connected q.

Definition clear (q : t) : t :=
  {| con := con q; connected := connected q;
     firstToRetrieve := true; queries := [] |}.

Definition empty (q : t) : bool :=
  match queries q with
  | [] => true
  | _ :: _ => false
  end.

(** [Query::addQuery(const char *query, bool meta)]. *)
Definition addQuery (q : t) (query : string) (addMeta : bool) : t :=
  {| con := con q; connected := connected q;
     firstToRetrieve := firstToRetrieve q;
     queries := queries q ++ [(c_str query, addMeta)] |}.

Definition getQueries (q : t) : list (string * bool) := queries q.

(** [getQueryString]: the stream grows by each statement, and by the SHOW
    META statement after a flagged one. *)
Definition getQueryString (q : t) : string :=
  fold_left
    (fun (query : string) (queryInfo : string * bool) =>
       let query := query +:+ queryInfo.1 in
       if queryInfo.2 then query +:+ "SHOW META; " else query)
    (queries q) "".

(** [Query::PrivateData::execute]. *)
Definition execute_data (d : Daemon) (q : t) : t * outcome unit :=
  let query := getQueryString q in
  let '(c, status) := mysql_query d (con q) (c_str query) in
  let q' := set_con q c in
  if negb (status =? 0) then
    if (status =? CR_SERVER_GONE_ERROR) || (status =? CR_SERVER_LOST)
    then (q', Throw (TimeoutException (mysql_error c)))
    else (q', Throw (Exception (mysql_error c)))
  else (q', Ok tt).

Definition asyncExecute (d : Daemon) (q : t) : t * outcome unit :=
  let q0 := set_firstToRetrieve q true in
  let query := getQueryString q0 in
  let '(c, status) := mysql_send_query d (con q0) query in
  let q' := set_con q0 c in
  if negb (status =? 0)
  then (q', Throw (Exception ("mysql_send_query failed: " +:+ mysql_error c)))
  else (q', Ok tt).

Definition waitForAsyncResult (d : Daemon) (q : t) : t * outcome unit :=
  let '(c, status) := mysql_read_query_result d (con q) in
  let q' := set_con q c in
  if negb (status =? 0)
  then (q', Throw (Exception ("mysql_read_query_result failed: " +:+ mysql_error c)))
  else (q', Ok tt).

(** [nextResult]: [mysql_next_result] is called only when
    [mysql_more_results] holds. *)
Definition nextResult (q : t) : t * outcome Result.t :=
  if firstToRetrieve q then
    let q0 := set_firstToRetrieve q false in
    let '(c, o) := Result.new (con q0) in
    (set_con q0 c, o)
  else if mysql_more_results (con q) then
    let '(c, status) := mysql_next_result (con q) in
    if status =? 0 then
      let '(c', o) := Result.new c in
      (set_con q c', o)
    else (set_con q c, Throw (Exception "No result returned"))
  else (q, Throw (Exception "No result returned")).
End Query.

(** ** Response: the queue of results *)

Module Response.
(** [std::queue<std::unique_ptr<Result>>], front first. *)
Record t := mk { results : list Result.t }.

(** The loop of [Response::fill] over the entries not served yet. *)
Fixpoint fill_from (entries : list (string * bool)) (query : Query.t)
    (results : list Result.t) : Query.t * list Result.t * outcome unit :=
  match entries with
  | [] => (query, results, Ok tt)
  | queryInfo :: entries' =>
      let '(query1, ores) := Query.nextResult query in
      match ores with
      | Ok res =>
          if queryInfo.2 then
            let '(query2, ometa) := Query.nextResult query1 in
            match ometa with
            | Ok meta =>
                match Result.addMeta res (Some meta) with
                | Ok res' => fill_from entries' query2 (results ++ [res'])
                | Throw e => (query2, results, Throw e)
                | Undefined => (query2, results, Undefined)
                end
            | Throw e => (query2, results, Throw e)
            | Undefined => (query2, results, Undefined)
            end
          else fill_from entries' query1 (results ++ [res])
      | Throw e => (query1, results, Throw e)
      | Undefined => (query1, results, Undefined)
      end
  end.

Definition fill (query : Query.t) (results : list Result.t)
    : Query.t * list Result.t * outcome unit :=
  fill_from (Query.getQueries query) query results.

(** [Response::Response(Query &query)]. *)
Definition of_query (query : Query.t) : Query.t * outcome t :=
  let '(query', results, o) := fill query [] in
  (query', do _ <- o; Ok {| results := results |}).

(** The loop of [Response::Response(AsyncQuery &queries)]. *)
Fixpoint fill_all (queries : list Query.t) (results : list Result.t)
    : list Query.t * list Result.t * outcome unit :=
  match queries with
  | [] => ([], results, Ok tt)
  | query :: queries' =>
      let '(query', results', o) := fill query results in
      match o with
      | Ok _ =>
          let '(rest, results'', o') := fill_all queries' results' in
          (query' :: rest, results'', o')
      | Throw e => (query' :: queries', results', Throw e)
      | Undefined => (query' :: queries', results', Undefined)
      end
  end.

(** [Response::Response(AsyncQuery &queries)], on the [queries] member. *)
Definition of_queries (queries : list Query.t) : list Query.t * outcome t :=
  let '(queries', results, o) := fill_all queries [] in
  (queries', do _ <- o; Ok {| results := results |}).

(** [Response::next]: the front of the queue, or a null pointer. *)
Definition next (r : t) : t * option Result.t :=
  match results r with
  | res :: rest => ({| results := rest |}, Some res)
  | [] => (r, None)
  end.

(** What [n] calls of [next] return, in order. *)
Fixpoint take_next (n : nat) (r : t) : list (option Result.t) :=
  match n with
  | O => []
  | S n' => let '(r', res) := next r in res :: take_next n' r'
  end.
End Response.

(** [Query::execute]: the batch is cleared on every way out. *)
Definition Query_execute (d : Daemon) (q : Query.t) : Query.t * outcome Response.t :=
  if negb (Query.isConnected q) then
    (q, Throw (Exception "No connection established!"))
  else
    let '(q1, o) := Query.execute_data d q in
    match o with
    | Ok _ =>
        let '(q2, oresp) := Response.of_query q1 in
        (Query.clear q2, oresp)
    | Throw e => (Query.clear q1, Throw e)
    | Undefined => (q1, Undefined)
    end.

(** ** AsyncQuery: the pool and the asynchronous round *)

Module AsyncQuery.
Record t := mk {
  connections : list Query.t;    (* std::queue, front first *)
  queries : list Query.t;
  host : string;
  port : Z;
  cfg : option Config
}.

Definition set_pool (a : t) (connections queries : list Query.t) : t :=
  {| connections := connections; queries := queries;
     host := host a; port := port a; cfg := cfg a |}.

(** [AsyncQuery::clear]. *)
Definition clear (a : t) : t :=
  set_pool a
    (fold_left (fun (conns : list Query.t) query => (conns ++ [Query.clear query])%list)
       (queries a) (connections a))
    [].

(** [AsyncQuery::add(const char *query, bool meta)], given how many
    handles exist; a worker that fails to connect is dropped. *)
Definition add (d : Daemon) (handles : nat) (a : t) (query : string) (meta : bool)
    : nat * t * outcome unit :=
  match connections a with
  | worker :: rest =>
      (handles,
       set_pool a rest (queries a ++ [Query.addQuery worker query meta]),
       Ok tt)
  | [] =>
      let '(handles', created) :=
        match cfg a with
        | Some c => Query.new_cfg d handles c
        | None => Query.new d handles
        end in
      match created with
      | Ok worker =>
          let '(worker', o) :=
            if negb (port a =? 0)
            then Query.connect d worker (host a) (port a)
            else Query.connect d worker (host a) 0 in
          match o with
          | Ok _ =>
              (handles',
               set_pool a [] (queries a ++ [Query.addQuery worker' query meta]),
               Ok tt)
          | Throw e => (handles', a, Throw e)
          | Undefined => (handles', a, Undefined)
          end
      | Throw e => (handles', a, Throw e)
      | Undefined => (handles', a, Undefined)
      end
  end.

(** [AsyncQuery::add(Query &&query)], given how many handles exist:
    [std::make_unique<Query>(std::move(query))] move-constructs the Query
    that is kept.  The caller's [query] comes back as the call leaves it. *)
Definition add_query (d : Daemon) (handles : nat) (a : t) (query : Query.t)
    : nat * t * Query.t * outcome unit :=
  let '(query', o) :=
    if negb (Query.isConnected query) then
      if negb (port a =? 0)
      then Query.connect d query (host a) (port a)
      else Query.connect d query (host a) 0
    else (query, Ok tt) in
  match o with
  | Ok _ =>
      if Query.empty query' then
        let '(handles', moved) := Query.new_move d handles query' in
        match moved with
        | Ok (worker, emptied) =>
            (handles', set_pool a (connections a ++ [worker]) (queries a), emptied,
             Ok tt)
        | Throw e => (handles', a, query', Throw e)
        | Undefined => (handles', a, query', Undefined)
        end
      else
        let '(handles', moved) := Query.new_move d handles query' in
        match moved with
        | Ok (worker, emptied) =>
            (handles', set_pool a (connections a) (queries a ++ [worker]), emptied,
             Ok tt)
        | Throw e => (handles', a, query', Throw e)
        | Undefined => (handles', a, query', Undefined)
        end
  | Throw e => (handles, a, query', Throw e)
  | Undefined => (handles, a, query', Undefined)
  end.

(** [while (!connections.empty()) connections.pop();] *)
Fixpoint pop_all (connections : list Query.t) : list Query.t :=
  match connections with
  | [] => []
  | _ :: rest => pop_all rest
  end.

(** A [for] loop over [queries] that stops at the first throw. *)
Fixpoint for_each (step : Query.t -> Query.t * outcome unit)
    (queries : list Query.t) : list Query.t * outcome unit :=
  match queries with
  | [] => ([], Ok tt)
  | query :: rest =>
      let '(query', o) := step query in
      match o with
      | Ok _ => let '(rest', o') := for_each step rest in (query' :: rest', o')
      | Throw e => (query' :: rest, Throw e)
      | Undefined => (query' :: rest, Undefined)
      end
  end.

(** The scope-end action of [launch]: every query is cleared and pushed to
    the connection queue. *)
Definition finalCleanup (a : t) : t :=
  set_pool a
    (fold_left (fun (conns : list Query.t) query => (conns ++ [Query.clear query])%list)
       (queries a) (connections a))
    [].

(** The [try] block of [launch]: every query is sent before any is waited
    for. *)
Definition send_then_wait (d : Daemon) (queries : list Query.t)
    : list Query.t * outcome unit :=
  let '(sent, osend) := for_each (Query.asyncExecute d) queries in
  match osend with
  | Ok _ => for_each (Query.waitForAsyncResult d) sent
  | _ => (sent, osend)
  end.

(** [AsyncQuery::launch]: an exception out of the [try] block clears
    [queries]; past it, the scope-end action runs whether the Response is
    built or its constructor throws. *)
Definition launch (d : Daemon) (a : t) : t * outcome Response.t :=
  let a0 := set_pool a (pop_all (connections a)) (queries a) in
  let '(waited, otry) := send_then_wait d (queries a0) in
  match otry with
  | Ok _ =>
      let '(filled, oresp) := Response.of_queries waited in
      let a1 := set_pool a0 (connections a0) filled in
      match oresp with
      | Undefined => (a1, Undefined)
      | _ => (finalCleanup a1, oresp)
      end
  | Throw e => (set_pool a0 (connections a0) [], Throw e)
  | Undefined => (set_pool a0 (connections a0) waited, Undefined)
  end.

(** [add] for each statement in turn, up to the first that throws. *)
Fixpoint add_all (d : Daemon) (handles : nat) (a : t)
    (statements : list (string * bool)) : nat * t * outcome unit :=
  match statements with
  | [] => (handles, a, Ok tt)
  | (query, meta) :: rest =>
      let '(handles', a', o) := add d handles a query meta in
      match o with
      | Ok _ => add_all d handles' a' rest
      | _ => (handles', a', o)
      end
  end.
End AsyncQuery.

(** ** What the specification says, in its own words *)

(** The payload of a batch: the statement texts in registration order, the
    diagnostics statement right after each entry that asks for it, and
    nothing else. *)
Fixpoint expected_payload (entries : list (string * bool)) : string :=
  match entries with
  | [] => ""
  | (statement, wants_diagnostics) :: rest =>
      statement +:+ (if wants_diagnostics then "SHOW META; " else "")
        +:+ expected_payload rest
  end.

(** A string a [const char *] can carry whole. *)
Definition nul_free (s : string) : Prop := c_str s = s.

(** The Result the constructor makes of a stored result set. *)
Definition fresh_result (rs : MYSQL_RES) : Result.t :=
  {| Result.columnIndex := ∅; Result.metaReader := None; Result.result := rs;
     Result.fieldInfo := mysql_fetch_fields rs;
     Result.fields := mysql_num_fields rs |}.

(** The failure code the synchronous execute of [q] gets from the transport. *)
Definition execute_status (d : Daemon) (q : Query.t) : Z :=
  rp_status (dm_query d (Query.con q) (c_str (Query.getQueryString q))).

(** What holds of every Row the library hands out: the cursor is within the
    column count, and a row with columns points at an array of that many
    cells. *)
Definition Row_bounded (r : Row.t) : Prop :=
  0 <= Row.fieldIter r <= Row.fields r
  /\ Row.fields r < 2 ^ 32
  /\ (Row.fields r = 0
      \/ exists arr, Row.data r = Some arr /\ Z.of_nat (length arr) = Row.fields r).

(** The row after a read that returned. *)
Definition Row_advanced (r : Row.t) : Row.t :=
  {| Row.origin := Row.origin r; Row.data := Row.data r;
     Row.fields := Row.fields r; Row.fieldIter := Row.fieldIter r + 1 |}.

(** [row >> value >> value >> ...], [n] times, up to the first read that
    does not return. *)
Fixpoint Row_read_n {T : Type} `{ConvertResult T} (n : nat) (r : Row.t) (value : T)
    : Row.t * outcome T :=
  match n with
  | O => (r, Ok value)
  | S n' =>
      let '(r', o) := Row.read r value in
      match o with
      | Ok v => Row_read_n n' r' v
      | _ => (r', o)
      end
  end.

(** The column names of a Result's metadata. *)
Definition column_names (r : Result.t) : list string :=
  match Result.fieldInfo r with
  | Some fs => map name fs
  | None => []
  end.

(** What holds of every Result made by the constructor, before and after its
    column index is built: the metadata is there, as long as the column
    count, and the index knows no name the metadata does not have. *)
Definition Result_consistent (r : Result.t) : Prop :=
  exists fs, Result.fieldInfo r = Some fs
             /\ Result.fields r = Z.of_nat (length fs)
             /\ forall k, is_Some (Result.columnIndex r !! k) -> k ∈ map name fs.

(** The number a text starts with, after white space and an optional sign;
    [None] when it starts with no number. *)
Definition leading_number (s : string) : option Z :=
  match scan_integer s with
  | Some (neg, v, _) => Some (if neg then - v else v)
  | None => None
  end.

(** What a text parses to, for each integer type with a decoder: nothing
    when it starts with no number, else what the C library's conversion makes
    of the number, stored in the type. *)
Definition parsed_uint32 (s : string) : option uint32_t :=
  match leading_number s with
  | Some _ => Some (U32 (wrap32 (strtoul s).1))
  | None => None
  end.

Definition parsed_uint64 (s : string) : option uint64_t :=
  match leading_number s with
  | Some _ => Some (U64 (strtoull s).1)
  | None => None
  end.

Definition parsed_int32 (s : string) : option int32_t :=
  match leading_number s with
  | Some _ => Some (I32 (to_signed 32 (strtol s).1))
  | None => None
  end.

Definition parsed_int64 (s : string) : option int64_t :=
  match leading_number s with
  | Some _ => Some (I64 (strtoll s).1)
  | None => None
  end.

(** For a floating type: nothing when the conversion consumes nothing. *)
Definition parsed_floating {F : Type} (strto : string -> F * nat) (s : string)
    : option F :=
  if Nat.eqb (strto s).2 0 then None else Some (strto s).1.

(** Every text is a string. *)
Definition parsed_string (s : string) : option string := Some s.

(** The contract of a decoder: a NULL and a text that does not parse give
    the default the caller supplied, a text that parses gives what it parses
    to; and reading a NULL cell leaves the destination as it was. *)
Definition default_unless_parsed {T : Type} (convert : option string -> T -> T)
    (parsed : string -> option T) : Prop :=
  (forall (data : option string) (defaultValue : T),
     convert data defaultValue
     = match data with
       | None => defaultValue
       | Some s => default defaultValue (parsed s)
       end)
  /\ (forall (r : Row.t) (value : T),
        Row.fieldIter r < Row.fields r ->
        Row.at_index r (Row.fieldIter r) = Ok None ->
        (@Row.read T convert r value).2 = Ok value).

(** The result sets a connection has yet to hand over, in the order
    [nextResult] reaches them, each with the status of the step that reaches
    it; after a dispatch the first one is reached without a step. *)
Definition upcoming (q : Query.t) : list (Z * option MYSQL_RES) :=
  if Query.firstToRetrieve q
  then (0, my_current (Query.con q)) :: my_pending (Query.con q)
  else my_pending (Query.con q).

(** A run of result sets that are all reached and stored without error. *)
Definition delivered (sets : list MYSQL_RES) : list (Z * option MYSQL_RES) :=
  map (fun rs => (0, Some rs)) sets.

(** Demultiplexing as the specification words it: in registration order,
    one result set per entry, and for an entry that wants diagnostics the
    very next result set as its diagnostics; the result sets are used up
    exactly. *)
Fixpoint demultiplex (entries : list (string * bool)) (sets : list MYSQL_RES)
    : option (list (MYSQL_RES * option MYSQL_RES)) :=
  match entries, sets with
  | [], [] => Some []
  | (_, false) :: entries', data :: sets' =>
      match demultiplex entries' sets' with
      | Some pairs => Some ((data, None) :: pairs)
      | None => None
      end
  | (_, true) :: entries', data :: diagnostics :: sets' =>
      match demultiplex entries' sets' with
      | Some pairs => Some ((data, Some diagnostics) :: pairs)
      | None => None
      end
  | _, _ => None
  end.

(** Where the result set of entry [i] sits in the reply stream: after one
    result set for each earlier entry and one more for each earlier entry
    that wants diagnostics. *)
Definition position (entries : list (string * bool)) (i : nat) : nat :=
  i + length (filter (fun e : string * bool => e.2 = true) (take i entries)).

(** The text of column [i] of a row, a NULL read into an empty string. *)
Definition cell_text (row : MYSQL_ROW) (i : nat) : string :=
  match row !! i with
  | Some (Some s) => s
  | _ => ""
  end.

(** The diagnostics map as the specification words it: each row gives the
    entry key to value, rows with an empty key are skipped. *)
Fixpoint diagnostics_entries (rows : list MYSQL_ROW) (values : gmap string string)
    : gmap string string :=
  match rows with
  | [] => values
  | row :: rest =>
      diagnostics_entries rest
        (if decide (cell_text row 0 = "") then values
         else Result.MetaReader.emplace values (cell_text row 0) (cell_text row 1))
  end.

Definition diagnostics_map (diagnostics : MYSQL_RES) : gmap string string :=
  diagnostics_entries (res_rows diagnostics) ∅.

(** The Result of a data result set with its diagnostics merged. *)
Definition merged (pair : MYSQL_RES * option MYSQL_RES) : Result.t :=
  {| Result.columnIndex := ∅;
     Result.metaReader := diagnostics_map <$> pair.2;
     Result.result := pair.1;
     Result.fieldInfo := mysql_fetch_fields pair.1;
     Result.fields := mysql_num_fields pair.1 |}.

(** A diagnostics result set as the daemon sends them: key and value
    columns at least, every row that wide, nothing fetched yet. *)
Definition diagnostics_shaped (rs : MYSQL_RES) : Prop :=
  well_formed rs /\ res_next rs = O
  /\ (2 <= length (res_fields rs))%nat
  /\ Z.of_nat (length (res_fields rs)) < 2 ^ 32.

(** A connection of a round, the result sets its reply starts with, and how
    they pair up: the reply serves the batch when it demultiplexes that way
    and its diagnostics result sets have the diagnostics shape. *)
Definition Round : Type :=
  Query.t * list MYSQL_RES * list (MYSQL_RES * option MYSQL_RES).

Definition round_query (round : Round) : Query.t := round.1.1.
Definition round_pairs (round : Round) : list (MYSQL_RES * option MYSQL_RES) :=
  round.2.

Definition serves (round : Round) : Prop :=
  let '(q, sets, pairs) := round in
  (exists rest, upcoming q = (delivered sets ++ rest)%list)
  /\ demultiplex (Query.queries q) sets = Some pairs
  /\ Forall (fun pair : MYSQL_RES * option MYSQL_RES =>
               forall m, pair.2 = Some m -> diagnostics_shaped m) pairs.

(** The statement that a failed round leaves no connection behind, neither
    in flight nor in the pool. *)
Definition aborts_atomically (d : Daemon) (a : AsyncQuery.t) : Prop :=
  forall a' e, AsyncQuery.launch d a = (a', Throw e) ->
               AsyncQuery.connections a' = [] /\ AsyncQuery.queries a' = [].

(** The target every connection the pool creates is connected to. *)
Definition pool_target (a : AsyncQuery.t) : Target :=
  if 0 <? AsyncQuery.port a
  then {| t_host := Some (AsyncQuery.host a); t_port := AsyncQuery.port a;
          t_unix_socket := Some "/var/run/sphinx.s" |}
  else {| t_host := None; t_port := 0; t_unix_socket := Some (AsyncQuery.host a) |}.

(** The options the pool's configuration sets on a handle. *)
Definition config_options (cfg : option Config) : list (mysql_option * Z) :=
  match cfg with
  | None => []
  | Some c =>
      ((if optProtocol c =? 0 then [] else [(MYSQL_OPT_PROTOCOL, optProtocol c)])
       ++ [(MYSQL_OPT_CONNECT_TIMEOUT, wrap32 (connectTimeout c));
           (MYSQL_OPT_WRITE_TIMEOUT, wrap32 (writeTimeout c));
           (MYSQL_OPT_READ_TIMEOUT, wrap32 (readTimeout c))])%list
  end.

(** The handle of a freshly created and configured connection. *)
Definition created_handle (handles : nat) (cfg : option Config) : MYSQL :=
  {| my_handle := handles; my_options := config_options cfg; my_peer := None;
     my_request := ""; my_current := None; my_pending := []; my_error := "" |}.

(** The worker the pool creates for a statement when it has no idle
    connection: a new handle with the pool's configuration, connected to the
    pool's target, holding the one statement. *)
Definition created_worker (handles : nat) (a : AsyncQuery.t) (query : string)
    (meta : bool) : Query.t :=
  {| Query.con :=
       {| my_handle := handles; my_options := config_options (AsyncQuery.cfg a);
          my_peer := Some (pool_target a);
          my_request := ""; my_current := None; my_pending := []; my_error := "" |};
     Query.connected := true; Query.firstToRetrieve := true;
     Query.queries := [(c_str query, meta)] |}.

Definition handle_of (q : Query.t) : nat := my_handle (Query.con q).

(** A connection as the pool keeps it: no statements, first result pending. *)
Definition cleared (q : Query.t) : Prop :=
  Query.queries q = [] /\ Query.firstToRetrieve q = true.

(** ** Sample data, after [tests/test_query.cc] *)

Definition idx_test : MYSQL_RES :=
  {| res_fields := [mk_field "id"; mk_field "int_data"; mk_field "string_data"];
     res_rows := [[Some "1"; Some "219"; Some "Additional string attribute"];
                  [Some "2"; None; Some ""]];
     res_next := O |}.

Definition show_meta : MYSQL_RES :=
  {| res_fields := [mk_field "Variable_name"; mk_field "Value"];
     res_rows := [[Some "total"; Some "2"]; [Some "total_found"; Some "2"];
                  [Some "time"; Some "0.000"]];
     res_next := O |}.

(** A daemon that accepts every connection and answers every payload with
    the status and the result sets given. *)
Definition answering (status : Z) (sets : list MYSQL_RES) : Daemon :=
  let rp :=
    {| rp_status := status; rp_error := "server has gone away";
       rp_current := head sets;
       rp_pending := map (fun r => (0, Some r)) (tail sets) |} in
  {| dm_init := fun _ => true;
     dm_init_error := "out of memory";
     dm_connect := fun _ _ => None;
     dm_query := fun _ _ => rp;
     dm_send := fun _ _ => (0, "");
     dm_read := fun _ => rp |}.

Definition idle_handle (n : nat) : MYSQL :=
  {| my_handle := n; my_options := [];
     my_peer := Some {| t_host := None; t_port := 0;
                        t_unix_socket := Some "/tmp/test-sphinxql.s" |};
     my_request := ""; my_current := None; my_pending := []; my_error := "" |}.

Definition idle_query (n : nat) : Query.t :=
  {| Query.con := idle_handle n; Query.connected := true;
     Query.firstToRetrieve := true; Query.queries := [] |}.

(** The batch of [TEST(Query, meta)]. *)
Definition meta_test_query : Query.t :=
  Query.addQuery
    (Query.addQuery (idle_query 0) "SELECT id FROM idx_test;" true)
    "SELECT id FROM idx_test;" false.

(** A connected query with the batch [entries] whose reply, the result sets
    [sets], has arrived. *)
Definition answered_query (n : nat) (entries : list (string * bool))
    (sets : list MYSQL_RES) : Query.t :=
  {| Query.con :=
       {| my_handle := n; my_options := [];
          my_peer := Some {| t_host := None; t_port := 0;
                             t_unix_socket := Some "/tmp/test-sphinxql.s" |};
          my_request := expected_payload entries;
          my_current := head sets; my_pending := delivered (tail sets);
          my_error := "" |};
     Query.connected := true; Query.firstToRetrieve := true;
     Query.queries := entries |}.

(** The round of [TEST(AsyncQuery, query)]: two connections, the first of
    which wants diagnostics. *)
Definition async_test_rounds : list Round :=
  [(answered_query 0 [("SELECT * FROM idx_test ORDER BY id ASC LIMIT 10;", true)]
      [idx_test; show_meta],
    [idx_test; show_meta], [(idx_test, Some show_meta)]);
   (answered_query 1 [("SELECT * FROM idx_test WHERE multi_data = 1607798880006;", false)]
      [idx_test],
    [idx_test], [(idx_test, None)])].

(** A pool with one connection in flight whose statement wants diagnostics,
    and a daemon whose reply holds the data result set only. *)
Definition lonely_pool : AsyncQuery.t :=
  {| AsyncQuery.connections := [];
     AsyncQuery.queries :=
       [Query.addQuery (idle_query 0) "SELECT id FROM idx_test;" true];
     AsyncQuery.host := "/tmp/test-sphinxql.s"; AsyncQuery.port := 0;
     AsyncQuery.cfg := None |}.

(** A pool with two idle connections. *)
Definition idle_pool : AsyncQuery.t :=
  {| AsyncQuery.connections := [idle_query 0; idle_query 1];
     AsyncQuery.queries := [];
     AsyncQuery.host := "/tmp/test-sphinxql.s"; AsyncQuery.port := 0;
     AsyncQuery.cfg := None |}.

(** What [nextResult] throws when the next of the result sets still to come
    is not there to be taken: nothing is left, or the step to it fails, or it
    is reached and no result set can be stored; [None] when it can be
    taken.  [error] is the error text of the connection. *)
Definition missing_result (error : string) (rest : list (Z * option MYSQL_RES))
    : option string :=
  match rest with
  | [] => Some "No result returned"
  | (status, r) :: _ =>
      if status =? 0 then
        match r with
        | None => Some ("mysql_store_result error: " +:+ error)
        | Some _ => None
        end
      else Some "No result returned"
  end.

(** The Query that [Query()] makes when [handles] handles exist. *)
Definition fresh_query (handles : nat) : Query.t :=
  {| Query.con :=
       {| my_handle := handles; my_options := []; my_peer := None;
          my_request := ""; my_current := None; my_pending := [];
          my_error := "" |};
     Query.connected := false; Query.firstToRetrieve := true;
     Query.queries := [] |}.

(** A bound row of one column holding [cell]. *)
Definition one_cell_row (cell : option string) : Row.t :=
  {| Row.origin := true; Row.data := Some [cell]; Row.fields := 1;
     Row.fieldIter := 0 |}.

(** ** Further reference definitions *)

(** The value column of the first row whose key column reads [key]. *)
Definition first_value (rows : list MYSQL_ROW) (key : string) : option string :=
  match find (fun row => bool_decide (cell_text row 0 = key)) rows with
  | Some row => Some (cell_text row 1)
  | None => None
  end.

(** The position, counted from [i], of the last of [names] that is [k]. *)
Fixpoint last_column (names : list string) (k : string) (i : nat) : option nat :=
  match names with
  | [] => None
  | n :: rest =>
      match last_column rest k (S i) with
      | Some j => Some j
      | None => if decide (n = k) then Some i else None
      end
  end.

(** A Result as the constructor makes it and column lookups leave it: the
    metadata is there and as long as the column count, and the column index
    is either not built yet or maps every name to the last column of that
    name. *)
Definition Result_indexed (r : Result.t) : Prop :=
  exists fs, Result.fieldInfo r = Some fs
             /\ Result.fields r = Z.of_nat (length fs)
             /\ (Result.columnIndex r = ∅
                 \/ forall k, Result.columnIndex r !! k
                              = Z.of_nat <$> last_column (map name fs) k O).

(** A row bound to the cells [arr] of a Result with [fields] columns. *)
Definition bound_row (fields : Z) (arr : MYSQL_ROW) : Row.t :=
  {| Row.origin := true; Row.data := Some arr; Row.fields := fields;
     Row.fieldIter := 0 |}.

(** The row an exhausted Result leaves behind. *)
Definition unbound_row : Row.t :=
  {| Row.origin := false; Row.data := None; Row.fields := 0; Row.fieldIter := 0 |}.

(** [while (res->getNextRow(row)) { ... }], as the callers in
    [tests/test_build.cc] run it, for at most [fuel] rows: the Result and the
    row after the loop, and the rows the body saw. *)
Fixpoint fetch_rows (fuel : nat) (r : Result.t) (row : Row.t)
    : Result.t * Row.t * list Row.t :=
  match fuel with
  | O => (r, row, [])
  | S fuel' =>
      let '(r1, row1, more) := Result.getNextRow r row in
      if more then
        let '(r2, row2, seen) := fetch_rows fuel' r1 row1 in
        (r2, row2, row1 :: seen)
      else (r1, row1, [])
  end.

(** A single-column result set with a row, which no SHOW META answer is. *)
Definition narrow_meta : MYSQL_RES :=
  {| res_fields := [mk_field "Variable_name"];
     res_rows := [[Some "total"]];
     res_next := O |}.

(** A SHOW META answer with a repeated key, a NULL key and a NULL value. *)
Definition odd_meta : MYSQL_RES :=
  {| res_fields := [mk_field "Variable_name"; mk_field "Value"];
     res_rows := [[Some "total"; Some "2"]; [None; Some "x"]; [Some ""; Some "y"];
                  [Some "total"; Some "3"]; [Some "time"; None]];
     res_next := O |}.

(** A result set with two columns of the same name. *)
Definition twin_columns : MYSQL_RES :=
  {| res_fields := [mk_field "id"; mk_field "w"; mk_field "id"];
     res_rows := [[Some "1"; Some "5"; Some "7"]];
     res_next := O |}.

(** The daemon takes the payload of [q] and answers it with status zero and
    a reply that starts with the result sets [sets]. *)
Definition answers (d : Daemon) (q : Query.t) (sets : list MYSQL_RES) : Prop :=
  (dm_send d (Query.con q) (Query.getQueryString q)).1 = 0
  /\ rp_status (dm_read d (Query.con (Query.asyncExecute d q).1)) = 0
  /\ exists rest,
       (0, rp_current (dm_read d (Query.con (Query.asyncExecute d q).1)))
         :: rp_pending (dm_read d (Query.con (Query.asyncExecute d q).1))
       = (delivered sets ++ rest)%list.

(** A connection of a round, answered by the daemon with result sets that
    pair up over its batch. *)
Definition answered (d : Daemon) (round : Round) : Prop :=
  answers d (round_query round) round.1.2
  /\ demultiplex (Query.queries (round_query round)) round.1.2
     = Some (round_pairs round)
  /\ Forall (fun pair : MYSQL_RES * option MYSQL_RES =>
               forall m, pair.2 = Some m -> diagnostics_shaped m)
       (round_pairs round).

(** A connection after its payload was sent and its reply waited for. *)
Definition dispatched (d : Daemon) (q : Query.t) : Query.t :=
  (Query.waitForAsyncResult d (Query.asyncExecute d q).1).1.

(** ** QueryConstructor: the statement builder of [querybuilder.cc] *)

(** [std::ostream << int]: decimal, with a minus sign when negative. *)
Definition show_int (z : Z) : string := pretty z.

Definition is_empty (s : string) : bool :=
  match s with
  | EmptyString => true
  | String _ _ => false
  end.

(** [join(data, op)]: the first element, then [op] and an element for each
    further one. *)
Definition join (data : list string) (op : string) : string :=
  match data with
  | [] => ""
  | first :: rest =>
      fold_left (fun (res : string) (x : string) => res +:+ op +:+ x) rest first
  end.

Module QueryConstructor.
(** [QueryConstructor::PrivateData]. *)
Record t := mk {
  offset : Z;
  limit : Z;
  matches : Z;
  querytime : Z;
  query : string;
  index : string;
  weights : string;
  sorting : string;
  ranking : string;
  matching : string;
  groupby : string;
  groupexpr : string;
  filters : list string
}.

(** [QueryConstructor::QueryConstructor()]. *)
Definition new : t :=
  {| offset := 0; limit := 20; matches := 3000; querytime := 5000;
     query := ""; index := ""; weights := ""; sorting := ""; ranking := "";
     matching := ""; groupby := ""; groupexpr := ""; filters := [] |}.

Definition setIndex (b : t) (i : string) : t :=
  {| offset := offset b; limit := limit b; matches := matches b;
     querytime := querytime b; query := query b; index := i;
     weights := weights b; sorting := sorting b; ranking := ranking b;
     matching := matching b; groupby := groupby b; groupexpr := groupexpr b;
     filters := filters b |}.

Definition setMatching (b : t) (m : string) : t :=
  {| offset := offset b; limit := limit b; matches := matches b;
     querytime := querytime b; query := query b; index := index b;
     weights := weights b; sorting := sorting b; ranking := ranking b;
     matching := "MATCH('" +:+ m +:+ "')"; groupby := groupby b;
     groupexpr := groupexpr b; filters := filters b |}.

Definition setPaging (b : t) (o l : Z) : t :=
  {| offset := o; limit := l; matches := matches b; querytime := querytime b;
     query := query b; index := index b; weights := weights b;
     sorting := sorting b; ranking := ranking b; matching := matching b;
     groupby := groupby b; groupexpr := groupexpr b; filters := filters b |}.

Definition setMaxMatches (b : t) (max : Z) : t :=
  {| offset := offset b; limit := limit b; matches := max;
     querytime := querytime b; query := query b; index := index b;
     weights := weights b; sorting := sorting b; ranking := ranking b;
     matching := matching b; groupby := groupby b; groupexpr := groupexpr b;
     filters := filters b |}.

Definition setMaxQueryTime (b : t) (time : Z) : t :=
  {| offset := offset b; limit := limit b; matches := matches b;
     querytime := time; query := query b; index := index b;
     weights := weights b; sorting := sorting b; ranking := ranking b;
     matching := matching b; groupby := groupby b; groupexpr := groupexpr b;
     filters := filters b |}.

Definition setSorting (b : t) (s : string) : t :=
  {| offset := offset b; limit := limit b; matches := matches b;
     querytime := querytime b; query := query b; index := index b;
     weights := weights b;
     sorting := (if is_empty s then "" else "ORDER BY " +:+ s);
     ranking := ranking b; matching := matching b; groupby := groupby b;
     groupexpr := groupexpr b; filters := filters b |}.

Definition getSorting (b : t) : string := sorting b.

Definition setRanking (b : t) (r : string) : t :=
  {| offset := offset b; limit := limit b; matches := matches b;
     querytime := querytime b; query := query b; index := index b;
     weights := weights b; sorting := sorting b;
     ranking := "ranker=expr('" +:+ r +:+ "')"; matching := matching b;
     groupby := groupby b; groupexpr := groupexpr b; filters := filters b |}.

Definition setFieldWeight (b : t) (f : string) (w : Z) : t :=
  {| offset := offset b; limit := limit b; matches := matches b;
     querytime := querytime b; query := query b; index := index b;
     weights := ((if negb (is_empty (weights b)) then weights b +:+ "," else "")
        +:+ f +:+ "=" +:+ show_int w);
     sorting := sorting b; ranking := ranking b; matching := matching b;
     groupby := groupby b; groupexpr := groupexpr b; filters := filters b |}.

(** The filter text of the iterator overload of [addEnumFilter] for a
    range that starts with [v]. *)
Definition enum_filter (f : string) (v : Z) (rest : list Z) : string :=
  fold_left (fun (o : string) (x : Z) => o +:+ ", " +:+ to_string x) rest
    (f +:+ " IN (" +:+ to_string v)
  +:+ ")".

Definition push_filter (b : t) (filter : string) : t :=
  {| offset := offset b; limit := limit b; matches := matches b;
     querytime := querytime b; query := query b; index := index b;
     weights := weights b; sorting := sorting b; ranking := ranking b;
     matching := matching b; groupby := groupby b; groupexpr := groupexpr b;
     filters := (filters b ++ [filter]) |}.

(** [addEnumFilter(f, begin, end)]: an empty range adds nothing. *)
Definition addEnumFilter_range (b : t) (f : string) (val : list Z) : t :=
  match val with
  | [] => b
  | v :: rest => push_filter b (enum_filter f v rest)
  end.

(** [addEnumFilter(f, val)] for a vector or a list of [uint32_t]. *)
Definition addEnumFilter (b : t) (f : string) (val : list Z) : t :=
  if Nat.eqb (length val) 0 then b else addEnumFilter_range b f val.

Definition addRangeFilter (b : t) (f : string) (min max : Z) : t :=
  push_filter b (f +:+ " BETWEEN " +:+ to_string min +:+ " and " +:+ to_string max).

Definition getSelectClause (b : t) : string := query b.

Definition setSelectClause (b : t) (s : string) : t :=
  {| offset := offset b; limit := limit b; matches := matches b;
     querytime := querytime b; query := s; index := index b;
     weights := weights b; sorting := sorting b; ranking := ranking b;
     matching := matching b; groupby := groupby b; groupexpr := groupexpr b;
     filters := filters b |}.

Definition setGrouping (b : t) (f expr : string) : t :=
  {| offset := offset b; limit := limit b; matches := matches b;
     querytime := querytime b; query := query b; index := index b;
     weights := weights b; sorting := sorting b; ranking := ranking b;
     matching := matching b; groupby := f; groupexpr := expr;
     filters := filters b |}.

(** [QueryConstructor::getQuery]: [out] grows part by part. *)
Definition getQuery (b : t) : string :=
  let out := "SELECT " +:+ query b +:+ " FROM " +:+ index b in
  let f := join (filters b) " AND " in
  let out :=
    if negb (is_empty f) || negb (is_empty (matching b)) then
      let out := out +:+ " WHERE " +:+ f in
      let out :=
        if negb (is_empty f) && negb (is_empty (matching b))
        then out +:+ " AND " else out in
      out +:+ matching b
    else out in
  let out :=
    if negb (is_empty (groupby b)) then
      let out := out +:+ " GROUP BY " +:+ groupby b in
      if negb (is_empty (groupexpr b))
      then out +:+ " WITHIN GROUP ORDER BY " +:+ groupexpr b else out
    else out in
  let out :=
    out +:+ " " +:+ sorting b +:+ " " +:+ "LIMIT " +:+ show_int (offset b)
      +:+ ", " +:+ show_int (limit b) +:+ " " in
  let opt : list string := [] in
  let opt :=
    if negb (is_empty (weights b))
    then (opt ++ ["field_weights=(" +:+ weights b +:+ ")"])%list else opt in
  let opt := if negb (is_empty (ranking b)) then (opt ++ [ranking b])%list else opt in
  let opt :=
    if negb (querytime b =? 0)
    then (opt ++ ["max_query_time=" +:+ show_int (querytime b)])%list else opt in
  let opt :=
    if negb (matches b =? 0)
    then (opt ++ ["max_matches=" +:+ show_int (matches b)])%list else opt in
  let o := join opt ", " in
  let out := if negb (is_empty o) then out +:+ "OPTION " +:+ o else out in
  out +:+ ";".
End QueryConstructor.

(** The calls a user can make on a builder. *)
Inductive builder_call : Type :=
  | CallSetIndex (i : string)
  | CallSetMatching (m : string)
  | CallSetPaging (o l : Z)
  | CallSetMaxMatches (max : Z)
  | CallSetMaxQueryTime (time : Z)
  | CallSetSorting (s : string)
  | CallSetRanking (r : string)
  | CallSetGrouping (f expr : string)
  | CallSetFieldWeight (f : string) (w : Z)
  | CallAddEnumFilter (f : string) (val : list Z)
  | CallAddRangeFilter (f : string) (min max : Z)
  | CallSetSelectClause (s : string).

Definition call (b : QueryConstructor.t) (c : builder_call) : QueryConstructor.t :=
  match c with
  | CallSetIndex i => QueryConstructor.setIndex b i
  | CallSetMatching m => QueryConstructor.setMatching b m
  | CallSetPaging o l => QueryConstructor.setPaging b o l
  | CallSetMaxMatches max => QueryConstructor.setMaxMatches b max
  | CallSetMaxQueryTime time => QueryConstructor.setMaxQueryTime b time
  | CallSetSorting s => QueryConstructor.setSorting b s
  | CallSetRanking r => QueryConstructor.setRanking b r
  | CallSetGrouping f expr => QueryConstructor.setGrouping b f expr
  | CallSetFieldWeight f w => QueryConstructor.setFieldWeight b f w
  | CallAddEnumFilter f val => QueryConstructor.addEnumFilter b f val
  | CallAddRangeFilter f min max => QueryConstructor.addRangeFilter b f min max
  | CallSetSelectClause s => QueryConstructor.setSelectClause b s
  end.

(** A fresh builder after the calls [cs], in order. *)
Definition built (cs : list builder_call) : QueryConstructor.t :=
  fold_left call cs QueryConstructor.new.

(** All the conditions of a builder: its filters, then its MATCH. *)
Definition conditions (b : QueryConstructor.t) : list string :=
  (QueryConstructor.filters b
   ++ if is_empty (QueryConstructor.matching b) then []
      else [QueryConstructor.matching b])%list.

(** All the options of a builder, in the order they are written. *)
Definition options (b : QueryConstructor.t) : list string :=
  ((if is_empty (QueryConstructor.weights b) then []
    else ["field_weights=(" +:+ QueryConstructor.weights b +:+ ")"])
   ++ (if is_empty (QueryConstructor.ranking b) then []
       else [QueryConstructor.ranking b])
   ++ (if QueryConstructor.querytime b =? 0 then []
       else ["max_query_time=" +:+ show_int (QueryConstructor.querytime b)])
   ++ (if QueryConstructor.matches b =? 0 then []
       else ["max_matches=" +:+ show_int (QueryConstructor.matches b)]))%list.

(** The WHERE part of a statement: nothing without conditions, else all of
    them joined by AND. *)
Definition where_clause (b : QueryConstructor.t) : string :=
  match conditions b with
  | [] => ""
  | _ :: _ => " WHERE " +:+ String.concat " AND " (conditions b)
  end.

Definition group_clause (b : QueryConstructor.t) : string :=
  if is_empty (QueryConstructor.groupby b) then ""
  else " GROUP BY " +:+ QueryConstructor.groupby b
       +:+ (if is_empty (QueryConstructor.groupexpr b) then ""
            else " WITHIN GROUP ORDER BY " +:+ QueryConstructor.groupexpr b).

Definition option_clause (b : QueryConstructor.t) : string :=
  match options b with
  | [] => ""
  | _ :: _ => "OPTION " +:+ String.concat ", " (options b)
  end.

(** The text of one field weight. *)
Definition weight_text (fw : string * Z) : string :=
  fw.1 +:+ "=" +:+ show_int fw.2.

(** * Properties *)

#[global] Arguments Result.addMeta : simpl never.
#[global] Arguments Result.new : simpl never.
#[global] Arguments Query.nextResult : simpl never.
#[global] Arguments Row.read : simpl never.

(** ** Strings *)

Lemma append_cons (c : ascii) (a b : string) :
  String c a +:+ b = String c (a +:+ b).
Proof. reflexivity. Qed.

Lemma append_nil_l (b : string) : "" +:+ b = b.
Proof. reflexivity. Qed.

Lemma append_nil_r (s : string) : s +:+ "" = s.
Proof.
  induction s as [|c s IH]; [reflexivity |].
  now rewrite append_cons, IH.
Qed.

Lemma append_assoc (a b c : string) : (a +:+ b) +:+ c = a +:+ (b +:+ c).
Proof.
  induction a as [|x a IH]; [reflexivity |].
  now rewrite !append_cons, IH.
Qed.

Lemma c_str_idempotent (s : string) : c_str (c_str s) = c_str s.
Proof.
  induction s as [|c s IH]; simpl; [reflexivity |].
  destruct (Ascii.eqb c zero) eqn:E; simpl; [reflexivity |].
  now rewrite E, IH.
Qed.

Lemma nul_free_append (a b : string) : nul_free a -> nul_free b -> nul_free (a +:+ b).
Proof.
  unfold nul_free. induction a as [|x a IH]; intros Ha Hb; [assumption |].
  rewrite append_cons. simpl in *.
  destruct (Ascii.eqb x zero) eqn:E; [discriminate |].
  injection Ha as Ha. now rewrite IH.
Qed.

(** ** The payload *)

Lemma getQueryString_fold (entries : list (string * bool)) (acc : string) :
  fold_left
    (fun (query : string) (queryInfo : string * bool) =>
       let query := query +:+ queryInfo.1 in
       if queryInfo.2 then query +:+ "SHOW META; " else query)
    entries acc
  = acc +:+ expected_payload entries.
Proof.
  revert acc. induction entries as [|[statement meta] rest IH]; intros acc; simpl.
  - now rewrite append_nil_r.
  - rewrite IH. destruct meta; simpl.
    + now rewrite !append_assoc.
    + now rewrite append_assoc.
Qed.

Lemma expected_payload_nul_free (entries : list (string * bool)) :
  Forall (fun e => nul_free e.1) entries -> nul_free (expected_payload entries).
Proof.
  induction 1 as [|[statement meta] rest Hs _ IH]; simpl; [reflexivity |].
  apply nul_free_append; [exact Hs |].
  apply nul_free_append; [destruct meta; reflexivity | exact IH].
Qed.

(** Every entry registered through [addQuery] is free of NUL, so the
    synchronous path hands the whole payload to the transport as well. *)
Lemma addQuery_nul_free (q : Query.t) (query : string) (meta : bool) :
  Forall (fun e => nul_free e.1) (Query.queries q) ->
  Forall (fun e => nul_free e.1) (Query.queries (Query.addQuery q query meta)).
Proof.
  intros H. simpl. apply Forall_app. split; [exact H |].
  constructor; [apply c_str_idempotent | constructor].
Qed.

Lemma getQueryString_expected (q : Query.t) :
  Query.getQueryString q = expected_payload (Query.queries q).
Proof. unfold Query.getQueryString. now rewrite getQueryString_fold. Qed.

Lemma execute_data_request (d : Daemon) (q : Query.t) :
  my_request (Query.con (Query.execute_data d q).1)
  = c_str (expected_payload (Query.queries q)).
Proof.
  unfold Query.execute_data, mysql_query. rewrite getQueryString_expected. simpl.
  repeat match goal with |- context [if ?b then _ else _] => destruct b end;
    reflexivity.
Qed.

Lemma execute_sends_whole_payload (d : Daemon) (q : Query.t) :
  Forall (fun e => nul_free e.1) (Query.queries q) ->
  my_request (Query.con (Query.execute_data d q).1)
  = expected_payload (Query.queries q).
Proof.
  intros H. rewrite execute_data_request.
  now apply expected_payload_nul_free.
Qed.

(** C3: the payload of a batch is the concatenation of its statement texts in
    registration order with "SHOW META; " right after every entry flagged for
    diagnostics and nothing else; this text is what the asynchronous send
    hands to the transport, and what the synchronous execute hands to it as a
    C string. *)
Theorem getQueryString_is_expected_payload (d : Daemon) (q : Query.t) :
  Query.getQueryString q = expected_payload (Query.queries q)
  /\ my_request (Query.con (Query.asyncExecute d q).1)
     = expected_payload (Query.queries q)
  /\ my_request (Query.con (Query.execute_data d q).1)
     = c_str (expected_payload (Query.queries q)).
Proof.
  split; [apply getQueryString_expected |]. split; [| apply execute_data_request].
  unfold Query.asyncExecute, mysql_send_query.
  change (Query.getQueryString (Query.set_firstToRetrieve q true))
    with (Query.getQueryString q).
  rewrite getQueryString_expected. simpl.
  destruct (dm_send d (Query.con q) (expected_payload (Query.queries q)))
    as [status e].
  now destruct (negb (status =? 0)).
Qed.

(** ** Pulling result sets *)

Lemma Result_new_stored (c : MYSQL) (rs : MYSQL_RES) :
  my_current c = Some rs ->
  Result.new c = ((mysql_store_result c).1, Ok (fresh_result rs)).
Proof. intros H. unfold Result.new, mysql_store_result. now rewrite H. Qed.

Lemma Result_new_throws (c c' : MYSQL) (e : exn) :
  Result.new c = (c', Throw e) -> is_TimeoutException e = false.
Proof.
  unfold Result.new, mysql_store_result.
  destruct (my_current c); intros H; inversion H; reflexivity.
Qed.

Lemma nextResult_throws (q q' : Query.t) (e : exn) :
  Query.nextResult q = (q', Throw e) -> is_TimeoutException e = false.
Proof.
  unfold Query.nextResult.
  destruct (Query.firstToRetrieve q).
  - destruct (Result.new _) as [c o] eqn:E. intros H. inversion H; subst.
    eapply Result_new_throws; eassumption.
  - destruct (mysql_more_results _); [| intros H; inversion H; reflexivity].
    destruct (mysql_next_result _) as [c status].
    destruct (status =? 0); [| intros H; inversion H; reflexivity].
    destruct (Result.new c) as [c' o] eqn:E. intros H. inversion H; subst.
    eapply Result_new_throws; eassumption.
Qed.

(** C4: the first call of nextResult after a dispatch hands over the first
    result set whatever the more-results signal says and without stepping the
    stream; a later call throws Exception "No result returned" when the
    signal is false, returns a result set only when the signal is true; and
    after any call the next one is a later call. *)
Theorem nextResult_first_then_more_results (q : Query.t) :
  (Query.firstToRetrieve q = true ->
   forall rs, my_current (Query.con q) = Some rs ->
   exists q', Query.nextResult q = (q', Ok (fresh_result rs))
              /\ my_pending (Query.con q') = my_pending (Query.con q))
  /\ (Query.firstToRetrieve q = false ->
      mysql_more_results (Query.con q) = false ->
      Query.nextResult q = (q, Throw (Exception "No result returned")))
  /\ (Query.firstToRetrieve q = false ->
      forall q' r, Query.nextResult q = (q', Ok r) ->
      mysql_more_results (Query.con q) = true)
  /\ Query.firstToRetrieve (Query.nextResult q).1 = false.
Proof.
  repeat split.
  - intros Hfirst rs Hcur. unfold Query.nextResult. rewrite Hfirst.
    rewrite (Result_new_stored _ rs) by exact Hcur.
    eexists. split; reflexivity.
  - intros Hfirst Hmore. unfold Query.nextResult. now rewrite Hfirst, Hmore.
  - intros Hfirst q' r. unfold Query.nextResult. rewrite Hfirst.
    destruct (mysql_more_results _); [reflexivity | discriminate].
  - unfold Query.nextResult.
    destruct (Query.firstToRetrieve q) eqn:Hfirst.
    + now destruct (Result.new _).
    + destruct (mysql_more_results _); [| exact Hfirst].
      destruct (mysql_next_result _) as [c status].
      destruct (status =? 0); [| exact Hfirst].
      now destruct (Result.new c).
Qed.

Lemma nextResult_first_then_more_results_witness :
  let q := {| Query.con :=
                {| my_handle := 0; my_options := []; my_peer := None;
                   my_request := ""; my_current := Some idx_test;
                   my_pending := []; my_error := "" |};
              Query.connected := true; Query.firstToRetrieve := true;
              Query.queries := [("SELECT id FROM idx_test;", true)] |} in
  (Query.nextResult q).2 = Ok (fresh_result idx_test)
  /\ (Query.nextResult (Query.nextResult q).1).2
     = Throw (Exception "No result returned").
Proof.
  intros q. split.
  - destruct (nextResult_first_then_more_results q) as (H & _).
    destruct (H eq_refl idx_test eq_refl) as (q' & E & _). now rewrite E.
  - destruct (nextResult_first_then_more_results (Query.nextResult q).1)
      as (_ & H & _).
    now rewrite (H eq_refl eq_refl).
Defined.

(** ** What can be thrown where *)

Lemma Row_read_throws {T : Type} `{ConvertResult T} (r r' : Row.t) (value : T)
    (e : exn) :
  Row.read r value = (r', Throw e) ->
  r' = r /\ Row.fields r <= Row.fieldIter r
  /\ e = out_of_range ("Row column out of range: " +:+ to_string (Row.fieldIter r)).
Proof.
  unfold Row.read, Row.checkBounds.
  destruct (Row.fields r <=? Row.fieldIter r) eqn:E.
  - intros H1. inversion H1; subst. repeat split. now apply Z.leb_le.
  - unfold Row.at_index. destruct (Row.data r) as [arr|]; [| discriminate].
    destruct (arr !! Z.to_nat (Row.fieldIter r)); discriminate.
Qed.

Lemma read_rows_throws (fuel : nat) (result : Result.t) (row : Row.t)
    (values : gmap string string) (e : exn) :
  Result.MetaReader.read_rows fuel result row values = Some (Throw e) ->
  is_out_of_range e = true.
Proof.
  revert result row values.
  induction fuel as [|fuel IH]; intros result row values; simpl; [discriminate |].
  destruct (Result.getNextRow result row) as [[result1 row1] more].
  destruct more; [| discriminate].
  destruct (Row.read row1 "") as [row2 okey] eqn:Ekey.
  destruct okey as [key'|e1|]; [| | discriminate].
  - destruct (Row.read row2 "") as [row3 ovalue] eqn:Evalue.
    destruct ovalue as [value'|e2|]; [apply IH | | discriminate].
    intros H; inversion H; subst.
    apply Row_read_throws in Evalue as (_ & _ & ->). reflexivity.
  - intros H; inversion H; subst.
    apply Row_read_throws in Ekey as (_ & _ & ->). reflexivity.
Qed.

Lemma addMeta_throws (r r' : Result.t) (meta : option Result.t) (e : exn) :
  Result.addMeta r meta = Throw e -> is_out_of_range e = true.
Proof.
  unfold Result.addMeta, Result.MetaReader.new.
  destruct meta as [m|]; [| discriminate].
  destruct (Result.MetaReader.read_rows _ m Row.new ∅) as [o|] eqn:E;
    [| discriminate].
  destruct o as [values|e'|]; simpl; [discriminate | | discriminate].
  intros H; inversion H; subst. eapply read_rows_throws; eassumption.
Qed.

Lemma fill_from_throws (entries : list (string * bool)) (query query' : Query.t)
    (results results' : list Result.t) (e : exn) :
  Response.fill_from entries query results = (query', results', Throw e) ->
  is_TimeoutException e = false.
Proof.
  revert query results.
  induction entries as [|[statement meta] rest IH]; intros query results; simpl;
    [discriminate |].
  destruct (Query.nextResult query) as [query1 ores] eqn:E1.
  destruct ores as [res|e1|]; [| | discriminate].
  - destruct meta; [| apply IH].
    destruct (Query.nextResult query1) as [query2 ometa] eqn:E2.
    destruct ometa as [m|e2|]; [| | discriminate].
    + destruct (Result.addMeta res (Some m)) as [res'|e3|] eqn:E3;
        [apply IH | | discriminate].
      intros H; inversion H; subst.
      apply (addMeta_throws res res) in E3. now destruct e.
    + intros H; inversion H; subst. eapply nextResult_throws; eassumption.
  - intros H; inversion H; subst. eapply nextResult_throws; eassumption.
Qed.

(** ** Synchronous execute *)

Lemma execute_data_outcome (d : Daemon) (q : Query.t) :
  (Query.execute_data d q).2
  = if execute_status d q =? 0 then Ok tt
    else if (execute_status d q =? CR_SERVER_GONE_ERROR)
            || (execute_status d q =? CR_SERVER_LOST)
         then Throw (TimeoutException
                       (rp_error (dm_query d (Query.con q)
                                    (c_str (Query.getQueryString q)))))
         else Throw (Exception
                       (rp_error (dm_query d (Query.con q)
                                    (c_str (Query.getQueryString q))))).
Proof.
  unfold Query.execute_data, mysql_query, execute_status. simpl.
  destruct (rp_status _ =? 0); simpl; [reflexivity |].
  now destruct (_ || _).
Qed.

(** C8: the synchronous execute returns when the failure code is zero;
    otherwise it throws, and what it throws is a TimeoutException exactly
    when the code is CR_SERVER_GONE_ERROR or CR_SERVER_LOST and a plain
    Exception for any other code; no later step of Query::execute throws a
    TimeoutException. *)
Theorem execute_timeout_exactly_when_gone_or_lost (d : Daemon) (q : Query.t) :
  (execute_status d q = 0 -> (Query.execute_data d q).2 = Ok tt)
  /\ (execute_status d q <> 0 ->
      exists e, (Query.execute_data d q).2 = Throw e
                /\ is_Exception e = true
                /\ (is_TimeoutException e = true <->
                    execute_status d q = CR_SERVER_GONE_ERROR
                    \/ execute_status d q = CR_SERVER_LOST))
  /\ (forall q' e, Query_execute d q = (q', Throw e) ->
      (is_TimeoutException e = true <->
       Query.connected q = true
       /\ (execute_status d q = CR_SERVER_GONE_ERROR
           \/ execute_status d q = CR_SERVER_LOST))).
Proof.
  pose proof (execute_data_outcome d q) as Hout.
  split; [| split].
  - intros H0. rewrite Hout, H0. reflexivity.
  - intros Hne. rewrite Hout.
    destruct (execute_status d q =? 0) eqn:E0; [apply Z.eqb_eq in E0; lia |].
    destruct (execute_status d q =? CR_SERVER_GONE_ERROR) eqn:Eg;
      [| destruct (execute_status d q =? CR_SERVER_LOST) eqn:El]; simpl;
      eexists; (split; [reflexivity |]); (split; [reflexivity |]); simpl.
    + split; [intros _; left; now apply Z.eqb_eq | reflexivity].
    + split; [intros _; right; now apply Z.eqb_eq | reflexivity].
    + apply Z.eqb_neq in Eg, El. split; [discriminate | intros [?|?]; lia].
  - intros q' e. unfold Query_execute, Query.isConnected.
    destruct (Query.connected q); simpl.
    + destruct (Query.execute_data d q) as [q1 o] eqn:E. simpl in Hout. subst o.
      destruct (execute_status d q =? 0) eqn:E0.
      * destruct (Response.of_query q1) as [q2 oresp] eqn:Er.
        intros H; inversion H; subst. apply Z.eqb_eq in E0.
        unfold Response.of_query, Response.fill in Er.
        destruct (Response.fill_from _ q1 []) as [[q3 rs] o] eqn:Ef.
        inversion Er; subst. destruct o as [[]|e'|]; simpl in *; try discriminate.
        match goal with H : Throw _ = Throw _ |- _ => inversion H; subst end.
        apply fill_from_throws in Ef. rewrite Ef.
        unfold CR_SERVER_GONE_ERROR, CR_SERVER_LOST.
        split; [discriminate | intros (_ & [?|?]); lia].
      * destruct (execute_status d q =? CR_SERVER_GONE_ERROR) eqn:Eg;
          [| destruct (execute_status d q =? CR_SERVER_LOST) eqn:El]; simpl;
          intros H; inversion H; subst; simpl.
        -- split; [intros _; split; [reflexivity | left; now apply Z.eqb_eq]
                  | reflexivity].
        -- split; [intros _; split; [reflexivity | right; now apply Z.eqb_eq]
                  | reflexivity].
        -- apply Z.eqb_neq in Eg, El.
           split; [discriminate | intros (_ & [?|?]); lia].
    + intros H; inversion H; subst; simpl.
      split; [discriminate | intros (? & _); discriminate].
Qed.

Lemma execute_timeout_exactly_when_gone_or_lost_witness :
  (exists e, (Query.execute_data (answering 2013 []) meta_test_query).2 = Throw e
             /\ is_TimeoutException e = true)
  /\ (exists e, (Query.execute_data (answering 1064 []) meta_test_query).2 = Throw e
                /\ is_TimeoutException e = false)
  /\ (Query.execute_data (answering 0 [idx_test]) meta_test_query).2 = Ok tt.
Proof.
  split; [| split].
  - destruct (execute_timeout_exactly_when_gone_or_lost
                (answering 2013 []) meta_test_query) as (_ & H & _).
    destruct H as (e & He & _ & Ht); [discriminate |].
    exists e. split; [exact He |]. apply Ht. right. reflexivity.
  - destruct (execute_timeout_exactly_when_gone_or_lost
                (answering 1064 []) meta_test_query) as (_ & H & _).
    destruct H as (e & He & _ & Ht); [discriminate |].
    exists e. split; [exact He |].
    destruct (is_TimeoutException e); [| reflexivity].
    destruct Ht as [Ht _]. destruct (Ht eq_refl); discriminate.
  - destruct (execute_timeout_exactly_when_gone_or_lost
                (answering 0 [idx_test]) meta_test_query) as (H & _).
    apply H. reflexivity.
Defined.

(** ** Rows *)

Lemma Row_new_bounded : Row_bounded Row.new.
Proof. unfold Row_bounded, Row.new; simpl. repeat split; lia. Qed.

Lemma getNextRow_bounded (r : Result.t) (row : Row.t) :
  well_formed (Result.result r) ->
  Result.fields r = mysql_num_fields (Result.result r) ->
  Result.fields r < 2 ^ 32 ->
  Row_bounded (Result.getNextRow r row).1.2
  /\ Row.fieldIter (Result.getNextRow r row).1.2 = 0.
Proof.
  intros Hwf Hfields Hlt. unfold Result.getNextRow, mysql_fetch_row.
  destruct (res_rows (Result.result r) !! res_next (Result.result r))
    as [arr|] eqn:E; simpl.
  - split; [| reflexivity]. unfold Row_bounded; simpl.
    assert (Hlen : length arr = length (res_fields (Result.result r))).
    { unfold well_formed in Hwf. rewrite Forall_lookup in Hwf. eapply Hwf, E. }
    unfold mysql_num_fields in Hfields.
    repeat split; try lia. right. exists arr. split; [reflexivity | lia].
  - split; [| reflexivity]. unfold Row_bounded; simpl.
    repeat split; lia.
Qed.

Lemma Row_read_inside {T : Type} `{ConvertResult T} (r : Row.t) (value : T) :
  Row_bounded r -> Row.fieldIter r < Row.fields r ->
  exists cell, Row.at_index r (Row.fieldIter r) = Ok cell
               /\ Row.read r value = (Row_advanced r, Ok (convertResult cell value))
               /\ Row_bounded (Row_advanced r).
Proof.
  intros (Hiter & Hlt & Hdata) Hin.
  destruct Hdata as [H0 | (arr & Harr & Hlen)]; [lia |].
  destruct (arr !! Z.to_nat (Row.fieldIter r)) as [cell|] eqn:E.
  2: { apply lookup_ge_None in E. lia. }
  assert (Hat : Row.at_index r (Row.fieldIter r) = Ok cell).
  { unfold Row.at_index. now rewrite Harr, E. }
  exists cell. split; [exact Hat | split].
  - unfold Row.read, Row.checkBounds.
    destruct (Row.fields r <=? Row.fieldIter r) eqn:Eb.
    { apply Z.leb_le in Eb. lia. }
    cbv zeta. rewrite Hat. unfold Row_advanced, wrap32.
    rewrite Z.mod_small by lia. reflexivity.
  - unfold Row_bounded, Row_advanced; simpl. repeat split; try lia.
    right. exists arr. now split.
Qed.

Lemma Row_read_outside {T : Type} `{ConvertResult T} (r : Row.t) (value : T) :
  Row.fields r <= Row.fieldIter r ->
  Row.read r value
  = (r, Throw (out_of_range
                 ("Row column out of range: " +:+ to_string (Row.fieldIter r)))).
Proof.
  intros Hout. unfold Row.read, Row.checkBounds.
  destruct (Row.fields r <=? Row.fieldIter r) eqn:Eb; [reflexivity |].
  apply Z.leb_gt in Eb. lia.
Qed.

Lemma Row_read_n_inside {T : Type} `{ConvertResult T} (n : nat) (r : Row.t)
    (value : T) :
  Row_bounded r -> Z.of_nat n <= Row.fields r - Row.fieldIter r ->
  exists v, Row_read_n n r value
            = ({| Row.origin := Row.origin r; Row.data := Row.data r;
                  Row.fields := Row.fields r;
                  Row.fieldIter := Row.fieldIter r + Z.of_nat n |}, Ok v).
Proof.
  revert r value. induction n as [|n IH]; intros r value Hb Hn; simpl.
  - exists value. destruct r; simpl. now rewrite Z.add_0_r.
  - destruct (Row_read_inside r value Hb) as (cell & _ & -> & Hb'); [lia |].
    destruct (IH (Row_advanced r) (convertResult cell value) Hb') as (v & ->).
    { simpl. lia. }
    exists v. simpl. do 2 f_equal. lia.
Qed.

Lemma Row_read_n_beyond {T : Type} `{ConvertResult T} (n : nat) (r : Row.t)
    (value : T) :
  Row_bounded r -> Row.fields r - Row.fieldIter r < Z.of_nat n ->
  (Row_read_n n r value).2
  = Throw (out_of_range ("Row column out of range: " +:+ to_string (Row.fields r))).
Proof.
  revert r value. induction n as [|n IH]; intros r value Hb Hn; simpl.
  - destruct Hb as (? & _). lia.
  - destruct (Z.eq_dec (Row.fieldIter r) (Row.fields r)) as [Heq|Hne].
    + rewrite Row_read_outside by lia. simpl. now rewrite Heq.
    + destruct Hb as (Hiter & Hrest).
      destruct (Row_read_inside r value (conj Hiter Hrest)) as (cell & _ & -> & Hb');
        [lia |].
      rewrite IH; [reflexivity | exact Hb' | simpl; lia].
Qed.

(** C10: the sequential accessor checks its cursor against the column count
    before every read.  On a Row as the library hands them out, a read with
    the cursor inside the row reads a cell of the row's own array, and a read
    with the cursor at the end throws std::out_of_range and leaves the row
    as it was; so up to size() reads in a row return, any further one throws,
    none is undefined, and a default-constructed Row throws at once. *)
Theorem read_checks_cursor_bounds {T : Type} `{ConvertResult T} (r : Row.t)
    (value : T) (n : nat) :
  Row_bounded r ->
  (Row.fieldIter r < Row.fields r ->
   exists cell, Row.at_index r (Row.fieldIter r) = Ok cell
                /\ Row.read r value = (Row_advanced r, Ok (convertResult cell value)))
  /\ (Row.fieldIter r = Row.fields r ->
      Row.read r value
      = (r, Throw (out_of_range
                     ("Row column out of range: " +:+ to_string (Row.fields r)))))
  /\ (Z.of_nat n <= Row.fields r - Row.fieldIter r ->
      returns (Row_read_n n r value).2 = true)
  /\ (Row.fields r - Row.fieldIter r < Z.of_nat n ->
      (Row_read_n n r value).2
      = Throw (out_of_range
                 ("Row column out of range: " +:+ to_string (Row.fields r))))
  /\ (Row_read_n n r value).2 <> Undefined
  /\ Row.read Row.new value
     = (Row.new, Throw (out_of_range "Row column out of range: 0")).
Proof.
  intros Hb. repeat split.
  - intros Hin. destruct (Row_read_inside r value Hb Hin) as (cell & ? & ? & _).
    now exists cell.
  - intros Heq. rewrite Row_read_outside by lia. now rewrite Heq.
  - intros Hn. destruct (Row_read_n_inside n r value Hb Hn) as (v & ->).
    reflexivity.
  - now apply Row_read_n_beyond.
  - destruct (Z_le_gt_dec (Z.of_nat n) (Row.fields r - Row.fieldIter r)) as [Hn|Hn].
    + destruct (Row_read_n_inside n r value Hb Hn) as (v & ->). discriminate.
    + rewrite Row_read_n_beyond by (assumption || lia). discriminate.
Qed.

Lemma read_checks_cursor_bounds_witness :
  let row := (Result.getNextRow (fresh_result idx_test) Row.new).1.2 in
  Row_bounded row
  /\ returns (Row_read_n 3 row "").2 = true
  /\ (Row_read_n 4 row "").2
     = Throw (out_of_range "Row column out of range: 3").
Proof.
  intros row.
  assert (Hb : Row_bounded row).
  { apply getNextRow_bounded; [| reflexivity | reflexivity].
    repeat constructor. }
  split; [exact Hb |].
  split.
  - destruct (read_checks_cursor_bounds row "" 3 Hb) as (_ & _ & H3 & _).
    apply H3. vm_compute. discriminate.
  - destruct (read_checks_cursor_bounds row "" 4 Hb) as (_ & _ & _ & H4 & _).
    apply H4. reflexivity.
Defined.

(** ** Column lookup *)

Lemma initialize_from_keys (fs : list MYSQL_FIELD) (count i : nat)
    (index : gmap string Z) :
  (i + count <= length fs)%nat ->
  exists index', ResultIndex.initialize_from fs i count index = Ok index'
                 /\ forall k, is_Some (index' !! k) ->
                              is_Some (index !! k) \/ k ∈ map name fs.
Proof.
  revert i index. induction count as [|count IH]; intros i index Hlen; simpl.
  - exists index. split; [reflexivity | auto].
  - destruct (fs !! i) as [f|] eqn:E.
    2: { apply lookup_ge_None in E. lia. }
    destruct (IH (S i) (<[name f := Z.of_nat i]> index)) as (index' & -> & Hkeys);
      [lia |].
    exists index'. split; [reflexivity |].
    intros k Hk. destruct (Hkeys k Hk) as [Hin | Hin]; [| now right].
    destruct (decide (name f = k)) as [<-|Hne].
    + right. apply list_elem_of_fmap. exists f. split; [reflexivity |].
      eapply list_elem_of_lookup_2, E.
    + left. now rewrite lookup_insert_ne in Hin.
Qed.

Lemma Result_new_consistent (c c' : MYSQL) (r : Result.t) :
  Result.new c = (c', Ok r) -> Result_consistent r.
Proof.
  unfold Result.new, mysql_store_result.
  destruct (my_current c) as [rs|]; intros H; inversion H; subst.
  exists (res_fields rs). repeat split.
  intros k [v Hk]. simpl in Hk. now rewrite lookup_empty in Hk.
Qed.

Lemma getColumnIndex_consistent (r : Result.t) (field : string) :
  Result_consistent r -> Result_consistent (Result.getColumnIndex r field).1.
Proof.
  intros (fs & Hinfo & Hfields & Hkeys). unfold Result.getColumnIndex.
  destruct (ResultIndex.empty (Result.columnIndex r)); [| now exists fs].
  unfold ResultIndex.initialize. rewrite Hinfo, Hfields, Nat2Z.id.
  destruct (initialize_from_keys fs (length fs) 0 (Result.columnIndex r))
    as (index' & -> & Hkeys'); [lia |].
  exists fs. simpl. repeat split; [assumption.. |].
  intros k Hk. destruct (Hkeys' k Hk); auto.
Qed.

Lemma getColumnIndex_unknown (r : Result.t) (field : string) :
  Result_consistent r -> field ∉ column_names r ->
  (Result.getColumnIndex r field).2
  = Throw (out_of_range ("No such field in result set: " +:+ field)).
Proof.
  intros (fs & Hinfo & Hfields & Hkeys) Hnot.
  unfold column_names in Hnot. rewrite Hinfo in Hnot.
  unfold Result.getColumnIndex.
  destruct (ResultIndex.empty (Result.columnIndex r)).
  - unfold ResultIndex.initialize. rewrite Hinfo, Hfields, Nat2Z.id.
    destruct (initialize_from_keys fs (length fs) 0 (Result.columnIndex r))
      as (index' & -> & Hkeys'); [lia |].
    simpl. unfold ResultIndex.getFieldIndex.
    destruct (index' !! field) as [pos|] eqn:E; [| reflexivity].
    exfalso. destruct (Hkeys' field) as [Hin | Hin]; [now exists pos | |]; auto.
  - simpl. unfold ResultIndex.getFieldIndex.
    destruct (Result.columnIndex r !! field) as [pos|] eqn:E; [| reflexivity].
    exfalso. apply Hnot, Hkeys. now exists pos.
Qed.

(** C9: indexed access to a Row at an index that is at least its column count
    throws std::out_of_range; and on a Result as the constructor makes them,
    with its column index built or not, getColumnIndex of a name that is not
    among the column names throws std::out_of_range, and so does getValue on
    a Row bound to that Result. *)
Theorem index_or_name_out_of_range {T : Type} `{ValueInit T} `{ConvertResult T}
    (row : Row.t) (i : Z) (r : Result.t) (field : string) :
  (Row.fields row <= i ->
   Row.index row i
   = Throw (out_of_range ("Row column out of range: " +:+ to_string i)))
  /\ (Result_consistent r -> field ∉ column_names r ->
      (Result.getColumnIndex r field).2
      = Throw (out_of_range ("No such field in result set: " +:+ field))
      /\ (Row.origin row = true ->
          (Row_getValue (T:=T) row r field).2
          = Throw (out_of_range ("No such field in result set: " +:+ field)))).
Proof.
  split.
  - intros Hout. unfold Row.index, Row.checkBounds.
    destruct (Row.fields row <=? i) eqn:E; [reflexivity |].
    apply Z.leb_gt in E. lia.
  - intros Hc Hnot. pose proof (getColumnIndex_unknown r field Hc Hnot) as Hidx.
    split; [exact Hidx |].
    intros Horigin. unfold Row_getValue. rewrite Horigin. simpl.
    destruct (Result.getColumnIndex r field) as [r' oidx]. simpl in *.
    now rewrite Hidx.
Qed.

Lemma index_or_name_out_of_range_witness :
  let r := fresh_result idx_test in
  let row := (Result.getNextRow r Row.new).1.2 in
  Row.index row 3 = Throw (out_of_range "Row column out of range: 3")
  /\ (Result.getColumnIndex r "float_data").2
     = Throw (out_of_range "No such field in result set: float_data")
  /\ (Row_getValue (T:=uint32_t) row r "float_data").2
     = Throw (out_of_range "No such field in result set: float_data").
Proof.
  intros r row.
  destruct (index_or_name_out_of_range (T:=uint32_t) row 3 r "float_data")
    as (Hrow & Hres).
  split; [apply Hrow; vm_compute; discriminate |].
  assert (Hc : Result_consistent r).
  { exists (res_fields idx_test). repeat split.
    intros k [v Hk]. simpl in Hk. now rewrite lookup_empty in Hk. }
  assert (Hnot : "float_data" ∉ column_names r).
  { vm_compute. intros Hin. 
    repeat (apply elem_of_cons in Hin as [Hin | Hin]; [discriminate |]).
    now apply elem_of_nil in Hin. }
  destruct (Hres Hc Hnot) as (Hidx & Hval).
  split; [exact Hidx | apply Hval; reflexivity].
Defined.

(** ** Decoding *)

(** Every decoder answers a NULL with the default it was given. *)
Lemma convertResult_null :
  (forall d, convertResult_uint32 None d = d)
  /\ (forall d, convertResult_uint64 None d = d)
  /\ (forall d, convertResult_int32 None d = d)
  /\ (forall d, convertResult_int64 None d = d)
  /\ (forall d, convertResult_string None d = d)
  /\ (forall (F : Type) (strtof : string -> F * nat) d,
        convertResult_float F strtof None d = d)
  /\ (forall (D : Type) (strtod : string -> D * nat) d,
        convertResult_double D strtod None d = d).
Proof. repeat split. Qed.

(** The explicit specialisations answer a text without a number with the
    default as well, and a text with one with the number. *)
Lemma convertResult_specialised (s : string) :
  (scan_integer s = None ->
   (forall d, convertResult_uint32 (Some s) d = d)
   /\ (forall d, convertResult_uint64 (Some s) d = d)
   /\ (forall d, convertResult_int32 (Some s) d = d)
   /\ (forall d, convertResult_int64 (Some s) d = d))
  /\ (forall neg v n, scan_integer s = Some (neg, v, n) ->
      (forall d, convertResult_uint32 (Some s) d = U32 (wrap32 (strtoul s).1))
      /\ (forall d, convertResult_uint64 (Some s) d = U64 (strtoull s).1)
      /\ (forall d, convertResult_int32 (Some s) d = I32 (to_signed 32 (strtol s).1))
      /\ (forall d, convertResult_int64 (Some s) d = I64 (strtoll s).1)).
Proof.
  split.
  - intros Hnone.
    unfold convertResult_uint32, convertResult_uint64, convertResult_int32,
      convertResult_int64, strtoul, strtol, strtoull, strtoll.
    rewrite Hnone. repeat split.
  - intros neg v n Hsome.
    assert (Hn : n <> O).
    { unfold scan_integer in Hsome.
      destruct (skip_space s) as [t ws].
      destruct (match t with
                | String "-" rest => (true, rest, 1%nat)
                | String "+" rest => (false, rest, 1%nat)
                | _ => (false, t, O)
                end) as [[neg' u] sg].
      destruct (scan_digits u 0) as [v' n'].
      destruct n'; [discriminate |]. inversion Hsome. lia. }
    unfold convertResult_uint32, convertResult_uint64, convertResult_int32,
      convertResult_int64, strtoul, strtol, strtoull, strtoll.
    rewrite Hsome. simpl.
    destruct n; [contradiction |]. repeat split.
Qed.

Lemma convertResult_float_no_conversion (F : Type) (strtof : string -> F * nat)
    (s : string) (d : F) :
  (strtof s).2 = O -> convertResult_float F strtof (Some s) d = d.
Proof.
  intros H0. unfold convertResult_float. destruct (strtof s) as [val n].
  simpl in H0. now subst.
Qed.

(** Reading a NULL cell leaves the destination as it was, whatever the
    decoder, as long as it answers NULL with its default. *)
Lemma Row_read_null {T : Type} `{ConvertResult T} (r : Row.t) (value : T) :
  (forall d : T, convertResult None d = d) ->
  Row.fieldIter r < Row.fields r ->
  Row.at_index r (Row.fieldIter r) = Ok None ->
  (Row.read r value).2 = Ok value.
Proof.
  intros Hnull Hin Hat. unfold Row.read, Row.checkBounds.
  destruct (Row.fields r <=? Row.fieldIter r) eqn:E.
  { apply Z.leb_le in E. lia. }
  cbv zeta. rewrite Hat. simpl. now rewrite Hnull.
Qed.

Lemma convertResult_integers_parsed (s : string) :
  (forall d, convertResult_uint32 (Some s) d = default d (parsed_uint32 s))
  /\ (forall d, convertResult_uint64 (Some s) d = default d (parsed_uint64 s))
  /\ (forall d, convertResult_int32 (Some s) d = default d (parsed_int32 s))
  /\ (forall d, convertResult_int64 (Some s) d = default d (parsed_int64 s)).
Proof.
  destruct (convertResult_specialised s) as [Hnone Hsome].
  unfold parsed_uint32, parsed_uint64, parsed_int32, parsed_int64, leading_number.
  destruct (scan_integer s) as [[[neg v] n]|] eqn:E.
  - destruct (Hsome neg v n eq_refl) as (H1 & H2 & H3 & H4).
    repeat split; intros d; [rewrite H1 | rewrite H2 | rewrite H3 | rewrite H4];
      reflexivity.
  - destruct (Hnone eq_refl) as (H1 & H2 & H3 & H4).
    repeat split; intros d; [rewrite H1 | rewrite H2 | rewrite H3 | rewrite H4];
      reflexivity.
Qed.

Lemma convertResult_floating_parsed (F : Type) (strto : string -> F * nat)
    (s : string) (d : F) :
  convertResult_float F strto (Some s) d = default d (parsed_floating strto s)
  /\ convertResult_double F strto (Some s) d = default d (parsed_floating strto s).
Proof.
  unfold convertResult_float, convertResult_double, parsed_floating.
  destruct (strto s) as [val n]. simpl. destruct n; split; reflexivity.
Qed.

Lemma to_signed_in_range (z : Z) :
  - 2 ^ 31 <= z < 2 ^ 31 -> to_signed 32 z = z.
Proof.
  intros Hz. unfold to_signed.
  change (2 ^ (32 - 1)) with (2 ^ 31). 
  destruct (Z_lt_le_dec z 0) as [Hneg | Hpos].
  - replace (z mod 2 ^ 32) with (z + 2 ^ 32).
    + destruct (z + 2 ^ 32 <? 2 ^ 31) eqn:E; [apply Z.ltb_lt in E; lia | lia].
    + symmetry. rewrite <- (Z_mod_plus_full z 1 (2 ^ 32)).
      rewrite Z.mul_1_l. apply Z.mod_small. lia.
  - rewrite Z.mod_small by lia.
    destruct (z <? 2 ^ 31) eqn:E; [reflexivity | apply Z.ltb_ge in E; lia].
Qed.

Lemma parsed_in_range (s : string) (z : Z) :
  leading_number s = Some z ->
  (0 <= z < 2 ^ 32 -> parsed_uint32 s = Some (U32 z))
  /\ (0 <= z < 2 ^ 64 -> parsed_uint64 s = Some (U64 z))
  /\ (- 2 ^ 31 <= z < 2 ^ 31 -> parsed_int32 s = Some (I32 z))
  /\ (- 2 ^ 63 <= z < 2 ^ 63 -> parsed_int64 s = Some (I64 z)).
Proof.
  intros Hz.
  unfold parsed_uint32, parsed_uint64, parsed_int32, parsed_int64.
  rewrite Hz. unfold leading_number in Hz.
  unfold strtoul, strtol, strtoull, strtoll.
  destruct (scan_integer s) as [[[neg v] n]|]; [| discriminate].
  injection Hz as Hv. cbn [fst]. rewrite ?Hv.
  assert (Hu : 0 <= z < 2 ^ 64 ->
               (if 2 ^ 64 - 1 <? v then 2 ^ 64 - 1
                else if neg then wrap64 (- v) else v) = z).
  { intros Hr. destruct (2 ^ 64 - 1 <? v) eqn:E.
    - apply Z.ltb_lt in E. destruct neg; lia.
    - destruct neg; [| lia]. unfold wrap64. rewrite Hv. apply Z.mod_small. lia. }
  assert (Hs : - 2 ^ 63 <= z < 2 ^ 63 -> clamp (- 2 ^ 63) (2 ^ 63 - 1) z = z).
  { intros Hr. unfold clamp.
    destruct (z <? - 2 ^ 63) eqn:E1; [apply Z.ltb_lt in E1; lia |].
    destruct (2 ^ 63 - 1 <? z) eqn:E2; [apply Z.ltb_lt in E2; lia | reflexivity]. }
  repeat split; intros Hr.
  - rewrite Hu by lia. unfold wrap32. now rewrite Z.mod_small by lia.
  - now rewrite Hu.
  - rewrite Hs by lia. now rewrite to_signed_in_range.
  - now rewrite Hs.
Qed.

(** C6: the decoders a program can get, the seven explicit specialisations
    of convertResult, keep the contract: decoding a NULL, or a text that
    does not parse, gives the default the caller supplied, and a text that
    parses gives what it parses to, whatever the default; reading a NULL
    cell with the read-and-advance accessor leaves the destination with the
    value it had.  For the integer types a text parses when it starts with a
    number, and to that very number when the type can hold it. *)
Theorem convertResult_default_unless_parsed
    (float_t double_t : Type) (strtof : string -> float_t * nat)
    (strtod : string -> double_t * nat) :
  default_unless_parsed convertResult_uint32 parsed_uint32
  /\ default_unless_parsed convertResult_uint64 parsed_uint64
  /\ default_unless_parsed convertResult_int32 parsed_int32
  /\ default_unless_parsed convertResult_int64 parsed_int64
  /\ default_unless_parsed (convertResult_float float_t strtof)
       (parsed_floating strtof)
  /\ default_unless_parsed (convertResult_double double_t strtod)
       (parsed_floating strtod)
  /\ default_unless_parsed convertResult_string parsed_string
  /\ (forall (s : string) (z : Z),
        leading_number s = Some z ->
        (0 <= z < 2 ^ 32 -> parsed_uint32 s = Some (U32 z))
        /\ (0 <= z < 2 ^ 64 -> parsed_uint64 s = Some (U64 z))
        /\ (- 2 ^ 31 <= z < 2 ^ 31 -> parsed_int32 s = Some (I32 z))
        /\ (- 2 ^ 63 <= z < 2 ^ 63 -> parsed_int64 s = Some (I64 z))).
Proof.
  assert (Hread : forall (T : Type) (convert : option string -> T -> T),
             (forall d, convert None d = d) ->
             forall (r : Row.t) (value : T),
               Row.fieldIter r < Row.fields r ->
               Row.at_index r (Row.fieldIter r) = Ok None ->
               (@Row.read T convert r value).2 = Ok value).
  { intros T convert Hnull r value Hin Hat.
    now apply (@Row_read_null T convert r value Hnull). }
  repeat apply conj.
  - intros [s|] d; [apply convertResult_integers_parsed | reflexivity].
  - now apply Hread.
  - intros [s|] d; [apply convertResult_integers_parsed | reflexivity].
  - now apply Hread.
  - intros [s|] d; [apply convertResult_integers_parsed | reflexivity].
  - now apply Hread.
  - intros [s|] d; [apply convertResult_integers_parsed | reflexivity].
  - now apply Hread.
  - intros [s|] d; [apply convertResult_floating_parsed | reflexivity].
  - now apply Hread.
  - intros [s|] d; [apply convertResult_floating_parsed | reflexivity].
  - now apply Hread.
  - intros [s|] d; reflexivity.
  - now apply Hread.
  - apply parsed_in_range.
Qed.

Lemma convertResult_default_unless_parsed_witness :
  convertResult_int32 (Some " -42") (I32 7) = I32 (-42)
  /\ convertResult_uint32 (Some "abc") (U32 7) = U32 7
  /\ convertResult_uint64 None (U64 7) = U64 7
  /\ (Row.read (one_cell_row None) (U64 9)).2 = Ok (U64 9).
Proof.
  destruct (convertResult_default_unless_parsed Z Z (fun _ => (0, O))
              (fun _ => (0, O)))
    as ((_ & Hr32) & (H64 & Hr64) & (Hi32 & _) & _ & _ & _ & _ & Hrange).
  destruct (Hrange " -42" (-42) eq_refl) as (_ & _ & Hp & _).
  split; [| split; [| split]].
  - rewrite (Hi32 (Some " -42") (I32 7)), Hp by lia. reflexivity.
  - destruct (convertResult_default_unless_parsed Z Z (fun _ => (0, O))
                (fun _ => (0, O))) as ((H32 & _) & _).
    rewrite (H32 (Some "abc") (U32 7)). reflexivity.
  - rewrite (H64 None (U64 7)). reflexivity.
  - apply Hr64; reflexivity.
Defined.

(** ** Diagnostics lookup *)

Lemma nextResult_no_meta (q q' : Query.t) (r : Result.t) :
  Query.nextResult q = (q', Ok r) -> Result.metaReader r = None.
Proof.
  assert (Hnew : forall c c', Result.new c = (c', Ok r) -> Result.metaReader r = None).
  { intros c c'. unfold Result.new, mysql_store_result.
    destruct (my_current c); intros H; inversion H; reflexivity. }
  unfold Query.nextResult. destruct (Query.firstToRetrieve q).
  - destruct (Result.new _) as [c o] eqn:E. intros H; inversion H; subst.
    eapply Hnew, E.
  - destruct (mysql_more_results _); [| discriminate].
    destruct (mysql_next_result _) as [c status].
    destruct (status =? 0); [| discriminate].
    destruct (Result.new c) as [c' o] eqn:E. intros H; inversion H; subst.
    eapply Hnew, E.
Qed.

Lemma addMeta_some (r r' m : Result.t) :
  Result.addMeta r (Some m) = Ok r' -> is_Some (Result.metaReader r').
Proof.
  unfold Result.addMeta. destruct (Result.MetaReader.new m); simpl;
    intros H; inversion H; subst; simpl. now eexists.
Qed.

Lemma getMeta_throws_iff (r : Result.t) (variable : string) :
  throws (Result.getMeta r variable) = true <-> Result.metaReader r = None.
Proof.
  unfold Result.getMeta. destruct (Result.metaReader r); simpl; split;
    congruence.
Qed.

Lemma fill_from_meta_flags (entries : list (string * bool)) (q q' : Query.t)
    (results results' : list Result.t) :
  Response.fill_from entries q results = (q', results', Ok tt) ->
  exists rs, results' = (results ++ rs)%list
             /\ Forall2 (fun (e : string * bool) r =>
                           Result.metaReader r = None <-> e.2 = false)
                  entries rs.
Proof.
  revert q results.
  induction entries as [|[statement meta] rest IH]; intros q results; simpl.
  - intros H; inversion H; subst. exists []. split; [now rewrite app_nil_r |].
    constructor.
  - destruct (Query.nextResult q) as [q1 ores] eqn:E1.
    destruct ores as [res|e1|]; [| discriminate..].
    destruct meta.
    + destruct (Query.nextResult q1) as [q2 ometa] eqn:E2.
      destruct ometa as [m|e2|]; [| discriminate..].
      destruct (Result.addMeta res (Some m)) as [res'|e3|] eqn:E3;
        [| discriminate..].
      intros H. destruct (IH _ _ H) as (rs & -> & Hall).
      exists (res' :: rs). split; [now rewrite <- app_assoc |].
      constructor; [| exact Hall]. simpl.
      apply addMeta_some in E3 as [values Hv]. rewrite Hv. split; discriminate.
    + intros H. destruct (IH _ _ H) as (rs & -> & Hall).
      exists (res :: rs). split; [now rewrite <- app_assoc |].
      constructor; [| exact Hall]. simpl.
      split; [reflexivity |]. intros _. eapply nextResult_no_meta, E1.
Qed.

(** C5: getMeta throws (Exception "No SHOW META result.") exactly when the
    Result has no merged diagnostics map; with a map that lacks the key it
    returns the empty string; and among the Results a fill delivers, the ones
    without a map, on which getMeta throws for every key, are exactly those
    of the entries registered without diagnostics. *)
Theorem getMeta_fails_iff_not_flagged (r : Result.t) (variable : string)
    (q q' : Query.t) (results : list Result.t) :
  (Result.getMeta r variable = Throw (Exception "No SHOW META result.")
   <-> Result.metaReader r = None)
  /\ (throws (Result.getMeta r variable) = true <-> Result.metaReader r = None)
  /\ (forall values, Result.metaReader r = Some values ->
      values !! variable = None -> Result.getMeta r variable = Ok "")
  /\ (Response.fill q [] = (q', results, Ok tt) ->
      Forall2 (fun (e : string * bool) res =>
                 forall key, throws (Result.getMeta res key) = true <-> e.2 = false)
        (Query.queries q) results).
Proof.
  split; [| split; [apply getMeta_throws_iff | split]].
  - unfold Result.getMeta. destruct (Result.metaReader r); split; congruence.
  - intros values Hv Hnone. unfold Result.getMeta, Result.MetaReader.getValue.
    now rewrite Hv, Hnone.
  - intros Hfill. unfold Response.fill, Query.getQueries in Hfill.
    destruct (fill_from_meta_flags _ _ _ _ _ Hfill) as (rs & -> & Hall).
    simpl. eapply Forall2_impl; [exact Hall |].
    intros e res Hiff key. simpl in Hiff.
    rewrite getMeta_throws_iff. exact Hiff.
Qed.

(** ** Reading the SHOW META answer *)

Lemma getNextRow_some (r : Result.t) (row : Row.t) (arr : MYSQL_ROW) :
  res_rows (Result.result r) !! res_next (Result.result r) = Some arr ->
  Result.getNextRow r row
  = ({| Result.columnIndex := Result.columnIndex r;
        Result.metaReader := Result.metaReader r;
        Result.result :=
          {| res_fields := res_fields (Result.result r);
             res_rows := res_rows (Result.result r);
             res_next := S (res_next (Result.result r)) |};
        Result.fieldInfo := Result.fieldInfo r;
        Result.fields := Result.fields r |},
     {| Row.origin := true; Row.data := Some arr;
        Row.fields := Result.fields r; Row.fieldIter := 0 |},
     0 <? Result.fields r).
Proof. intros E. unfold Result.getNextRow, mysql_fetch_row. now rewrite E. Qed.

Lemma getNextRow_none (r : Result.t) (row : Row.t) :
  res_rows (Result.result r) !! res_next (Result.result r) = None ->
  (Result.getNextRow r row).2 = false.
Proof. intros E. unfold Result.getNextRow, mysql_fetch_row. now rewrite E. Qed.

Lemma read_string_cell (arr : MYSQL_ROW) (origin : bool) (fields i : Z)
    (value : string) :
  0 <= i < fields -> fields < 2 ^ 32 -> Z.of_nat (length arr) = fields ->
  Row.read {| Row.origin := origin; Row.data := Some arr; Row.fields := fields;
              Row.fieldIter := i |} value
  = ({| Row.origin := origin; Row.data := Some arr; Row.fields := fields;
        Row.fieldIter := i + 1 |},
     Ok (match arr !! Z.to_nat i with
         | Some (Some s) => s
         | _ => value
         end)).
Proof.
  intros Hi Hlt Hlen.
  set (r := {| Row.origin := origin; Row.data := Some arr; Row.fields := fields;
               Row.fieldIter := i |}).
  assert (Hb : Row_bounded r).
  { unfold Row_bounded; simpl. repeat split; try lia. right. now exists arr. }
  destruct (Row_read_inside r value Hb) as (cell & Hat & -> & _); [simpl; lia |].
  unfold Row.at_index in Hat. simpl in Hat.
  destruct (arr !! Z.to_nat i) as [c|]; [| discriminate].
  inversion Hat; subst. unfold Row_advanced; simpl.
  now destruct cell.
Qed.

Lemma read_rows_diagnostics (fuel : nat) (r : Result.t) (row : Row.t)
    (values : gmap string string) :
  well_formed (Result.result r) ->
  Result.fields r = Z.of_nat (length (res_fields (Result.result r))) ->
  (2 <= length (res_fields (Result.result r)))%nat ->
  Result.fields r < 2 ^ 32 ->
  (length (res_rows (Result.result r)) - res_next (Result.result r) < fuel)%nat ->
  Result.MetaReader.read_rows fuel r row values
  = Some (Ok (diagnostics_entries
                (drop (res_next (Result.result r)) (res_rows (Result.result r)))
                values)).
Proof.
  revert r row values.
  induction fuel as [|fuel IH]; intros r row values Hwf Hfields H2 Hlt Hfuel;
    [lia |].
  cbn [Result.MetaReader.read_rows].
  destruct (res_rows (Result.result r) !! res_next (Result.result r))
    as [arr|] eqn:E.
  - rewrite (getNextRow_some r row arr E).
    assert (Hpos : (0 <? Result.fields r) = true) by (apply Z.ltb_lt; lia).
    rewrite Hpos.
    assert (Hlen : Z.of_nat (length arr) = Result.fields r).
    { unfold well_formed in Hwf. rewrite Forall_lookup in Hwf.
      rewrite (Hwf _ _ E). now rewrite Hfields. }
    rewrite read_string_cell by lia.
    rewrite read_string_cell by lia.
    rewrite IH; simpl; try assumption.
    + rewrite (drop_S _ _ _ E).
      assert (Hk : forall k v : string,
                 (if negb (String.eqb k "")
                  then Result.MetaReader.emplace values k v else values)
                 = (if decide (k = "") then values
                    else Result.MetaReader.emplace values k v)).
      { intros k v. destruct (String.eqb_spec k ""); destruct (decide (k = ""));
          simpl; congruence. }
      rewrite Hk. reflexivity.
    + apply lookup_lt_Some in E. lia.
  - destruct (Result.getNextRow r row) as [[r1 row1] more] eqn:En.
    pose proof (getNextRow_none r row E) as Hmore. rewrite En in Hmore.
    simpl in Hmore. subst more.
    apply lookup_ge_None in E. now rewrite drop_ge.
Qed.

Lemma MetaReader_new_diagnostics (m : MYSQL_RES) :
  diagnostics_shaped m ->
  Result.MetaReader.new (fresh_result m) = Ok (diagnostics_map m).
Proof.
  intros (Hwf & Hnext & H2 & Hlt). unfold Result.MetaReader.new.
  rewrite read_rows_diagnostics; simpl; try assumption.
  - unfold diagnostics_map. now rewrite Hnext.
  - reflexivity.
  - unfold Result.MetaReader.remaining; simpl. lia.
Qed.

(** The fuel the constructor of MetaReader gives its loop is never used up. *)
Lemma MetaReader_fuel_enough (r : Result.t) :
  is_Some (Result.MetaReader.read_rows
             (S (Result.MetaReader.remaining r)) r Row.new ∅).
Proof.
  unfold Result.MetaReader.remaining.
  generalize Row.new, (∅ : gmap string string).
  remember (S (length (res_rows (Result.result r)) - res_next (Result.result r)))
    as fuel eqn:Hfuel.
  assert (Hle : (length (res_rows (Result.result r)) - res_next (Result.result r)
                 < fuel)%nat) by lia.
  clear Hfuel. revert r Hle.
  induction fuel as [|fuel IH]; intros r Hle row values; [lia |].
  cbn [Result.MetaReader.read_rows].
  destruct (res_rows (Result.result r) !! res_next (Result.result r))
    as [arr|] eqn:E.
  - rewrite (getNextRow_some r row arr E).
    destruct (0 <? Result.fields r); [| now eexists].
    destruct (Row.read _ "") as [row2 okey].
    destruct okey as [key'| |]; [| now eexists..].
    destruct (Row.read row2 "") as [row3 ovalue].
    destruct ovalue as [value'| |]; [| now eexists..].
    apply IH. simpl. apply lookup_lt_Some in E. lia.
  - destruct (Result.getNextRow r row) as [[r1 row1] more] eqn:En.
    pose proof (getNextRow_none r row E) as Hmore. rewrite En in Hmore.
    simpl in Hmore. subst more. now eexists.
Qed.

Lemma addMeta_merged (data m : MYSQL_RES) :
  diagnostics_shaped m ->
  Result.addMeta (fresh_result data) (Some (fresh_result m))
  = Ok (merged (data, Some m)).
Proof.
  intros Hm. unfold Result.addMeta. now rewrite MetaReader_new_diagnostics.
Qed.

(** ** Demultiplexing *)

(** One pull takes the head of what is upcoming, on the first call and on
    every later one. *)
Lemma nextResult_pull (q : Query.t) (rs : MYSQL_RES)
    (rest : list (Z * option MYSQL_RES)) :
  upcoming q = (0, Some rs) :: rest ->
  exists q', Query.nextResult q = (q', Ok (fresh_result rs))
             /\ upcoming q' = rest
             /\ Query.queries q' = Query.queries q
             /\ my_handle (Query.con q') = my_handle (Query.con q).
Proof.
  unfold upcoming, Query.nextResult.
  destruct (Query.firstToRetrieve q) eqn:Hfirst.
  - intros H. inversion H as [[Hcur Hpend]].
    rewrite (Result_new_stored _ rs) by exact Hcur.
    eexists. split; [reflexivity |]. simpl. auto.
  - intros Hpend. unfold mysql_more_results, mysql_next_result.
    rewrite Hpend. simpl.
    eexists. split; [reflexivity |]. simpl. rewrite Hfirst. auto.
Qed.

Lemma fill_from_demultiplex (entries : list (string * bool)) :
  forall (sets : list MYSQL_RES) (pairs : list (MYSQL_RES * option MYSQL_RES))
         (q : Query.t) (results : list Result.t)
         (rest : list (Z * option MYSQL_RES)),
    demultiplex entries sets = Some pairs ->
    Forall (fun pair : MYSQL_RES * option MYSQL_RES =>
              forall m, pair.2 = Some m -> diagnostics_shaped m) pairs ->
    upcoming q = (delivered sets ++ rest)%list ->
    exists q', Response.fill_from entries q results
               = (q', (results ++ map merged pairs)%list, Ok tt)
               /\ upcoming q' = rest
               /\ Query.queries q' = Query.queries q
               /\ my_handle (Query.con q') = my_handle (Query.con q).
Proof.
  induction entries as [|[statement meta] entries' IH];
    intros sets pairs q results rest Hdemux Hshape Hup.
  - destruct sets; [| discriminate]. inversion Hdemux; subst.
    exists q. simpl. now rewrite app_nil_r.
  - destruct meta.
    + destruct sets as [|data [|diagnostics sets']]; try discriminate.
      simpl in Hdemux.
      destruct (demultiplex entries' sets') as [pairs'|] eqn:Hd; [| discriminate].
      inversion Hdemux; subst. inversion Hshape as [|? ? Hm Hshape']; subst.
      simpl in Hup.
      destruct (nextResult_pull q data _ Hup) as (q1 & E1 & Hup1 & Hq1 & Hh1).
      destruct (nextResult_pull q1 diagnostics _ Hup1) as (q2 & E2 & Hup2 & Hq2 & Hh2).
      destruct (IH sets' pairs' q2 (results ++ [merged (data, Some diagnostics)])%list
                  rest Hd Hshape' Hup2) as (q' & Ef & Hup' & Hq' & Hh').
      exists q'. cbn [Response.fill_from]. rewrite E1. cbn [snd]. rewrite E2.
      rewrite addMeta_merged by (apply Hm; reflexivity).
      rewrite Ef. rewrite <- app_assoc. simpl.
      repeat split; congruence.
    + destruct sets as [|data sets']; try discriminate.
      simpl in Hdemux.
      destruct (demultiplex entries' sets') as [pairs'|] eqn:Hd; [| discriminate].
      inversion Hdemux; subst. inversion Hshape as [|? ? Hm Hshape']; subst.
      simpl in Hup.
      destruct (nextResult_pull q data _ Hup) as (q1 & E1 & Hup1 & Hq1 & Hh1).
      destruct (IH sets' pairs' q1 (results ++ [merged (data, None)])%list
                  rest Hd Hshape' Hup1) as (q' & Ef & Hup' & Hq' & Hh').
      exists q'. cbn [Response.fill_from]. rewrite E1. cbn [snd].
      change (fresh_result data) with (merged (data, None)).
      rewrite Ef. rewrite <- app_assoc. simpl.
      repeat split; congruence.
Qed.

Lemma fill_all_demultiplex (rounds : list Round) :
  forall results : list Result.t,
    Forall serves rounds ->
    exists queries',
      Response.fill_all (map round_query rounds) results
      = (queries',
         (results ++ map merged (concat (map round_pairs rounds)))%list,
         Ok tt)
      /\ map (fun q => my_handle (Query.con q)) queries'
         = map (fun q => my_handle (Query.con q)) (map round_query rounds).
Proof.
  induction rounds as [|[[q sets] pairs] rounds IH]; intros results Hall.
  - exists []. simpl. now rewrite app_nil_r.
  - inversion Hall as [|? ? Hserves Hall']; subst.
    destruct Hserves as ((rest & Hup) & Hdemux & Hshape).
    destruct (fill_from_demultiplex _ _ _ q results rest Hdemux Hshape Hup)
      as (q' & Ef & _ & _ & Hh).
    destruct (IH (results ++ map merged pairs)%list Hall') as (queries' & Ea & Hhs).
    exists (q' :: queries'). cbn [map Response.fill_all].
    change (round_query (q, sets, pairs)) with q.
    change (round_pairs (q, sets, pairs)) with pairs.
    unfold Response.fill, Query.getQueries. rewrite Ef, Ea.
    split; [| simpl; now rewrite Hh, Hhs].
    simpl. now rewrite map_app, app_assoc.
Qed.

Lemma demultiplex_length (entries : list (string * bool)) :
  forall sets pairs,
    demultiplex entries sets = Some pairs ->
    Forall2 (fun (e : string * bool) (pair : MYSQL_RES * option MYSQL_RES) =>
               is_Some pair.2 <-> e.2 = true) entries pairs.
Proof.
  induction entries as [|[statement meta] entries' IH]; intros sets pairs Hd.
  - destruct sets; [| discriminate]. inversion Hd. constructor.
  - destruct meta.
    + destruct sets as [|data [|diagnostics sets']]; try discriminate.
      simpl in Hd.
      destruct (demultiplex entries' sets') as [pairs'|] eqn:Hd'; [| discriminate].
      inversion Hd; subst. constructor; [| eapply IH, Hd'].
      simpl. split; [reflexivity | now eexists].
    + destruct sets as [|data sets']; try discriminate.
      simpl in Hd.
      destruct (demultiplex entries' sets') as [pairs'|] eqn:Hd'; [| discriminate].
      inversion Hd; subst. constructor; [| eapply IH, Hd'].
      simpl. split; [intros [? ?]; discriminate | discriminate].
Qed.

(** Entry [i] gets the result set at its position in the reply, and its
    diagnostics, when it wants them, are the result set right after. *)
Lemma demultiplex_position (entries : list (string * bool)) :
  forall (sets : list MYSQL_RES) (pairs : list (MYSQL_RES * option MYSQL_RES))
         (i : nat) (e : string * bool),
    demultiplex entries sets = Some pairs ->
    entries !! i = Some e ->
    exists data, sets !! position entries i = Some data
                 /\ pairs !! i
                    = Some (data, if e.2 then sets !! S (position entries i)
                                  else None)
                 /\ (e.2 = true -> is_Some (sets !! S (position entries i))).
Proof.
  unfold position.
  induction entries as [|[statement meta] entries' IH]; intros sets pairs i e Hd He.
  - now rewrite lookup_nil in He.
  - destruct meta.
    + destruct sets as [|data [|diagnostics sets']]; try discriminate.
      simpl in Hd.
      destruct (demultiplex entries' sets') as [pairs'|] eqn:Hd'; [| discriminate].
      inversion Hd; subst. destruct i as [|i]; simpl in He.
      * inversion He; subst. exists data. simpl. repeat split. now eexists.
      * destruct (IH sets' pairs' i e Hd' He) as (d & Hs & Hp & Hm).
        exists d. cbn [take]. rewrite filter_cons_True by reflexivity.
        cbn [length]. rewrite Nat.add_succ_r. cbn [lookup list_lookup].
        simpl. repeat split; assumption.
    + destruct sets as [|data sets']; try discriminate.
      simpl in Hd.
      destruct (demultiplex entries' sets') as [pairs'|] eqn:Hd'; [| discriminate].
      inversion Hd; subst. destruct i as [|i]; simpl in He.
      * inversion He; subst. exists data. simpl. repeat split. discriminate.
      * destruct (IH sets' pairs' i e Hd' He) as (d & Hs & Hp & Hm).
        exists d. cbn [take]. rewrite filter_cons_False by (simpl; discriminate).
        simpl. repeat split; assumption.
Qed.

Lemma take_next_all (results : list Result.t) :
  Response.take_next (S (length results)) {| Response.results := results |}
  = (map Some results ++ [None])%list.
Proof.
  induction results as [|res rest IH]; [reflexivity |].
  cbn [length]. change (Response.take_next (S (S (length rest)))
                          {| Response.results := res :: rest |})
    with (Some res :: Response.take_next (S (length rest))
                        {| Response.results := rest |}).
  now rewrite IH.
Qed.

Lemma show_meta_shaped : diagnostics_shaped show_meta.
Proof.
  unfold diagnostics_shaped, well_formed.
  split; [repeat constructor | split; [reflexivity | simpl; lia]].
Qed.

Lemma async_test_rounds_served : Forall serves async_test_rounds.
Proof.
  unfold async_test_rounds. constructor; [| constructor; [| constructor]].
  - split; [exists []; reflexivity | split; [reflexivity |]].
    constructor; [| constructor]. simpl. intros m' Hm. simplify_eq.
    apply show_meta_shaped.
  - split; [exists []; reflexivity | split; [reflexivity |]].
    constructor; [| constructor]. simpl. intros m' Hm. discriminate.
Qed.

(** C1: when the reply of every connection of a round starts with the result
    sets its batch demultiplexes over, building the Response succeeds and its
    queue holds exactly one Result per registered entry, connection after
    connection and entry after entry; the Result of entry i of a connection
    is made of the result set at i's position in that connection's reply,
    with the result set right after it merged in as its diagnostics map when
    and only when the entry wants diagnostics; next() hands these Results
    out in that order and then a null pointer.  The same holds of the
    Response a synchronous execute builds from one connection. *)
Theorem next_yields_results_in_registration_order (rounds : list Round) :
  Forall serves rounds ->
  let queries := map round_query rounds in
  let entries := concat (map Query.queries queries) in
  let pairs := concat (map round_pairs rounds) in
  (exists queries',
     Response.of_queries queries
     = (queries', Ok {| Response.results := map merged pairs |}))
  /\ Forall2 (fun (e : string * bool) (pair : MYSQL_RES * option MYSQL_RES) =>
                is_Some pair.2 <-> e.2 = true) entries pairs
  /\ Response.take_next (S (length entries))
       {| Response.results := map merged pairs |}
     = (map Some (map merged pairs) ++ [None])%list
  /\ Forall (fun round : Round =>
               (exists q', Response.of_query (round_query round)
                           = (q', Ok {| Response.results :=
                                          map merged (round_pairs round) |}))
               /\ forall (i : nat) (e : string * bool),
                    Query.queries (round_query round) !! i = Some e ->
                    exists data,
                      round.1.2 !! position (Query.queries (round_query round)) i
                      = Some data
                      /\ round_pairs round !! i
                         = Some (data,
                                 if e.2
                                 then round.1.2 !! S (position (Query.queries
                                                                 (round_query round)) i)
                                 else None))
       rounds.
Proof.
  intros Hall queries entries pairs.
  assert (Hflags : Forall2 (fun (e : string * bool)
                                (pair : MYSQL_RES * option MYSQL_RES) =>
                              is_Some pair.2 <-> e.2 = true) entries pairs).
  { subst queries entries pairs. clear -Hall.
    induction Hall as [|[[q sets] ps] rounds' Hs _ IH]; [constructor |].
    simpl. apply Forall2_app; [| exact IH].
    destruct Hs as (_ & Hd & _). eapply demultiplex_length, Hd. }
  split; [| split; [exact Hflags | split]].
  - destruct (fill_all_demultiplex rounds [] Hall) as (queries' & E & _).
    exists queries'. unfold Response.of_queries. subst queries. now rewrite E.
  - rewrite (Forall2_length _ _ _ Hflags), <- (length_map merged).
    apply take_next_all.
  - eapply Forall_impl; [exact Hall |].
    intros [[q sets] ps] ((rest & Hup) & Hd & Hshape). split.
    + destruct (fill_from_demultiplex _ _ _ q [] rest Hd Hshape Hup)
        as (q' & E & _).
      exists q'. unfold Response.of_query, Response.fill, Query.getQueries.
      change (round_query (q, sets, ps)) with q. now rewrite E.
    + intros i e He.
      destruct (demultiplex_position _ _ _ i e Hd He) as (data & Hs & Hp & _).
      exists data. split; assumption.
Qed.

Lemma next_yields_results_in_registration_order_witness :
  (exists queries',
     Response.of_queries (map round_query async_test_rounds)
     = (queries',
        Ok {| Response.results :=
                [merged (idx_test, Some show_meta); merged (idx_test, None)] |}))
  /\ Response.take_next 3
       {| Response.results :=
            [merged (idx_test, Some show_meta); merged (idx_test, None)] |}
     = [Some (merged (idx_test, Some show_meta)); Some (merged (idx_test, None));
        None].
Proof.
  destruct (next_yields_results_in_registration_order async_test_rounds
              async_test_rounds_served) as (Hresp & _ & Hnext & _).
  split; [exact Hresp | exact Hnext].
Defined.

Lemma getMeta_fails_iff_not_flagged_witness :
  let q := answered_query 0 (Query.queries meta_test_query)
             [idx_test; show_meta; idx_test] in
  Forall2 (fun (e : string * bool) res =>
             forall key, throws (Result.getMeta res key) = true <-> e.2 = false)
    (Query.queries q) (Response.fill q []).1.2
  /\ Result.getMeta (merged (idx_test, Some show_meta)) "unknown meta field" = Ok "".
Proof.
  intros q. split.
  - destruct (getMeta_fails_iff_not_flagged (fresh_result idx_test) "time" q
                (Response.fill q []).1.1 (Response.fill q []).1.2)
      as (_ & _ & _ & H).
    apply H. vm_compute. reflexivity.
  - destruct (getMeta_fails_iff_not_flagged (merged (idx_test, Some show_meta))
                "unknown meta field" q q []) as (_ & _ & H & _).
    apply (H (diagnostics_map show_meta)); [reflexivity |].
    vm_compute. reflexivity.
Defined.

(** ** The pool and the round *)

Lemma pop_all_nil (connections : list Query.t) : AsyncQuery.pop_all connections = [].
Proof. induction connections as [|q rest IH]; [reflexivity | exact IH]. Qed.

Lemma push_cleared (queries connections : list Query.t) :
  fold_left (fun (conns : list Query.t) query => (conns ++ [Query.clear query])%list)
    queries connections
  = (connections ++ map Query.clear queries)%list.
Proof.
  revert connections. induction queries as [|q rest IH]; intros connections; simpl.
  - now rewrite app_nil_r.
  - rewrite IH, <- app_assoc. reflexivity.
Qed.

Lemma for_each_handles (step : Query.t -> Query.t * outcome unit)
    (queries : list Query.t) :
  (forall q, handle_of (step q).1 = handle_of q) ->
  map handle_of (AsyncQuery.for_each step queries).1 = map handle_of queries.
Proof.
  intros Hstep. induction queries as [|q rest IH]; [reflexivity |]. simpl.
  specialize (Hstep q). destruct (step q) as [q' o]. simpl in Hstep.
  destruct o as [[]|e|]; simpl; [| now rewrite Hstep..].
  destruct (AsyncQuery.for_each step rest) as [rest' o']. simpl in *.
  now rewrite Hstep, IH.
Qed.

Lemma asyncExecute_handle (d : Daemon) (q : Query.t) :
  handle_of (Query.asyncExecute d q).1 = handle_of q.
Proof.
  unfold Query.asyncExecute, mysql_send_query, handle_of. simpl.
  destruct (dm_send d (Query.con q) _) as [status e].
  now destruct (negb (status =? 0)).
Qed.

Lemma waitForAsyncResult_handle (d : Daemon) (q : Query.t) :
  handle_of (Query.waitForAsyncResult d q).1 = handle_of q.
Proof.
  unfold Query.waitForAsyncResult, mysql_read_query_result, handle_of. simpl.
  now destruct (negb (rp_status (dm_read d (Query.con q)) =? 0)).
Qed.

Lemma send_then_wait_handles (d : Daemon) (queries : list Query.t) :
  map handle_of (AsyncQuery.send_then_wait d queries).1 = map handle_of queries.
Proof.
  unfold AsyncQuery.send_then_wait.
  pose proof (for_each_handles (Query.asyncExecute d) queries
                (asyncExecute_handle d)) as Hsend.
  destruct (AsyncQuery.for_each (Query.asyncExecute d) queries) as [sent osend].
  simpl in Hsend. destruct osend as [[]|e|]; [| exact Hsend..].
  rewrite <- Hsend. apply for_each_handles, waitForAsyncResult_handle.
Qed.

Lemma Result_new_handle (c : MYSQL) :
  my_handle (Result.new c).1 = my_handle c.
Proof.
  unfold Result.new, mysql_store_result. now destruct (my_current c).
Qed.

Lemma nextResult_handle (q : Query.t) :
  handle_of (Query.nextResult q).1 = handle_of q.
Proof.
  unfold Query.nextResult, handle_of.
  destruct (Query.firstToRetrieve q).
  - pose proof (Result_new_handle (Query.con (Query.set_firstToRetrieve q false))) as H.
    destruct (Result.new _) as [c o]. exact H.
  - unfold mysql_more_results, mysql_next_result.
    destruct (my_pending (Query.con q)) as [|[status r] rest]; [reflexivity |].
    destruct (status =? 0); [| reflexivity].
    match goal with |- context [Result.new ?c] =>
      pose proof (Result_new_handle c) as H; destruct (Result.new c) as [c' o]
    end.
    exact H.
Qed.

Lemma fill_from_handle (entries : list (string * bool)) (q : Query.t)
    (results : list Result.t) :
  handle_of (Response.fill_from entries q results).1.1 = handle_of q.
Proof.
  revert q results. induction entries as [|[statement meta] rest IH];
    intros q results; [reflexivity |].
  cbn [Response.fill_from].
  pose proof (nextResult_handle q) as H1.
  destruct (Query.nextResult q) as [q1 ores]. simpl in H1.
  destruct ores as [res|e|]; [| exact H1..].
  cbn [snd]. destruct meta; [| now rewrite IH].
  pose proof (nextResult_handle q1) as H2.
  destruct (Query.nextResult q1) as [q2 ometa]. simpl in H2.
  destruct ometa as [m|e|]; [| simpl; congruence..].
  destruct (Result.addMeta res (Some m)); [rewrite IH | simpl..]; congruence.
Qed.

Lemma fill_all_handles (queries : list Query.t) (results : list Result.t) :
  map handle_of (Response.fill_all queries results).1.1 = map handle_of queries.
Proof.
  revert results. induction queries as [|q rest IH]; intros results;
    [reflexivity |].
  cbn [Response.fill_all]. unfold Response.fill, Query.getQueries.
  pose proof (fill_from_handle (Query.queries q) q results) as Hq.
  destruct (Response.fill_from (Query.queries q) q results) as [[q' results'] o].
  simpl in Hq. destruct o as [[]|e|]; [| simpl; now rewrite Hq..].
  specialize (IH results').
  destruct (Response.fill_all rest results') as [[rest' results''] o'].
  simpl in *. now rewrite Hq, IH.
Qed.

Lemma of_queries_handles (queries : list Query.t) :
  map handle_of (Response.of_queries queries).1 = map handle_of queries.
Proof.
  unfold Response.of_queries.
  pose proof (fill_all_handles queries []) as H.
  destruct (Response.fill_all queries []) as [[queries' results] o]. exact H.
Qed.

Lemma clear_cleared (q : Query.t) : cleared (Query.clear q).
Proof. split; reflexivity. Qed.

Lemma clear_handles (queries : list Query.t) :
  map handle_of (map Query.clear queries) = map handle_of queries.
Proof. rewrite map_map. reflexivity. Qed.

(** [launch], with its loops over the pool and the scope-end action resolved. *)
Lemma launch_unfold (d : Daemon) (a : AsyncQuery.t) :
  AsyncQuery.launch d a
  = let '(waited, otry) := AsyncQuery.send_then_wait d (AsyncQuery.queries a) in
    match otry with
    | Ok _ =>
        let '(filled, oresp) := Response.of_queries waited in
        match oresp with
        | Undefined => (AsyncQuery.set_pool a [] filled, Undefined)
        | _ => (AsyncQuery.set_pool a (map Query.clear filled) [], oresp)
        end
    | Throw e => (AsyncQuery.set_pool a [] [], Throw e)
    | Undefined => (AsyncQuery.set_pool a [] waited, Undefined)
    end.
Proof.
  unfold AsyncQuery.launch. rewrite pop_all_nil. simpl.
  destruct (AsyncQuery.send_then_wait d (AsyncQuery.queries a)) as [waited otry].
  destruct otry as [[]|e|]; try reflexivity.
  destruct (Response.of_queries waited) as [filled oresp].
  unfold AsyncQuery.finalCleanup. simpl. rewrite push_cleared. simpl.
  destruct oresp; reflexivity.
Qed.

Lemma add_idle (d : Daemon) (handles : nat) (a : AsyncQuery.t)
    (worker : Query.t) (rest : list Query.t) (query : string) (meta : bool) :
  AsyncQuery.connections a = worker :: rest ->
  AsyncQuery.add d handles a query meta
  = (handles,
     AsyncQuery.set_pool a rest
       (AsyncQuery.queries a ++ [Query.addQuery worker query meta]),
     Ok tt).
Proof. intros H. unfold AsyncQuery.add. now rewrite H. Qed.

Lemma add_creates (d : Daemon) (handles : nat) (a : AsyncQuery.t)
    (query : string) (meta : bool) :
  AsyncQuery.connections a = [] ->
  dm_init d handles = true ->
  dm_connect d (created_handle handles (AsyncQuery.cfg a)) (pool_target a) = None ->
  AsyncQuery.add d handles a query meta
  = (S handles,
     AsyncQuery.set_pool a []
       (AsyncQuery.queries a ++ [created_worker handles a query meta]),
     Ok tt).
Proof.
  intros Hempty Hinit Hconnect.
  unfold AsyncQuery.add. rewrite Hempty.
  assert (Hnew : (match AsyncQuery.cfg a with
                  | Some c => Query.new_cfg d handles c
                  | None => Query.new d handles
                  end)
                 = (S handles,
                    Ok {| Query.con := created_handle handles (AsyncQuery.cfg a);
                          Query.connected := false; Query.firstToRetrieve := true;
                          Query.queries := [] |})).
  { unfold Query.new_cfg, Query.new, mysql_init. rewrite Hinit.
    destruct (AsyncQuery.cfg a) as [c|]; [| reflexivity].
    unfold created_handle, config_options. simpl.
    unfold Query.setConfigOptions, Query.set_con, mysql_options. simpl.
    now destruct (optProtocol c =? 0). }
  rewrite Hnew.
  assert (Hconn : (if negb (AsyncQuery.port a =? 0)
                   then Query.connect d
                          {| Query.con := created_handle handles (AsyncQuery.cfg a);
                             Query.connected := false;
                             Query.firstToRetrieve := true; Query.queries := [] |}
                          (AsyncQuery.host a) (AsyncQuery.port a)
                   else Query.connect d
                          {| Query.con := created_handle handles (AsyncQuery.cfg a);
                             Query.connected := false;
                             Query.firstToRetrieve := true; Query.queries := [] |}
                          (AsyncQuery.host a) 0)
                  = ({| Query.con :=
                          {| my_handle := handles;
                             my_options := config_options (AsyncQuery.cfg a);
                             my_peer := Some (pool_target a);
                             my_request := ""; my_current := None;
                             my_pending := []; my_error := "" |};
                        Query.connected := true; Query.firstToRetrieve := true;
                        Query.queries := [] |}, Ok tt)).
  { unfold pool_target in *. unfold Query.connect, mysql_real_connect.
    destruct (AsyncQuery.port a =? 0) eqn:E0; simpl.
    - apply Z.eqb_eq in E0. rewrite E0 in *. simpl in *. now rewrite Hconnect.
    - destruct (0 <? AsyncQuery.port a); now rewrite Hconnect. }
  rewrite Hconn. reflexivity.
Qed.

Lemma add_all_idle (d : Daemon) (handles : nat) (statements : list (string * bool)) :
  forall a : AsyncQuery.t,
    (length statements <= length (AsyncQuery.connections a))%nat ->
    exists queries',
      AsyncQuery.add_all d handles a statements
      = (handles,
         AsyncQuery.set_pool a
           (drop (length statements) (AsyncQuery.connections a)) queries',
         Ok tt)
      /\ map handle_of queries'
         = (map handle_of (AsyncQuery.queries a)
            ++ map handle_of (take (length statements) (AsyncQuery.connections a)))%list
      /\ length queries'
         = (length (AsyncQuery.queries a) + length statements)%nat.
Proof.
  induction statements as [|[query meta] rest IH]; intros a Hlen.
  - exists (AsyncQuery.queries a). simpl. rewrite app_nil_r, Nat.add_0_r.
    destruct a; repeat split.
  - destruct (AsyncQuery.connections a) as [|worker idle] eqn:Hconns;
      [simpl in Hlen; lia |].
    cbn [AsyncQuery.add_all]. rewrite (add_idle d handles a worker idle) by exact Hconns.
    destruct (IH (AsyncQuery.set_pool a idle
                    (AsyncQuery.queries a ++ [Query.addQuery worker query meta])))
      as (queries' & -> & Hhandles & Hlen').
    { simpl in *. lia. }
    exists queries'. simpl in *. split; [reflexivity |]. split.
    + rewrite Hhandles, map_app, <- app_assoc. reflexivity.
    + rewrite Hlen', length_app. simpl. lia.
Qed.

Lemma launch_success (d : Daemon) (a a' : AsyncQuery.t) (resp : Response.t) :
  AsyncQuery.launch d a = (a', Ok resp) ->
  AsyncQuery.queries a' = []
  /\ Forall cleared (AsyncQuery.connections a')
  /\ map handle_of (AsyncQuery.connections a') = map handle_of (AsyncQuery.queries a).
Proof.
  rewrite launch_unfold.
  pose proof (send_then_wait_handles d (AsyncQuery.queries a)) as Hw.
  destruct (AsyncQuery.send_then_wait d (AsyncQuery.queries a)) as [waited otry].
  destruct otry as [[]|e|]; [| discriminate..].
  pose proof (of_queries_handles waited) as Hf.
  destruct (Response.of_queries waited) as [filled oresp].
  destruct oresp as [r|e|]; [| discriminate..].
  intros H; inversion H; subst. simpl in *. split; [reflexivity |]. split.
  - apply Forall_forall. intros q Hq. apply list_elem_of_fmap in Hq as (q0 & -> & _).
    apply clear_cleared.
  - rewrite clear_handles. congruence.
Qed.

(** C7: adding a statement takes the connection at the front of the pool when
    there is one and creates none; with an empty pool it creates exactly one
    connection, with the pool's configuration and connected to the pool's
    target; after a successful round the pool holds the round's connections,
    each with its batch cleared.  So with k idle connections, k adds create
    nothing, a round and a clear leave the same k connections idle, and one
    more add before the round creates exactly one connection. *)
Theorem pool_draws_idle_connections_first (d : Daemon) (handles : nat)
    (a : AsyncQuery.t) (query : string) (meta : bool)
    (statements : list (string * bool)) :
  (forall worker rest, AsyncQuery.connections a = worker :: rest ->
     AsyncQuery.add d handles a query meta
     = (handles,
        AsyncQuery.set_pool a rest
          (AsyncQuery.queries a ++ [Query.addQuery worker query meta]),
        Ok tt))
  /\ (AsyncQuery.connections a = [] ->
      dm_init d handles = true ->
      dm_connect d (created_handle handles (AsyncQuery.cfg a)) (pool_target a)
      = None ->
      AsyncQuery.add d handles a query meta
      = (S handles,
         AsyncQuery.set_pool a []
           (AsyncQuery.queries a ++ [created_worker handles a query meta]),
         Ok tt))
  /\ (forall a' resp, AsyncQuery.launch d a = (a', Ok resp) ->
      AsyncQuery.queries a' = []
      /\ Forall cleared (AsyncQuery.connections a')
      /\ map handle_of (AsyncQuery.connections a')
         = map handle_of (AsyncQuery.queries a))
  /\ (AsyncQuery.queries a = [] ->
      length statements = length (AsyncQuery.connections a) ->
      exists a1,
        AsyncQuery.add_all d handles a statements = (handles, a1, Ok tt)
        /\ AsyncQuery.connections a1 = []
        /\ map handle_of (AsyncQuery.queries a1)
           = map handle_of (AsyncQuery.connections a)
        /\ (forall a2 resp, AsyncQuery.launch d a1 = (a2, Ok resp) ->
            AsyncQuery.queries (AsyncQuery.clear a2) = []
            /\ Forall cleared (AsyncQuery.connections (AsyncQuery.clear a2))
            /\ map handle_of (AsyncQuery.connections (AsyncQuery.clear a2))
               = map handle_of (AsyncQuery.connections a))
        /\ (dm_init d handles = true ->
            dm_connect d (created_handle handles (AsyncQuery.cfg a)) (pool_target a)
            = None ->
            exists a1',
              AsyncQuery.add d handles a1 query meta = (S handles, a1', Ok tt)
              /\ length (AsyncQuery.queries a1')
                 = S (length (AsyncQuery.connections a)))).
Proof.
  split; [| split; [| split]].
  - intros worker rest. apply add_idle.
  - apply add_creates.
  - intros a' resp. apply launch_success.
  - intros Hnone Hlen.
    destruct (add_all_idle d handles statements a) as (queries' & E & Hh & Hl);
      [lia |].
    rewrite Hnone, Hlen, firstn_all in Hh. rewrite Hnone, Hlen in Hl.
    simpl in Hh, Hl.
    rewrite Hlen, drop_all in E.
    eexists. split; [exact E |]. simpl. split; [reflexivity |].
    split; [exact Hh |]. split.
    + intros a2 resp Hlaunch.
      destruct (launch_success _ _ _ _ Hlaunch) as (Hq & Hc & Hhs).
      unfold AsyncQuery.clear. simpl. rewrite Hq. simpl.
      split; [reflexivity |]. split; [exact Hc |]. simpl in Hhs. congruence.
    + intros Hinit Hconnect.
      eexists. split.
      * apply add_creates; [reflexivity | exact Hinit | exact Hconnect].
      * simpl. rewrite length_app, Hl. simpl. lia.
Qed.

Lemma pool_draws_idle_connections_first_witness :
  let d := answering 0 [idx_test] in
  exists a1,
    AsyncQuery.add_all d 2 idle_pool [("a;", false); ("b;", false)] = (2%nat, a1, Ok tt)
    /\ AsyncQuery.connections a1 = []
    /\ map handle_of (AsyncQuery.queries a1) = [0%nat; 1%nat]
    /\ map handle_of
         (AsyncQuery.connections (AsyncQuery.clear (AsyncQuery.launch d a1).1))
       = [0%nat; 1%nat]
    /\ (AsyncQuery.add d 2 a1 "c;" false).1.1 = 3%nat.
Proof.
  intros d.
  destruct (pool_draws_idle_connections_first d 2 idle_pool "c;" false
              [("a;", false); ("b;", false)]) as (_ & _ & _ & H).
  destruct (H eq_refl eq_refl) as (a1 & Eadd & Hconns & Hh & Hround & Hnew).
  exists a1. split; [exact Eadd |]. split; [exact Hconns |]. split; [exact Hh |].
  split.
  - assert (Ea1 : a1 = (AsyncQuery.add_all d 2 idle_pool
                          [("a;", false); ("b;", false)]).1.2)
      by now rewrite Eadd.
    destruct (AsyncQuery.launch d a1) as [a2 o] eqn:El.
    assert (Hok : returns o = true).
    { rewrite Ea1 in El. vm_compute in El. inversion El. reflexivity. }
    destruct o as [resp| |]; try discriminate.
    destruct (Hround a2 resp eq_refl) as (_ & _ & Hhs). exact Hhs.
  - destruct (Hnew eq_refl eq_refl) as (a1' & E & _). now rewrite E.
Defined.

(** ** A failed round *)

Lemma lonely_round_fails :
  AsyncQuery.launch (answering 0 [idx_test]) lonely_pool
  = ((AsyncQuery.launch (answering 0 [idx_test]) lonely_pool).1,
     Throw (Exception "No result returned")).
Proof. reflexivity. Qed.

(** C2 as stated fails: a round whose send and wait succeed and whose
    demultiplexing throws, here because the reply lacks the diagnostics
    result set the entry asked for, ends with its connection back in the
    pool. *)
Lemma demux_failure_returns_connection_to_pool :
  (AsyncQuery.launch (answering 0 [idx_test]) lonely_pool).2
  = Throw (Exception "No result returned")
  /\ map handle_of
       (AsyncQuery.connections
          (AsyncQuery.launch (answering 0 [idx_test]) lonely_pool).1)
     = [0%nat]
  /\ ~ aborts_atomically (answering 0 [idx_test]) lonely_pool.
Proof.
  split; [reflexivity |]. split; [reflexivity |].
  intros Habort.
  destruct (Habort _ _ lonely_round_fails) as (Hconns & _). discriminate.
Qed.

(** What the scope-end action does when building the Response throws. *)
Lemma launch_demux_failure (d : Daemon) (a : AsyncQuery.t)
    (waited filled : list Query.t) (e : exn) :
  AsyncQuery.send_then_wait d (AsyncQuery.queries a) = (waited, Ok tt) ->
  Response.of_queries waited = (filled, Throw e) ->
  AsyncQuery.launch d a
  = (AsyncQuery.set_pool a (map Query.clear filled) [], Throw e)
  /\ map handle_of filled = map handle_of (AsyncQuery.queries a).
Proof.
  intros Hw Hf. rewrite launch_unfold, Hw, Hf. split; [reflexivity |].
  pose proof (of_queries_handles waited) as H1. rewrite Hf in H1.
  pose proof (send_then_wait_handles d (AsyncQuery.queries a)) as H2.
  rewrite Hw in H2. simpl in *. congruence.
Qed.

(** C2, amended: a round that fails in whatever phase hands the error of
    that phase to the caller and no Response, and leaves no connection in
    flight; when it is sending or waiting that fails, no connection of the
    round is in the pool afterwards either: all are discarded. *)
Theorem failed_round_propagates_and_delivers_nothing (d : Daemon)
    (a : AsyncQuery.t) :
  (forall e, (AsyncQuery.send_then_wait d (AsyncQuery.queries a)).2 = Throw e ->
     AsyncQuery.launch d a = (AsyncQuery.set_pool a [] [], Throw e))
  /\ (forall waited e,
        AsyncQuery.send_then_wait d (AsyncQuery.queries a) = (waited, Ok tt) ->
        (Response.of_queries waited).2 = Throw e ->
        (AsyncQuery.launch d a).2 = Throw e
        /\ AsyncQuery.queries (AsyncQuery.launch d a).1 = [])
  /\ (forall a' e, AsyncQuery.launch d a = (a', Throw e) ->
        AsyncQuery.queries a' = []
        /\ ((AsyncQuery.send_then_wait d (AsyncQuery.queries a)).2 = Throw e
            \/ exists waited,
                AsyncQuery.send_then_wait d (AsyncQuery.queries a) = (waited, Ok tt)
                /\ (Response.of_queries waited).2 = Throw e)).
Proof.
  split; [| split].
  - intros e He. rewrite launch_unfold.
    destruct (AsyncQuery.send_then_wait d (AsyncQuery.queries a)) as [waited otry].
    simpl in He. now subst otry.
  - intros waited e Hw Hf.
    destruct (Response.of_queries waited) as [filled oresp] eqn:Ef.
    simpl in Hf. subst oresp.
    destruct (launch_demux_failure d a waited filled e Hw Ef) as (-> & _).
    split; reflexivity.
  - intros a' e. rewrite launch_unfold.
    destruct (AsyncQuery.send_then_wait d (AsyncQuery.queries a))
      as [waited otry] eqn:Hw.
    destruct otry as [[]|e'|]; [| | discriminate].
    + destruct (Response.of_queries waited) as [filled oresp] eqn:Hf.
      destruct oresp as [r|e''|]; [discriminate | | discriminate].
      intros H; inversion H; subst. simpl. split; [reflexivity |].
      right. exists waited. rewrite Hf. split; reflexivity.
    + intros H; inversion H; subst. simpl. split; [reflexivity |].
      left. reflexivity.
Qed.

Lemma failed_round_propagates_and_delivers_nothing_witness :
  (AsyncQuery.launch (answering 0 [idx_test]) lonely_pool).2
  = Throw (Exception "No result returned")
  /\ AsyncQuery.launch
       {| dm_init := fun _ => true; dm_init_error := "";
          dm_connect := fun _ _ => None;
          dm_query := fun _ _ => mk_reply 0 "" None [];
          dm_send := fun _ _ => (0, "");
          dm_read := fun _ => mk_reply 2013 "Lost connection" None [] |}
       lonely_pool
     = (AsyncQuery.set_pool lonely_pool [] [],
        Throw (Exception "mysql_read_query_result failed: Lost connection")).
Proof.
  split.
  - destruct (failed_round_propagates_and_delivers_nothing
                (answering 0 [idx_test]) lonely_pool) as (_ & H & _).
    destruct (H (AsyncQuery.send_then_wait (answering 0 [idx_test])
                   (AsyncQuery.queries lonely_pool)).1
                (Exception "No result returned") eq_refl eq_refl) as (Hl & _).
    exact Hl.
  - match goal with |- AsyncQuery.launch ?d _ = _ =>
      destruct (failed_round_propagates_and_delivers_nothing d lonely_pool)
        as (H & _)
    end.
    apply H. reflexivity.
Defined.

(** * Further properties *)

(** ** The diagnostics map *)

Lemma emplace_lookup (values : gmap string string) (key value k : string) :
  Result.MetaReader.emplace values key value !! k
  = match values !! k with
    | Some v => Some v
    | None => if decide (key = k) then Some value else None
    end.
Proof.
  unfold Result.MetaReader.emplace.
  destruct (values !! key) as [v|] eqn:E.
  - destruct (values !! k) as [v'|] eqn:E'; [reflexivity |].
    destruct (decide (key = k)) as [->|]; [congruence | reflexivity].
  - destruct (decide (key = k)) as [->|Hne].
    + now rewrite lookup_insert_eq, E.
    + rewrite lookup_insert_ne by exact Hne. now destruct (values !! k).
Qed.

Lemma diagnostics_entries_lookup (rows : list MYSQL_ROW)
    (values : gmap string string) (k : string) :
  diagnostics_entries rows values !! k
  = match values !! k with
    | Some v => Some v
    | None => if decide (k = "") then None else first_value rows k
    end.
Proof.
  revert values. induction rows as [|row rest IH]; intros values; simpl.
  - unfold first_value. simpl. destruct (values !! k); [reflexivity |].
    now destruct (decide (k = "")).
  - rewrite IH. unfold first_value. simpl.
    destruct (decide (cell_text row 0 = "")) as [Hempty|Hkey].
    + destruct (values !! k); [reflexivity |].
      destruct (decide (k = "")) as [->|Hk]; [reflexivity |].
      rewrite bool_decide_eq_false_2 by congruence. reflexivity.
    + rewrite emplace_lookup.
      destruct (values !! k); [reflexivity |].
      destruct (decide (cell_text row 0 = k)) as [<-|Hne].
      * rewrite bool_decide_eq_true_2 by reflexivity.
        now destruct (decide (cell_text row 0 = "")).
      * rewrite bool_decide_eq_false_2 by exact Hne. reflexivity.
Qed.

(** X1: merging a SHOW META answer gives a Result on which getMeta answers a
    non-empty key with the value column of the first row that has this key,
    a NULL value read as the empty string, and answers the empty string for
    a key no row has and for the empty key: later duplicates, and rows whose
    key is empty or NULL, do not count. *)
Theorem getMeta_first_row_wins (data m : MYSQL_RES) (key : string) :
  diagnostics_shaped m ->
  exists r, Result.addMeta (fresh_result data) (Some (fresh_result m)) = Ok r
            /\ Result.getMeta r key
               = Ok (if decide (key = "") then ""
                     else default "" (first_value (res_rows m) key)).
Proof.
  intros Hm. exists (merged (data, Some m)).
  split; [now apply addMeta_merged |].
  unfold Result.getMeta, Result.MetaReader.getValue, merged, diagnostics_map.
  simpl. rewrite diagnostics_entries_lookup, lookup_empty.
  destruct (decide (key = "")); [reflexivity |].
  now destruct (first_value (res_rows m) key).
Qed.

Lemma odd_meta_shaped : diagnostics_shaped odd_meta.
Proof.
  unfold diagnostics_shaped, well_formed.
  split; [repeat constructor | split; [reflexivity | simpl; lia]].
Qed.

Lemma getMeta_first_row_wins_witness :
  exists r, Result.addMeta (fresh_result idx_test) (Some (fresh_result odd_meta)) = Ok r
            /\ Result.getMeta r "total" = Ok "2".
Proof.
  destruct (getMeta_first_row_wins idx_test odd_meta "total" odd_meta_shaped)
    as (r & Hadd & Hget).
  exists r. split; [exact Hadd | exact Hget].
Defined.

(** X2: a diagnostics result set with a single column and at least one row
    cannot be merged: the second read of its first row throws
    std::out_of_range, and so does addMeta. *)
Theorem addMeta_single_column_throws (r : Result.t) (m : MYSQL_RES)
    (column : MYSQL_FIELD) (cell : option string) (rows : list MYSQL_ROW) :
  res_fields m = [column] -> res_rows m = [cell] :: rows -> res_next m = O ->
  Result.addMeta r (Some (fresh_result m))
  = Throw (out_of_range "Row column out of range: 1").
Proof.
  intros Hfields Hrows Hnext.
  unfold Result.addMeta, Result.MetaReader.new.
  cbn [Result.MetaReader.read_rows].
  rewrite (getNextRow_some (fresh_result m) Row.new [cell])
    by (simpl; now rewrite Hrows, Hnext).
  simpl Result.fields. unfold mysql_num_fields. rewrite Hfields. simpl.
  reflexivity.
Qed.

Lemma addMeta_single_column_throws_witness :
  Result.addMeta (fresh_result idx_test) (Some (fresh_result narrow_meta))
  = Throw (out_of_range "Row column out of range: 1").
Proof.
  apply (addMeta_single_column_throws _ narrow_meta (mk_field "Variable_name")
           (Some "total") []); reflexivity.
Defined.

(** ** The column index *)

Lemma last_column_none (names : list string) (k : string) (i : nat) :
  last_column names k i = None -> k ∉ names.
Proof.
  revert i. induction names as [|n rest IH]; intros i E Hin.
  - now apply elem_of_nil in Hin.
  - simpl in E. destruct (last_column rest k (S i)) eqn:E'; [discriminate |].
    destruct (decide (n = k)) as [|Hne]; [discriminate |].
    apply elem_of_cons in Hin as [->|Hin]; [contradiction |].
    exact (IH (S i) E' Hin).
Qed.

Lemma last_column_spec (names : list string) (k : string) :
  forall i j,
    last_column names k i = Some j ->
    (i <= j < i + length names)%nat
    /\ names !! (j - i)%nat = Some k
    /\ forall j', (j - i < j')%nat -> names !! j' <> Some k.
Proof.
  induction names as [|n rest IH]; intros i j; simpl; [discriminate |].
  destruct (last_column rest k (S i)) as [j0|] eqn:E.
  - intros H; inversion H; subst. destruct (IH _ _ E) as (Hr & Hat & Hlater).
    split; [lia |]. replace (j - i)%nat with (S (j - S i)) by lia.
    split; [exact Hat |]. intros j' Hj'. destruct j' as [|j']; [lia |].
    simpl. apply Hlater. lia.
  - destruct (decide (n = k)) as [->|Hne]; [| discriminate].
    intros H; inversion H; subst. rewrite Nat.sub_diag.
    split; [lia |]. split; [reflexivity |].
    intros j' Hj' Hat. destruct j' as [|j']; [lia |]. simpl in Hat.
    apply (last_column_none _ _ _ E). eapply list_elem_of_lookup_2, Hat.
Qed.

Lemma last_column_found (names : list string) (k : string) (i : nat) :
  k ∈ names -> is_Some (last_column names k i).
Proof.
  revert i. induction names as [|n rest IH]; intros i Hin.
  - now apply elem_of_nil in Hin.
  - simpl. destruct (last_column rest k (S i)) eqn:E; [now eexists |].
    apply elem_of_cons in Hin as [->|Hin].
    + rewrite decide_True by reflexivity. now eexists.
    + destruct (IH (S i) Hin) as [j Hj]. congruence.
Qed.

Lemma initialize_from_lookup (fs : list MYSQL_FIELD) (count : nat) :
  forall (i : nat) (index : gmap string Z),
    (i + count = length fs)%nat ->
    exists index',
      ResultIndex.initialize_from fs i count index = Ok index'
      /\ forall k, index' !! k
                   = match last_column (drop i (map name fs)) k i with
                     | Some j => Some (Z.of_nat j)
                     | None => index !! k
                     end.
Proof.
  induction count as [|count IH]; intros i index Hlen; simpl.
  - exists index. split; [reflexivity |]. intros k.
    rewrite drop_ge by (rewrite length_map; lia). reflexivity.
  - destruct (fs !! i) as [f|] eqn:E.
    2: { apply lookup_ge_None in E. lia. }
    destruct (IH (S i) (<[name f := Z.of_nat i]> index)) as (index' & -> & Hk);
      [lia |].
    exists index'. split; [reflexivity |]. intros k. rewrite Hk.
    assert (Hdrop : drop i (map name fs) = name f :: drop (S i) (map name fs)).
    { apply drop_S. now rewrite list_lookup_fmap, E. }
    rewrite Hdrop. simpl.
    destruct (last_column (drop (S i) (map name fs)) k (S i)); [reflexivity |].
    destruct (decide (name f = k)) as [->|Hne].
    + now rewrite lookup_insert_eq.
    + now rewrite lookup_insert_ne.
Qed.

Lemma fresh_result_indexed (rs : MYSQL_RES) : Result_indexed (fresh_result rs).
Proof. exists (res_fields rs). repeat split. now left. Qed.

Lemma getColumnIndex_answer (r : Result.t) (k : string) :
  Result_indexed r ->
  (Result.getColumnIndex r k).2
  = match last_column (column_names r) k O with
    | Some j => Ok (Z.of_nat j)
    | None => Throw (out_of_range ("No such field in result set: " +:+ k))
    end
  /\ Result_indexed (Result.getColumnIndex r k).1
  /\ column_names (Result.getColumnIndex r k).1 = column_names r
  /\ Result.fields (Result.getColumnIndex r k).1 = Result.fields r
  /\ Result.result (Result.getColumnIndex r k).1 = Result.result r
  /\ Result.metaReader (Result.getColumnIndex r k).1 = Result.metaReader r.
Proof.
  intros (fs & Hinfo & Hfields & Hindex).
  unfold column_names. rewrite Hinfo. unfold Result.getColumnIndex.
  destruct (ResultIndex.empty (Result.columnIndex r)) eqn:Hempty.
  - apply bool_decide_eq_true in Hempty.
    unfold ResultIndex.initialize. rewrite Hinfo, Hfields, Nat2Z.id.
    destruct (initialize_from_lookup fs (length fs) O (Result.columnIndex r))
      as (index' & -> & Hk); [lia |].
    change (drop 0 (map name fs)) with (map name fs) in Hk.
    simpl. split; [| split; [| rewrite ?Hinfo; repeat split; reflexivity]].
    + unfold ResultIndex.getFieldIndex. rewrite Hk, Hempty, lookup_empty.
      now destruct (last_column (map name fs) k 0).
    + exists fs. simpl. repeat split; try assumption. right. intros k'.
      rewrite Hk, Hempty, lookup_empty.
      now destruct (last_column (map name fs) k' 0).
  - apply bool_decide_eq_false in Hempty.
    destruct Hindex as [Hnone | Hbuilt]; [contradiction |].
    simpl. split; [| split; [| rewrite ?Hinfo; repeat split; reflexivity]].
    + unfold ResultIndex.getFieldIndex. rewrite Hbuilt.
      now destruct (last_column (map name fs) k 0).
    + exists fs. repeat split; try assumption. now right.
Qed.

(** X3: on a Result as the constructor makes it, with its column index built
    or not, getColumnIndex of a name some column has returns a position
    inside the row, that of the last column so named; of any other name it
    throws std::out_of_range; and the Result stays such a Result. *)
Theorem getColumnIndex_last_column_of_name (r : Result.t) (k : string) :
  Result_indexed r ->
  (k ∈ column_names r ->
   exists i, (Result.getColumnIndex r k).2 = Ok i
             /\ 0 <= i < Result.fields r
             /\ column_names r !! Z.to_nat i = Some k
             /\ forall j, (Z.to_nat i < j)%nat -> column_names r !! j <> Some k)
  /\ (k ∉ column_names r ->
      (Result.getColumnIndex r k).2
      = Throw (out_of_range ("No such field in result set: " +:+ k)))
  /\ Result_indexed (Result.getColumnIndex r k).1.
Proof.
  intros Hr. destruct (getColumnIndex_answer r k Hr) as (Hans & Hind & _).
  split; [| split; [| exact Hind]].
  - intros Hin. destruct (last_column_found _ _ O Hin) as [j Hj].
    rewrite Hj in Hans. exists (Z.of_nat j). split; [exact Hans |].
    destruct (last_column_spec _ _ _ _ Hj) as (Hrange & Hat & Hlater).
    rewrite Nat.sub_0_r in Hat, Hlater. rewrite Nat2Z.id.
    destruct Hr as (fs & Hinfo & Hfields & _).
    unfold column_names in *. rewrite Hinfo in *. rewrite length_map in Hrange.
    repeat split; try assumption; lia.
  - intros Hnot. destruct (last_column (column_names r) k 0) as [j|] eqn:Hj;
      [| exact Hans].
    destruct (last_column_spec _ _ _ _ Hj) as (_ & Hat & _).
    exfalso. apply Hnot. eapply list_elem_of_lookup_2, Hat.
Qed.

Lemma getColumnIndex_last_column_of_name_witness :
  exists i, (Result.getColumnIndex (fresh_result twin_columns) "id").2 = Ok i
            /\ column_names (fresh_result twin_columns) !! Z.to_nat i = Some "id"
            /\ forall j, (Z.to_nat i < j)%nat ->
                         column_names (fresh_result twin_columns) !! j <> Some "id".
Proof.
  destruct (getColumnIndex_last_column_of_name (fresh_result twin_columns) "id"
              (fresh_result_indexed twin_columns)) as (H & _).
  destruct H as (i & Hi & _ & Hat & Hlater).
  { vm_compute. apply list_elem_of_here. }
  exists i. split; [exact Hi |]. split; [exact Hat | exact Hlater].
Defined.

(** X4: column lookups are stable: building the index on a first lookup
    changes none of the answers, so a lookup on the Result an earlier lookup
    left behind gives what it gives on the Result as it was, and the earlier
    lookup changes neither the rows, the column metadata nor the merged
    diagnostics. *)
Theorem getColumnIndex_stable (r : Result.t) (k1 k2 : string) :
  Result_indexed r ->
  (Result.getColumnIndex (Result.getColumnIndex r k1).1 k2).2
  = (Result.getColumnIndex r k2).2
  /\ Result.result (Result.getColumnIndex r k1).1 = Result.result r
  /\ Result.fieldInfo (Result.getColumnIndex r k1).1 = Result.fieldInfo r
  /\ Result.metaReader (Result.getColumnIndex r k1).1 = Result.metaReader r.
Proof.
  intros Hr.
  destruct (getColumnIndex_answer r k1 Hr) as (_ & Hr1 & Hnames & _ & Hres & Hmeta).
  destruct (getColumnIndex_answer r k2 Hr) as (-> & _).
  destruct (getColumnIndex_answer _ k2 Hr1) as (-> & _).
  rewrite Hnames. repeat split; try assumption.
  unfold Result.getColumnIndex.
  destruct (ResultIndex.empty _); [| reflexivity].
  now destruct (ResultIndex.initialize _ _ _).
Qed.

Lemma getColumnIndex_stable_witness :
  (Result.getColumnIndex
     (Result.getColumnIndex (fresh_result idx_test) "id").1 "string_data").2
  = (Result.getColumnIndex (fresh_result idx_test) "string_data").2.
Proof.
  destruct (getColumnIndex_stable (fresh_result idx_test) "id" "string_data"
              (fresh_result_indexed idx_test)) as (H & _).
  exact H.
Defined.

(** X5: getValue on a row bound to a Result reads that row's cell in the
    last column of the given name and decodes it with the value-initialised
    default: a NULL cell, or for a number a cell without one, gives T{}. *)
Theorem getValue_decodes_named_cell {T : Type} `{ValueInit T} `{ConvertResult T}
    (r : Result.t) (arr : MYSQL_ROW) (k : string) (j : nat) (cell : option string) :
  Result_indexed r ->
  Z.of_nat (length arr) = Result.fields r ->
  last_column (column_names r) k O = Some j ->
  arr !! j = Some cell ->
  (Row_getValue (T:=T) (bound_row (Result.fields r) arr) r k).2
  = Ok (convertResult cell value_init).
Proof.
  intros Hr Hlen Hj Hcell. unfold Row_getValue. simpl.
  destruct (getColumnIndex_answer r k Hr) as (Hans & _). rewrite Hj in Hans.
  destruct (Result.getColumnIndex r k) as [r' oidx]. simpl in *. subst oidx.
  simpl. unfold Row.index, Row.checkBounds. simpl.
  apply lookup_lt_Some in Hcell as Hlt.
  destruct (Result.fields r <=? Z.of_nat j) eqn:E; [apply Z.leb_le in E; lia |].
  simpl. unfold Row.at_index. simpl. now rewrite Nat2Z.id, Hcell.
Qed.

Lemma getValue_decodes_named_cell_witness :
  (Row_getValue (T:=uint32_t)
     (bound_row 3 [Some "1"; Some "219"; Some "Additional string attribute"])
     (fresh_result idx_test) "int_data").2 = Ok (U32 219)
  /\ (Row_getValue (T:=uint32_t)
        (bound_row 3 [Some "2"; None; Some ""])
        (fresh_result idx_test) "int_data").2 = Ok (U32 0).
Proof.
  split.
  - exact (getValue_decodes_named_cell (T:=uint32_t) (fresh_result idx_test)
             [Some "1"; Some "219"; Some "Additional string attribute"]
             "int_data" 1 (Some "219") (fresh_result_indexed idx_test)
             eq_refl eq_refl eq_refl).
  - exact (getValue_decodes_named_cell (T:=uint32_t) (fresh_result idx_test)
             [Some "2"; None; Some ""]
             "int_data" 1 None (fresh_result_indexed idx_test)
             eq_refl eq_refl eq_refl).
Defined.

(** ** Walking the rows *)

Lemma fetch_rows_from (fuel : nat) :
  forall (r : Result.t) (row : Row.t),
    0 < Result.fields r ->
    (length (res_rows (Result.result r)) - res_next (Result.result r) < fuel)%nat ->
    exists r',
      fetch_rows fuel r row
      = (r', unbound_row,
         map (bound_row (Result.fields r))
           (drop (res_next (Result.result r)) (res_rows (Result.result r))))
      /\ Result.getNextRow r' unbound_row = (r', unbound_row, false)
      /\ Result.columnIndex r' = Result.columnIndex r
      /\ Result.metaReader r' = Result.metaReader r.
Proof.
  induction fuel as [|fuel IH]; intros r row Hpos Hfuel; [lia |].
  cbn [fetch_rows].
  destruct (res_rows (Result.result r) !! res_next (Result.result r))
    as [arr|] eqn:E.
  - rewrite (getNextRow_some r row arr E).
    assert (Hlt : (0 <? Result.fields r) = true) by now apply Z.ltb_lt.
    rewrite Hlt.
    match goal with |- context [fetch_rows fuel ?r1 ?row1] =>
      destruct (IH r1 row1) as (r' & -> & Hstay & Hidx & Hmeta)
    end.
    { exact Hpos. }
    { simpl. apply lookup_lt_Some in E. lia. }
    exists r'. simpl in *. rewrite (drop_S _ _ _ E). simpl.
    repeat split; assumption.
  - unfold Result.getNextRow, mysql_fetch_row. rewrite E. simpl.
    exists r. apply lookup_ge_None in E. rewrite drop_ge by exact E.
    destruct r; simpl. repeat split.
    unfold Result.getNextRow, mysql_fetch_row. simpl in *.
    rewrite (proj2 (lookup_ge_None _ _) E). reflexivity.
Qed.

(** X6: on a Result made of a stored result set with at least one column,
    the loop [while (res.getNextRow(row))] binds the row to every row of the
    result set once, in order and with the cursor at the first column, as
    many times as size() says; it ends with the row unbound and of size
    zero, and from then on getNextRow keeps returning false.  When the rows
    are as wide as the column metadata, every row the loop saw is read
    within its bounds. *)
Theorem fetch_rows_visits_every_row (rs : MYSQL_RES) (fuel : nat) (row : Row.t) :
  res_next rs = O ->
  (0 < length (res_fields rs))%nat ->
  Z.of_nat (length (res_fields rs)) < 2 ^ 32 ->
  Z.of_nat (length (res_rows rs)) < 2 ^ 32 ->
  (length (res_rows rs) < fuel)%nat ->
  exists r',
    fetch_rows fuel (fresh_result rs) row
    = (r', unbound_row, map (bound_row (mysql_num_fields rs)) (res_rows rs))
    /\ Result.getNextRow r' unbound_row = (r', unbound_row, false)
    /\ Z.of_nat (length (map (bound_row (mysql_num_fields rs)) (res_rows rs)))
       = Result.size (fresh_result rs)
    /\ (well_formed rs ->
        Forall Row_bounded (map (bound_row (mysql_num_fields rs)) (res_rows rs))).
Proof.
  intros Hnext Hcols Hwide Hmany Hfuel.
  destruct (fetch_rows_from fuel (fresh_result rs) row) as (r' & E & Hstay & _).
  { simpl. unfold mysql_num_fields. lia. }
  { simpl. lia. }
  simpl in E. rewrite Hnext in E. exists r'.
  split; [exact E |]. split; [exact Hstay |]. split.
  - rewrite length_map. unfold Result.size, mysql_num_rows, wrap32. simpl.
    rewrite Z.mod_small by lia. reflexivity.
  - intros Hwf. apply Forall_forall. intros x Hx.
    apply list_elem_of_fmap in Hx as (arr & -> & Harr).
    unfold well_formed in Hwf. rewrite Forall_forall in Hwf.
    specialize (Hwf arr Harr). unfold Row_bounded, bound_row, mysql_num_fields.
    simpl. repeat split; try lia. right. exists arr. split; [reflexivity | lia].
Qed.

Lemma fetch_rows_visits_every_row_witness :
  exists r',
    fetch_rows 5 (fresh_result idx_test) Row.new
    = (r', unbound_row,
       [bound_row 3 [Some "1"; Some "219"; Some "Additional string attribute"];
        bound_row 3 [Some "2"; None; Some ""]]).
Proof.
  destruct (fetch_rows_visits_every_row idx_test 5 Row.new) as (r' & E & _);
    try reflexivity; try (simpl; lia).
  exists r'. exact E.
Defined.

(** ** The batch of a connection *)

Lemma expected_payload_app (l1 l2 : list (string * bool)) :
  expected_payload (l1 ++ l2) = expected_payload l1 +:+ expected_payload l2.
Proof.
  induction l1 as [|[statement meta] rest IH]; [reflexivity |].
  simpl. now rewrite IH, !append_assoc.
Qed.

(** X7: registering a statement appends its text, and "SHOW META; " after it
    when diagnostics are wanted, to the payload the batch had; a cleared
    batch has the empty payload, so after clear() the payload is that of
    the statements registered since. *)
Theorem addQuery_appends_to_payload (q : Query.t) (query : string) (meta : bool) :
  Query.getQueryString (Query.addQuery q query meta)
  = Query.getQueryString q +:+ c_str query +:+ (if meta then "SHOW META; " else "")
  /\ Query.getQueryString (Query.clear q) = ""
  /\ Query.getQueryString (Query.addQuery (Query.clear q) query meta)
     = c_str query +:+ (if meta then "SHOW META; " else "").
Proof.
  rewrite !getQueryString_expected. simpl. rewrite expected_payload_app. simpl.
  rewrite !append_nil_r. repeat split.
Qed.

(** X8: connecting and registering statements commute, so a batch registered
    before connect(), as the tests do, is the batch registered after it;
    connect() keeps the batch whether it succeeds or throws, and on a Query
    that was not connected it leaves isConnected() true exactly when it
    returns. *)
Theorem connect_keeps_batch (d : Daemon) (q : Query.t) (host : string) (port : Z)
    (query : string) (meta : bool) :
  Query.connect d (Query.addQuery q query meta) host port
  = (Query.addQuery (Query.connect d q host port).1 query meta,
     (Query.connect d q host port).2)
  /\ Query.queries (Query.connect d q host port).1 = Query.queries q
  /\ (Query.connected q = false ->
      (Query.isConnected (Query.connect d q host port).1 = true
       <-> returns (Query.connect d q host port).2 = true)).
Proof.
  unfold Query.connect, mysql_real_connect, Query.addQuery, Query.isConnected.
  simpl.
  destruct (dm_connect d (Query.con q) _) as [e|]; simpl;
    repeat split; try reflexivity; try congruence;
    intros Hc; rewrite Hc; discriminate.
Qed.

Lemma connect_keeps_batch_witness :
  let q := {| Query.con := created_handle 0 None; Query.connected := false;
              Query.firstToRetrieve := true; Query.queries := [] |} in
  Query.isConnected
    (Query.connect (answering 0 []) q "/tmp/test-sphinxql.s" 0).1 = true.
Proof.
  intros q.
  destruct (connect_keeps_batch (answering 0 []) q "/tmp/test-sphinxql.s" 0
              "SELECT 1;" true) as (_ & _ & H).
  apply (H eq_refl). reflexivity.
Defined.

Lemma execute_data_handle (d : Daemon) (q : Query.t) :
  handle_of (Query.execute_data d q).1 = handle_of q
  /\ Query.connected (Query.execute_data d q).1 = Query.connected q
  /\ Query.queries (Query.execute_data d q).1 = Query.queries q
  /\ Query.firstToRetrieve (Query.execute_data d q).1 = Query.firstToRetrieve q.
Proof.
  unfold Query.execute_data, mysql_query, handle_of. simpl.
  destruct (negb _); [destruct (_ || _) |]; repeat split.
Qed.

Lemma nextResult_connected (q : Query.t) :
  Query.connected (Query.nextResult q).1 = Query.connected q.
Proof.
  unfold Query.nextResult.
  destruct (Query.firstToRetrieve q).
  - now destruct (Result.new _).
  - destruct (mysql_more_results _); [| reflexivity].
    destruct (mysql_next_result _) as [c status].
    destruct (status =? 0); [| reflexivity].
    now destruct (Result.new c).
Qed.

Lemma fill_from_connected (entries : list (string * bool)) (q : Query.t)
    (results : list Result.t) :
  Query.connected (Response.fill_from entries q results).1.1 = Query.connected q.
Proof.
  revert q results. induction entries as [|[statement meta] rest IH];
    intros q results; [reflexivity |].
  cbn [Response.fill_from].
  pose proof (nextResult_connected q) as H1.
  destruct (Query.nextResult q) as [q1 ores]. simpl in H1.
  destruct ores as [res|e|]; [| exact H1..].
  cbn [snd]. destruct meta; [| now rewrite IH].
  pose proof (nextResult_connected q1) as H2.
  destruct (Query.nextResult q1) as [q2 ometa]. simpl in H2.
  destruct ometa as [m|e|]; [| simpl; congruence..].
  destruct (Result.addMeta res (Some m)); [rewrite IH | simpl..]; congruence.
Qed.

(** X9: Query::execute on a Query that is not connected throws
    Exception("No connection established!") and touches nothing, the batch
    included; on a connected Query, whether it returns a Response or
    throws, it leaves the same connection, still connected, with the batch
    cleared and the first result pending, ready for the next batch. *)
Theorem execute_leaves_query_cleared (d : Daemon) (q q' : Query.t)
    (o : outcome Response.t) :
  Query_execute d q = (q', o) ->
  (Query.connected q = false ->
   q' = q /\ o = Throw (Exception "No connection established!"))
  /\ (Query.connected q = true -> o <> Undefined ->
      cleared q' /\ Query.connected q' = true /\ handle_of q' = handle_of q).
Proof.
  unfold Query_execute, Query.isConnected. intros Hexec. split.
  - intros Hc. rewrite Hc in Hexec. simpl in Hexec. now inversion Hexec.
  - intros Hc Hdef. rewrite Hc in Hexec. simpl in Hexec.
    destruct (execute_data_handle d q) as (Hh & Hconn & _).
    destruct (Query.execute_data d q) as [q1 o1]. simpl in *.
    destruct o1 as [[]|e|].
    + unfold Response.of_query, Response.fill in Hexec.
      pose proof (fill_from_handle (Query.getQueries q1) q1 []) as Hh2.
      pose proof (fill_from_connected (Query.getQueries q1) q1 []) as Hc2.
      destruct (Response.fill_from _ q1 []) as [[q2 rs] o2]. simpl in *.
      inversion Hexec; subst. simpl.
      repeat split; unfold handle_of in *; simpl; congruence.
    + inversion Hexec; subst. simpl.
      repeat split; unfold handle_of in *; simpl; congruence.
    + inversion Hexec; subst. contradiction.
Qed.

Lemma execute_leaves_query_cleared_witness :
  cleared (Query_execute (answering 2013 []) meta_test_query).1
  /\ cleared (Query_execute (answering 0 [idx_test; show_meta; idx_test])
                meta_test_query).1.
Proof.
  split.
  - destruct (execute_leaves_query_cleared (answering 2013 []) meta_test_query
                (Query_execute (answering 2013 []) meta_test_query).1
                (Query_execute (answering 2013 []) meta_test_query).2 eq_refl)
      as (_ & H).
    apply H; [reflexivity | discriminate].
  - match goal with |- cleared (Query_execute ?d ?q).1 =>
      destruct (execute_leaves_query_cleared d q (Query_execute d q).1
                  (Query_execute d q).2 eq_refl) as (_ & H)
    end.
    apply H; [reflexivity | vm_compute; discriminate].
Defined.

(** X10: a synchronous execute on a connected Query whose first result is
    pending, answered with status zero and with result sets that
    demultiplex over the batch, returns the Response holding the merged
    Results in registration order and leaves the Query cleared. *)
Theorem execute_delivers_response (d : Daemon) (q : Query.t)
    (sets : list MYSQL_RES) (pairs : list (MYSQL_RES * option MYSQL_RES))
    (rest : list (Z * option MYSQL_RES)) :
  Query.connected q = true ->
  Query.firstToRetrieve q = true ->
  execute_status d q = 0 ->
  (0, rp_current (dm_query d (Query.con q) (c_str (Query.getQueryString q))))
    :: rp_pending (dm_query d (Query.con q) (c_str (Query.getQueryString q)))
  = (delivered sets ++ rest)%list ->
  demultiplex (Query.queries q) sets = Some pairs ->
  Forall (fun pair : MYSQL_RES * option MYSQL_RES =>
            forall m, pair.2 = Some m -> diagnostics_shaped m) pairs ->
  exists q', Query_execute d q = (q', Ok {| Response.results := map merged pairs |})
             /\ cleared q' /\ handle_of q' = handle_of q.
Proof.
  intros Hc Hfirst Hstatus Hstream Hdemux Hshape.
  unfold Query_execute, Query.isConnected. rewrite Hc. simpl.
  pose proof (execute_data_outcome d q) as Hout.
  rewrite Hstatus in Hout. simpl in Hout.
  destruct (Query.execute_data d q) as [q1 o1] eqn:E. simpl in Hout. subst o1.
  assert (Hq1 : Query.queries q1 = Query.queries q
                /\ upcoming q1 = (delivered sets ++ rest)%list
                /\ handle_of q1 = handle_of q).
  { unfold Query.execute_data, mysql_query in E. simpl in E.
    destruct (negb _); [destruct (_ || _) |]; inversion E; subst;
      unfold upcoming, handle_of; simpl; rewrite Hfirst; auto. }
  destruct Hq1 as (Hqs & Hup & Hh).
  rewrite <- Hqs in Hdemux.
  destruct (fill_from_demultiplex _ _ _ q1 [] rest Hdemux Hshape Hup)
    as (q2 & Ef & _ & _ & Hh2).
  unfold Response.of_query, Response.fill, Query.getQueries. rewrite Ef. simpl.
  eexists. split; [reflexivity |]. split; [apply clear_cleared |].
  unfold handle_of in *. simpl. congruence.
Qed.

Lemma execute_delivers_response_witness :
  exists q',
    Query_execute (answering 0 [idx_test; show_meta; idx_test]) meta_test_query
    = (q', Ok {| Response.results :=
                   [merged (idx_test, Some show_meta); merged (idx_test, None)] |}).
Proof.
  destruct (execute_delivers_response
              (answering 0 [idx_test; show_meta; idx_test]) meta_test_query
              [idx_test; show_meta; idx_test]
              [(idx_test, Some show_meta); (idx_test, None)] [])
    as (q' & E & _); try reflexivity.
  - constructor; [simpl; intros m' Hm; simplify_eq; apply show_meta_shaped |].
    constructor; [simpl; intros m' Hm; discriminate | constructor].
  - exists q'. exact E.
Defined.

(** ** A reply that ends too early *)

Lemma fill_from_app (l1 l2 : list (string * bool)) :
  forall (q : Query.t) (results : list Result.t),
    Response.fill_from (l1 ++ l2) q results
    = match Response.fill_from l1 q results with
      | (q1, results1, Ok _) => Response.fill_from l2 q1 results1
      | other => other
      end.
Proof.
  induction l1 as [|[statement meta] rest IH]; intros q results; [reflexivity |].
  cbn [app Response.fill_from].
  destruct (Query.nextResult q) as [q1 ores].
  destruct ores as [res|e|]; [| reflexivity..].
  cbn [snd]. destruct meta; [| apply IH].
  destruct (Query.nextResult q1) as [q2 ometa].
  destruct ometa as [m|e|]; [| reflexivity..].
  destruct (Result.addMeta res (Some m)); [apply IH | reflexivity..].
Qed.

Lemma nextResult_error (q : Query.t) :
  my_error (Query.con (Query.nextResult q).1) = my_error (Query.con q).
Proof.
  unfold Query.nextResult, Result.new, mysql_store_result, mysql_more_results,
    mysql_next_result.
  destruct (Query.firstToRetrieve q).
  - simpl. destruct (my_current (Query.con q)); reflexivity.
  - destruct (my_pending (Query.con q)) as [|[status r] rest]; [reflexivity |].
    destruct (status =? 0); [| reflexivity].
    simpl. destruct r; reflexivity.
Qed.

Lemma fill_from_error (entries : list (string * bool)) :
  forall (q : Query.t) (results : list Result.t),
    my_error (Query.con (Response.fill_from entries q results).1.1)
    = my_error (Query.con q).
Proof.
  induction entries as [|[statement meta] entries' IH]; intros q results;
    [reflexivity |].
  cbn [Response.fill_from].
  pose proof (nextResult_error q) as H1.
  destruct (Query.nextResult q) as [q1 ores]. cbn [fst] in H1.
  destruct ores as [res|e|]; [| exact H1..].
  cbn [snd]. destruct meta; [| now rewrite IH].
  pose proof (nextResult_error q1) as H2.
  destruct (Query.nextResult q1) as [q2 ometa]. cbn [fst] in H2.
  destruct ometa as [m|e|]; [| simpl; congruence..].
  destruct (Result.addMeta res (Some m)); [| simpl; congruence..].
  rewrite IH. congruence.
Qed.

Lemma nextResult_missing (q : Query.t) (msg : string) :
  missing_result (mysql_error (Query.con q)) (upcoming q) = Some msg ->
  (Query.nextResult q).2 = Throw (Exception msg).
Proof.
  unfold missing_result, upcoming, Query.nextResult, Result.new,
    mysql_store_result, mysql_more_results, mysql_next_result, mysql_error.
  destruct (Query.firstToRetrieve q).
  - simpl. destruct (my_current (Query.con q)); [discriminate |].
    intros H. injection H as <-. reflexivity.
  - destruct (my_pending (Query.con q)) as [|[status r] rest].
    + intros H. injection H as <-. reflexivity.
    + destruct (status =? 0).
      * destruct r; [discriminate |]. intros H. injection H as <-. reflexivity.
      * intros H. injection H as <-. reflexivity.
Qed.

(** X11: filling the Response throws at the first result set that is not
    there to be taken, whether it is the data result of an entry or the
    diagnostics result of an entry that wants diagnostics.  It throws
    Exception("No result returned") when the result sets have run out after
    the connection's first one was taken, or when the step to the next one
    fails; it throws Exception("mysql_store_result error: " + the
    connection's error text) when the result set is reached and none can be
    stored, which is what happens at the first entry of a connection whose
    reply holds no result set at all. *)
Theorem fill_throws_at_missing_result (served later : list (string * bool))
    (sets : list MYSQL_RES) (pairs : list (MYSQL_RES * option MYSQL_RES))
    (q : Query.t) (results : list Result.t)
    (rest : list (Z * option MYSQL_RES)) (msg : string) :
  demultiplex served sets = Some pairs ->
  Forall (fun pair : MYSQL_RES * option MYSQL_RES =>
            forall m, pair.2 = Some m -> diagnostics_shaped m) pairs ->
  missing_result (mysql_error (Query.con q)) rest = Some msg ->
  (upcoming q = (delivered sets ++ rest)%list ->
   forall e, (Response.fill_from (served ++ e :: later) q results).2
             = Throw (Exception msg))
  /\ (forall data statement,
        upcoming q = (delivered (sets ++ [data]) ++ rest)%list ->
        (Response.fill_from (served ++ (statement, true) :: later) q results).2
        = Throw (Exception msg)).
Proof.
  intros Hdemux Hshape Hmiss. split.
  - intros Hup e.
    destruct (fill_from_demultiplex served sets pairs q results rest Hdemux Hshape Hup)
      as (q' & Ef & Hup' & _).
    pose proof (fill_from_error served q results) as Herr.
    rewrite Ef in Herr. cbn [fst] in Herr.
    rewrite fill_from_app, Ef. cbn [Response.fill_from].
    assert (Hthrow : (Query.nextResult q').2 = Throw (Exception msg)).
    { apply nextResult_missing. unfold mysql_error. now rewrite Hup', Herr. }
    destruct (Query.nextResult q') as [q1 ores]. cbn [snd] in Hthrow.
    now subst ores.
  - intros data statement Hup.
    destruct (fill_from_demultiplex served sets pairs q results
                ((0, Some data) :: rest) Hdemux Hshape) as (q' & Ef & Hup' & _).
    { rewrite Hup. unfold delivered. rewrite map_app, <- app_assoc. reflexivity. }
    pose proof (fill_from_error served q results) as Herr.
    rewrite Ef in Herr. cbn [fst] in Herr.
    rewrite fill_from_app, Ef. cbn [Response.fill_from].
    destruct (nextResult_pull q' data rest Hup') as (q'' & E & Hup'' & _).
    pose proof (nextResult_error q') as Herr'.
    rewrite E in Herr'. cbn [fst] in Herr'.
    rewrite E. cbn [snd].
    assert (Hthrow : (Query.nextResult q'').2 = Throw (Exception msg)).
    { apply nextResult_missing. unfold mysql_error. now rewrite Hup'', Herr', Herr. }
    destruct (Query.nextResult q'') as [q1 ores]. cbn [snd] in Hthrow.
    now subst ores.
Qed.

Lemma fill_throws_at_missing_result_witness :
  (Response.fill_from [("SELECT id FROM idx_test;", false)]
     (answered_query 0 [] []) []).2
  = Throw (Exception "mysql_store_result error: ")
  /\ (Response.fill_from
        [("SELECT id FROM idx_test;", false); ("SELECT id FROM idx_test;", true)]
        (answered_query 0 [] [idx_test; idx_test]) []).2
     = Throw (Exception "No result returned").
Proof.
  split.
  - destruct (fill_throws_at_missing_result [] [] [] []
                (answered_query 0 [] []) [] [(0, None)]
                "mysql_store_result error: ") as (H & _).
    + reflexivity.
    + constructor.
    + reflexivity.
    + apply (H eq_refl ("SELECT id FROM idx_test;", false)).
  - destruct (fill_throws_at_missing_result
                [("SELECT id FROM idx_test;", false)] [] [idx_test] [(idx_test, None)]
                (answered_query 0 [] [idx_test; idx_test]) [] []
                "No result returned") as (_ & H).
    + reflexivity.
    + constructor; [simpl; intros m' Hm; discriminate | constructor].
    + reflexivity.
    + apply (H idx_test "SELECT id FROM idx_test;"). reflexivity.
Defined.

(** ** More on the pool *)

Lemma set_pool_set_pool (a : AsyncQuery.t) (c1 q1 c2 q2 : list Query.t) :
  AsyncQuery.set_pool (AsyncQuery.set_pool a c1 q1) c2 q2
  = AsyncQuery.set_pool a c2 q2.
Proof. reflexivity. Qed.

(** X12: AsyncQuery::clear() drops no connection: every query of the round
    goes to the back of the pool, in order and with its batch cleared, behind
    the connections that were idle already; nothing is left in flight, and a
    second clear() changes nothing. *)
Theorem clear_returns_round_to_pool (a : AsyncQuery.t) :
  AsyncQuery.clear a
  = AsyncQuery.set_pool a
      (AsyncQuery.connections a ++ map Query.clear (AsyncQuery.queries a)) []
  /\ map handle_of (AsyncQuery.connections (AsyncQuery.clear a))
     = (map handle_of (AsyncQuery.connections a)
        ++ map handle_of (AsyncQuery.queries a))%list
  /\ (Forall cleared (AsyncQuery.connections a) ->
      Forall cleared (AsyncQuery.connections (AsyncQuery.clear a)))
  /\ AsyncQuery.clear (AsyncQuery.clear a) = AsyncQuery.clear a.
Proof.
  assert (E : AsyncQuery.clear a
              = AsyncQuery.set_pool a
                  (AsyncQuery.connections a ++ map Query.clear (AsyncQuery.queries a))
                  []).
  { unfold AsyncQuery.clear. now rewrite push_cleared. }
  split; [exact E |]. rewrite E. simpl. split; [| split].
  - now rewrite map_app, clear_handles.
  - intros Hidle. apply Forall_app. split; [exact Hidle |].
    apply Forall_forall. intros q Hq.
    apply list_elem_of_fmap in Hq as (q0 & -> & _). apply clear_cleared.
  - reflexivity.
Qed.

Lemma clear_returns_round_to_pool_witness :
  map handle_of (AsyncQuery.connections (AsyncQuery.clear lonely_pool)) = [0%nat]
  /\ Forall cleared (AsyncQuery.connections (AsyncQuery.clear lonely_pool)).
Proof.
  destruct (clear_returns_round_to_pool lonely_pool) as (_ & Hh & Hc & _).
  split; [exact Hh | apply Hc; constructor].
Defined.

(** X13: AsyncQuery::add(Query&&) moves a connected Query into a new Query
    object, for which a handle is allocated.  When that succeeds, a Query
    without statements joins the idle connections, and when the pool was
    empty the next statement added goes to this very connection and
    allocates nothing; a Query with statements joins the round as it is; and
    the caller's Query is left with the fresh handle, unconnected.  When the
    handle cannot be allocated the call throws Exception with the
    allocation error.  Whenever the call throws, the pool is as it was, and
    the Query was not connected or the handle could not be allocated. *)
Theorem add_query_supplies_connection (d : Daemon) (handles : nat)
    (a : AsyncQuery.t) (q : Query.t) (query : string) (meta : bool) :
  (Query.connected q = true -> dm_init d handles = true ->
   (Query.queries q = [] ->
    AsyncQuery.add_query d handles a q
    = (S handles,
       AsyncQuery.set_pool a (AsyncQuery.connections a ++ [q]) (AsyncQuery.queries a),
       fresh_query handles, Ok tt)
    /\ (AsyncQuery.connections a = [] ->
        AsyncQuery.add d (S handles) (AsyncQuery.add_query d handles a q).1.1.2
          query meta
        = (S handles,
           AsyncQuery.set_pool a []
             (AsyncQuery.queries a ++ [Query.addQuery q query meta]),
           Ok tt)))
   /\ (Query.queries q <> [] ->
       AsyncQuery.add_query d handles a q
       = (S handles,
          AsyncQuery.set_pool a (AsyncQuery.connections a) (AsyncQuery.queries a ++ [q]),
          fresh_query handles, Ok tt)))
  /\ (Query.connected q = true -> dm_init d handles = false ->
      AsyncQuery.add_query d handles a q
      = (handles, a, q, Throw (Exception (dm_init_error d))))
  /\ (forall e, (AsyncQuery.add_query d handles a q).2 = Throw e ->
      (AsyncQuery.add_query d handles a q).1.1.2 = a
      /\ (Query.connected q = false \/ dm_init d handles = false)).
Proof.
  unfold AsyncQuery.add_query, Query.isConnected, Query.empty, Query.new_move,
    Query.new, mysql_init.
  split; [| split].
  - intros Hc Hi. rewrite Hc, Hi. simpl. split.
    + intros Hq. rewrite Hq. split; [reflexivity |].
      intros Hnone. simpl. rewrite Hnone. reflexivity.
    + intros Hq. destruct (Query.queries q); [contradiction | reflexivity].
  - intros Hc Hi. rewrite Hc, Hi. simpl.
    destruct (Query.queries q); reflexivity.
  - intros e. destruct (Query.connected q); simpl.
    + destruct (dm_init d handles); simpl.
      * destruct (Query.queries q); discriminate.
      * destruct (Query.queries q); simpl; auto.
    + destruct (if negb (AsyncQuery.port a =? 0)
                then Query.connect d q (AsyncQuery.host a) (AsyncQuery.port a)
                else Query.connect d q (AsyncQuery.host a) 0) as [q' o].
      destruct o as [[]|e'|]; simpl; [| auto | discriminate].
      destruct (dm_init d handles); simpl;
        destruct (Query.queries q'); simpl; auto; discriminate.
Qed.

Lemma add_query_supplies_connection_witness :
  let a := {| AsyncQuery.connections := []; AsyncQuery.queries := [];
              AsyncQuery.host := "/tmp/test-sphinxql.s"; AsyncQuery.port := 0;
              AsyncQuery.cfg := None |} in
  AsyncQuery.add_query (answering 0 []) 7 a (idle_query 4)
  = (8%nat, AsyncQuery.set_pool a [idle_query 4] [], fresh_query 7, Ok tt)
  /\ (AsyncQuery.add (answering 0 []) 8
        (AsyncQuery.add_query (answering 0 []) 7 a (idle_query 4)).1.1.2
        "SELECT 1;" false).1.1
     = 8%nat.
Proof.
  intros a.
  destruct (add_query_supplies_connection (answering 0 []) 7 a (idle_query 4)
              "SELECT 1;" false) as (H & _).
  destruct (H eq_refl eq_refl) as (Hempty & _).
  destruct (Hempty eq_refl) as (Hq & Hadd).
  split; [exact Hq |].
  now rewrite (Hadd eq_refl).
Defined.

(** X14: launch() never uses an idle connection: what it returns and the pool
    it leaves are the same whatever connections were idle, and the
    connections in the pool afterwards, if any, are connections of the
    round. *)
Theorem launch_discards_idle_connections (d : Daemon) (a : AsyncQuery.t)
    (idle : list Query.t) :
  AsyncQuery.launch d (AsyncQuery.set_pool a idle (AsyncQuery.queries a))
  = AsyncQuery.launch d a
  /\ ((AsyncQuery.launch d a).2 <> Undefined ->
      AsyncQuery.connections (AsyncQuery.launch d a).1 = []
      \/ map handle_of (AsyncQuery.connections (AsyncQuery.launch d a).1)
         = map handle_of (AsyncQuery.queries a)).
Proof.
  split.
  - rewrite !launch_unfold. simpl.
    destruct (AsyncQuery.send_then_wait d (AsyncQuery.queries a)) as [waited otry].
    destruct otry as [[]|e|]; reflexivity.
  - rewrite launch_unfold.
    pose proof (send_then_wait_handles d (AsyncQuery.queries a)) as Hw.
    destruct (AsyncQuery.send_then_wait d (AsyncQuery.queries a)) as [waited otry].
    destruct otry as [[]|e|]; simpl; [| now left | contradiction].
    pose proof (of_queries_handles waited) as Hf.
    destruct (Response.of_queries waited) as [filled oresp].
    simpl in *. destruct oresp as [resp|e|]; simpl; [| | contradiction];
      intros _; right; rewrite clear_handles; congruence.
Qed.

Lemma launch_discards_idle_connections_witness :
  map handle_of
    (AsyncQuery.connections
       (AsyncQuery.launch (answering 0 [idx_test; show_meta])
          (AsyncQuery.set_pool lonely_pool [idle_query 5; idle_query 6]
             (AsyncQuery.queries lonely_pool))).1)
  = [0%nat].
Proof.
  destruct (launch_discards_idle_connections (answering 0 [idx_test; show_meta])
              lonely_pool [idle_query 5; idle_query 6]) as (-> & H).
  destruct H as [Hnil | Hh]; [vm_compute; discriminate | | exact Hh].
  vm_compute in Hnil. discriminate.
Defined.

(** ** A round that succeeds *)

Lemma for_each_all_ok (step : Query.t -> Query.t * outcome unit)
    (queries : list Query.t) :
  Forall (fun q => (step q).2 = Ok tt) queries ->
  AsyncQuery.for_each step queries = (map (fun q => (step q).1) queries, Ok tt).
Proof.
  induction 1 as [|q rest Hq _ IH]; [reflexivity |]. simpl.
  destruct (step q) as [q' o]. simpl in Hq. subst o. now rewrite IH.
Qed.

Lemma dispatch_answered (d : Daemon) (q : Query.t) (sets : list MYSQL_RES) :
  answers d q sets ->
  (Query.asyncExecute d q).2 = Ok tt
  /\ (Query.waitForAsyncResult d (Query.asyncExecute d q).1).2 = Ok tt
  /\ Query.queries (dispatched d q) = Query.queries q
  /\ exists rest, upcoming (dispatched d q) = (delivered sets ++ rest)%list.
Proof.
  intros (Hsend & Hread & rest & Hstream).
  unfold dispatched, Query.waitForAsyncResult, mysql_read_query_result.
  revert Hread Hstream.
  unfold Query.asyncExecute, mysql_send_query.
  change (Query.getQueryString (Query.set_firstToRetrieve q true))
    with (Query.getQueryString q).
  change (Query.con (Query.set_firstToRetrieve q true)) with (Query.con q).
  destruct (dm_send d (Query.con q) (Query.getQueryString q)) as [status e].
  simpl in Hsend. subst status. simpl. intros Hread Hstream.
  rewrite Hread. simpl. repeat split. exists rest. exact Hstream.
Qed.

(** X15: a round in which the daemon takes every connection's payload and
    answers it with status zero and with result sets that demultiplex over
    that connection's batch returns the Response holding the merged Results
    of all connections in registration order, and ends with no query in
    flight and the round's connections, cleared, in the pool. *)
Theorem launch_delivers_response (d : Daemon) (a : AsyncQuery.t)
    (rounds : list Round) :
  AsyncQuery.queries a = map round_query rounds ->
  Forall (answered d) rounds ->
  exists a',
    AsyncQuery.launch d a
    = (a', Ok {| Response.results :=
                   map merged (concat (map round_pairs rounds)) |})
    /\ AsyncQuery.queries a' = []
    /\ Forall cleared (AsyncQuery.connections a')
    /\ map handle_of (AsyncQuery.connections a')
       = map handle_of (AsyncQuery.queries a).
Proof.
  intros Hqueries Hall.
  assert (Hwait : AsyncQuery.send_then_wait d (AsyncQuery.queries a)
                  = (map (dispatched d) (AsyncQuery.queries a), Ok tt)).
  { unfold AsyncQuery.send_then_wait. rewrite Hqueries.
    rewrite for_each_all_ok.
    2: { apply Forall_fmap. eapply Forall_impl; [exact Hall |].
         intros round (Hans & _). simpl.
         now destruct (dispatch_answered d _ _ Hans) as (-> & _). }
    rewrite for_each_all_ok.
    2: { rewrite !Forall_fmap. eapply Forall_impl; [exact Hall |].
         intros round (Hans & _). simpl.
         now destruct (dispatch_answered d _ _ Hans) as (_ & -> & _). }
    now rewrite map_map. }
  set (rounds' := map (fun round : Round =>
                         (dispatched d (round_query round), round.1.2,
                          round_pairs round)) rounds).
  assert (Hserved : Forall serves rounds').
  { subst rounds'. apply Forall_fmap. eapply Forall_impl; [exact Hall |].
    intros [[q sets] pairs] (Hans & Hdemux & Hshape).
    unfold round_query, round_pairs in *. cbn [fst snd] in *.
    destruct (dispatch_answered d q sets Hans) as (_ & _ & Hq & Hup).
    cbv beta iota delta [serves compose fst snd round_query round_pairs].
    split; [exact Hup |]. split; [| exact Hshape].
    rewrite Hq. exact Hdemux. }
  destruct (fill_all_demultiplex rounds' [] Hserved) as (queries' & Efill & _).
  assert (Hq' : map round_query rounds' = map (dispatched d) (AsyncQuery.queries a)).
  { subst rounds'. rewrite Hqueries, !map_map. reflexivity. }
  assert (Hp' : map round_pairs rounds' = map round_pairs rounds).
  { subst rounds'. rewrite map_map. reflexivity. }
  rewrite Hq', Hp' in Efill. simpl in Efill.
  assert (Hlaunch : AsyncQuery.launch d a
                    = (AsyncQuery.set_pool a (map Query.clear queries') [],
                       Ok {| Response.results :=
                               map merged (concat (map round_pairs rounds)) |})).
  { rewrite launch_unfold, Hwait. unfold Response.of_queries.
    rewrite Efill. reflexivity. }
  eexists. split; [exact Hlaunch |].
  exact (launch_success d a _ _ Hlaunch).
Qed.

Lemma launch_delivers_response_witness :
  exists a',
    AsyncQuery.launch (answering 0 [idx_test; show_meta]) lonely_pool
    = (a', Ok {| Response.results := [merged (idx_test, Some show_meta)] |})
    /\ map handle_of (AsyncQuery.connections a') = [0%nat].
Proof.
  destruct (launch_delivers_response (answering 0 [idx_test; show_meta]) lonely_pool
              [(Query.addQuery (idle_query 0) "SELECT id FROM idx_test;" true,
                [idx_test; show_meta], [(idx_test, Some show_meta)])])
    as (a' & E & _ & _ & Hh).
  - reflexivity.
  - constructor; [| constructor]. split; [| split].
    + split; [reflexivity |]. split; [reflexivity |]. exists []. reflexivity.
    + reflexivity.
    + constructor; [| constructor]. simpl. intros m' Hm. simplify_eq.
      apply show_meta_shaped.
  - exists a'. split; [exact E | exact Hh].
Defined.

(** ** Reading into a variable *)

Lemma Row_read_cell {T : Type} `{ConvertResult T} (r : Row.t) (value : T)
    (cell : option string) :
  Row.fieldIter r < Row.fields r ->
  Row.at_index r (Row.fieldIter r) = Ok cell ->
  (Row.read r value).2 = Ok (convertResult cell value).
Proof.
  intros Hin Hat. unfold Row.read, Row.checkBounds.
  destruct (Row.fields r <=? Row.fieldIter r) eqn:E.
  { apply Z.leb_le in E. lia. }
  cbv zeta. now rewrite Hat.
Qed.

(** X16: reading a cell into a variable of one of the integer types with a
    decoder of its own leaves the variable as it was when the cell is NULL
    and when its text holds no number (no digits after optional white space
    and sign); reading into a string leaves it as it was when the cell is
    NULL and otherwise replaces it with the text. *)
Theorem read_keeps_value_without_number (r : Row.t) (cell : option string) :
  Row.fieldIter r < Row.fields r ->
  Row.at_index r (Row.fieldIter r) = Ok cell ->
  ((cell = None \/ exists s, cell = Some s /\ scan_integer s = None) ->
   (forall v : uint32_t, (Row.read r v).2 = Ok v)
   /\ (forall v : uint64_t, (Row.read r v).2 = Ok v)
   /\ (forall v : int32_t, (Row.read r v).2 = Ok v)
   /\ (forall v : int64_t, (Row.read r v).2 = Ok v))
  /\ (forall v : string,
        (Row.read r v).2 = Ok (match cell with Some s => s | None => v end)).
Proof.
  intros Hin Hat. split.
  - intros Hcell.
    assert (Hconv : (forall d, convertResult_uint32 cell d = d)
                    /\ (forall d, convertResult_uint64 cell d = d)
                    /\ (forall d, convertResult_int32 cell d = d)
                    /\ (forall d, convertResult_int64 cell d = d)).
    { destruct Hcell as [-> | (s & -> & Hs)]; [repeat split |].
      destruct (convertResult_specialised s) as (H & _). exact (H Hs). }
    destruct Hconv as (H1 & H2 & H3 & H4).
    repeat split; intros v; rewrite (Row_read_cell r v cell Hin Hat); f_equal.
    + apply H1.
    + apply H2.
    + apply H3.
    + apply H4.
  - intros v. rewrite (Row_read_cell r v cell Hin Hat). now destruct cell.
Qed.

Lemma read_keeps_value_without_number_witness :
  (Row.read (one_cell_row (Some "abc")) (U32 7)).2 = Ok (U32 7)
  /\ (Row.read (one_cell_row None) (I64 (-3))).2 = Ok (I64 (-3))
  /\ (Row.read (one_cell_row (Some "abc")) "before").2 = Ok "abc".
Proof.
  destruct (read_keeps_value_without_number (one_cell_row (Some "abc")) (Some "abc"))
    as (Hnum & Hstr); [reflexivity | reflexivity |].
  destruct (read_keeps_value_without_number (one_cell_row None) None)
    as (Hnull & _); [reflexivity | reflexivity |].
  split; [| split].
  - apply Hnum. right. exists "abc". split; reflexivity.
  - apply Hnull. now left.
  - apply Hstr.
Defined.

(** ** The statement builder *)

Lemma is_empty_append (a b : string) :
  is_empty (a +:+ b) = is_empty a && is_empty b.
Proof. destruct a; reflexivity. Qed.

Lemma is_empty_true (s : string) : is_empty s = true <-> s = "".
Proof. destruct s; split; intros H; try reflexivity; discriminate. Qed.

Lemma concat_merge (sep a x : string) (rest : list string) :
  String.concat sep ((a +:+ sep +:+ x) :: rest)
  = a +:+ sep +:+ String.concat sep (x :: rest).
Proof.
  destruct rest as [|y rest]; simpl; [reflexivity |].
  now rewrite !append_assoc.
Qed.

Lemma join_fold (op : string) (rest : list string) (first : string) :
  fold_left (fun (res : string) (x : string) => res +:+ op +:+ x) rest first
  = String.concat op (first :: rest).
Proof.
  revert first. induction rest as [|x rest IH]; intros first; [reflexivity |].
  cbn [fold_left]. rewrite IH. apply concat_merge.
Qed.

(** X17: join(data, op) is the elements of data with op between each two
    of them: nothing for no element, the element itself for one. *)
Theorem join_is_concat (data : list string) (op : string) :
  join data op = String.concat op data.
Proof.
  destruct data as [|first rest]; [reflexivity |]. apply join_fold.
Qed.

Lemma concat_app (sep : string) (l1 l2 : list string) :
  l1 <> [] -> l2 <> [] ->
  String.concat sep (l1 ++ l2)
  = String.concat sep l1 +:+ sep +:+ String.concat sep l2.
Proof.
  intros H1 H2. induction l1 as [|x [|y l1] IH]; [contradiction | |].
  - destruct l2; [contradiction | reflexivity].
  - change (String.concat sep ((x :: y :: l1) ++ l2))
      with (x +:+ sep +:+ String.concat sep ((y :: l1) ++ l2)).
    rewrite IH by discriminate.
    change (String.concat sep (x :: y :: l1))
      with (x +:+ sep +:+ String.concat sep (y :: l1)).
    now rewrite !append_assoc.
Qed.

Lemma concat_nonempty (sep first : string) (rest : list string) :
  is_empty first = false -> is_empty (String.concat sep (first :: rest)) = false.
Proof.
  intros H. destruct rest; simpl; [exact H |].
  now rewrite is_empty_append, H.
Qed.

Lemma setFieldWeight_fold (ws : list (string * Z)) :
  forall b : QueryConstructor.t,
    QueryConstructor.weights
      (fold_left (fun b (fw : string * Z) =>
                    QueryConstructor.setFieldWeight b fw.1 fw.2) ws b)
    = String.concat ","
        ((if is_empty (QueryConstructor.weights b) then []
          else [QueryConstructor.weights b]) ++ map weight_text ws).
Proof.
  induction ws as [|[f w] rest IH]; intros b.
  - simpl. destruct (QueryConstructor.weights b); reflexivity.
  - cbn [fold_left]. rewrite IH. cbn [QueryConstructor.setFieldWeight
      QueryConstructor.weights fst snd map].
    unfold weight_text at 2. cbn [fst snd].
    destruct (is_empty (QueryConstructor.weights b)) eqn:E; cbn [negb].
    + rewrite append_nil_l.
      assert (Hne : is_empty (f +:+ "=" +:+ show_int w) = false).
      { rewrite is_empty_append. destruct f; reflexivity. }
      rewrite Hne. reflexivity.
    + rewrite !is_empty_append, E. cbn [andb app].
      rewrite !append_assoc. apply concat_merge.
Qed.

(** X18: calling setFieldWeight for a list of fields on a builder without
    weights leaves as weights the texts field=weight of all of them, in call
    order, separated by commas; the weights are never empty afterwards. *)
Theorem setFieldWeight_accumulates (b : QueryConstructor.t)
    (ws : list (string * Z)) :
  QueryConstructor.weights b = "" ->
  QueryConstructor.weights
    (fold_left (fun b (fw : string * Z) =>
                  QueryConstructor.setFieldWeight b fw.1 fw.2) ws b)
  = String.concat "," (map weight_text ws)
  /\ (ws <> [] ->
      is_empty (QueryConstructor.weights
                  (fold_left (fun b (fw : string * Z) =>
                                QueryConstructor.setFieldWeight b fw.1 fw.2) ws b))
      = false).
Proof.
  intros Hnone. rewrite setFieldWeight_fold, Hnone. simpl.
  split; [reflexivity |]. intros Hws.
  destruct ws as [|[f w] rest]; [contradiction |]. cbn [map].
  apply concat_nonempty. unfold weight_text. cbn [fst snd].
  rewrite is_empty_append. destruct f; reflexivity.
Qed.

Lemma setFieldWeight_accumulates_witness :
  QueryConstructor.weights
    (QueryConstructor.setFieldWeight
       (QueryConstructor.setFieldWeight QueryConstructor.new "title" 10) "body" (-2))
  = "title=10,body=-2".
Proof.
  destruct (setFieldWeight_accumulates QueryConstructor.new
              [("title", 10); ("body", -2)] eq_refl) as (H & _).
  exact H.
Defined.

Lemma enum_filter_concat (f : string) (v : Z) (rest : list Z) :
  QueryConstructor.enum_filter f v rest
  = f +:+ " IN (" +:+ String.concat ", " (map to_string (v :: rest)) +:+ ")".
Proof.
  unfold QueryConstructor.enum_filter.
  assert (H : forall acc,
             fold_left (fun (o : string) (x : Z) => o +:+ ", " +:+ to_string x)
               rest acc
             = String.concat ", " (acc :: map to_string rest)).
  { induction rest as [|x rest IH]; intros acc; [reflexivity |].
    cbn [fold_left map]. rewrite IH. apply concat_merge. }
  rewrite H. cbn [map].
  destruct rest as [|x rest]; simpl; now rewrite !append_assoc.
Qed.

(** X19: addEnumFilter with no value changes nothing; with values it adds,
    behind the filters there are, the one filter
    "field IN (v1, v2, ...)" listing the values in order, and changes
    nothing else. *)
Theorem addEnumFilter_adds_one_filter (b : QueryConstructor.t) (f : string)
    (val : list Z) :
  QueryConstructor.addEnumFilter b f [] = b
  /\ (val <> [] ->
      QueryConstructor.addEnumFilter b f val
      = QueryConstructor.push_filter b
          (f +:+ " IN (" +:+ String.concat ", " (map to_string val) +:+ ")")).
Proof.
  split; [reflexivity |].
  - intros Hval. destruct val as [|v rest]; [contradiction |].
    unfold QueryConstructor.addEnumFilter, QueryConstructor.addEnumFilter_range.
    simpl. now rewrite enum_filter_concat.
Qed.

Lemma addEnumFilter_adds_one_filter_witness :
  QueryConstructor.filters
    (QueryConstructor.addEnumFilter QueryConstructor.new "category" [3; 5; 8])
  = ["category IN (3, 5, 8)"].
Proof.
  destruct (addEnumFilter_adds_one_filter QueryConstructor.new "category" [3; 5; 8])
    as (_ & H).
  rewrite H by discriminate. reflexivity.
Defined.

Lemma concat_is_empty (sep : string) (l : list string) :
  Forall (fun s => is_empty s = false) l ->
  is_empty (String.concat sep l) = match l with [] => true | _ :: _ => false end.
Proof.
  intros Hl. destruct l as [|x rest]; [reflexivity |].
  inversion Hl; subst. now apply concat_nonempty.
Qed.

Lemma call_filters (b : QueryConstructor.t) (c : builder_call) :
  exists added,
    QueryConstructor.filters (call b c) = (QueryConstructor.filters b ++ added)%list
    /\ Forall (fun s => is_empty s = false) added.
Proof.
  destruct c; simpl; try (exists []; split; [now rewrite app_nil_r | constructor]).
  - unfold QueryConstructor.addEnumFilter.
    destruct val as [|v rest]; simpl.
    + exists []. split; [now rewrite app_nil_r | constructor].
    + eexists. split; [reflexivity |]. constructor; [| constructor].
      rewrite enum_filter_concat, is_empty_append. destruct f; reflexivity.
  - eexists. split; [reflexivity |]. constructor; [| constructor].
    rewrite is_empty_append. destruct f; reflexivity.
Qed.

(** X20: whatever calls are made on a builder, its filters only grow: the
    filters it had stay, in place, in front of the ones added, and no filter
    added is the empty text.  There is no call that removes a filter. *)
Theorem filters_only_grow (cs : list builder_call) (b : QueryConstructor.t) :
  exists added,
    QueryConstructor.filters (fold_left call cs b)
    = (QueryConstructor.filters b ++ added)%list
    /\ Forall (fun s => is_empty s = false) added.
Proof.
  revert b. induction cs as [|c cs IH]; intros b.
  - exists []. split; [now rewrite app_nil_r | constructor].
  - cbn [fold_left]. destruct (IH (call b c)) as (added2 & -> & H2).
    destruct (call_filters b c) as (added1 & -> & H1).
    exists (added1 ++ added2)%list. split; [now rewrite app_assoc |].
    now apply Forall_app.
Qed.

Lemma built_filters_nonempty (cs : list builder_call) :
  Forall (fun s => is_empty s = false) (QueryConstructor.filters (built cs)).
Proof.
  unfold built. destruct (filters_only_grow cs QueryConstructor.new)
    as (added & -> & H). exact H.
Qed.

Lemma options_nonempty (b : QueryConstructor.t) :
  Forall (fun s => is_empty s = false) (options b).
Proof.
  unfold options.
  repeat (apply Forall_app; split);
    repeat match goal with
           | |- Forall _ (if ?c then _ else _) => destruct c eqn:?
           | |- Forall _ [] => constructor
           | |- Forall _ [_] => constructor; [| constructor]
           end; try reflexivity.
  assumption.
Qed.

Lemma getQuery_options (b : QueryConstructor.t) :
  (let opt : list string := [] in
   let opt :=
     if negb (is_empty (QueryConstructor.weights b))
     then (opt ++ ["field_weights=(" +:+ QueryConstructor.weights b +:+ ")"])%list
     else opt in
   let opt :=
     if negb (is_empty (QueryConstructor.ranking b))
     then (opt ++ [QueryConstructor.ranking b])%list else opt in
   let opt :=
     if negb (QueryConstructor.querytime b =? 0)
     then (opt ++ ["max_query_time=" +:+ show_int (QueryConstructor.querytime b)])%list
     else opt in
   if negb (QueryConstructor.matches b =? 0)
   then (opt ++ ["max_matches=" +:+ show_int (QueryConstructor.matches b)])%list
   else opt)
  = options b.
Proof.
  unfold options. cbv zeta.
  destruct (is_empty (QueryConstructor.weights b));
    destruct (is_empty (QueryConstructor.ranking b));
    destruct (QueryConstructor.querytime b =? 0);
    destruct (QueryConstructor.matches b =? 0); reflexivity.
Qed.

Lemma getQuery_where (b : QueryConstructor.t) (out : string) :
  Forall (fun s => is_empty s = false) (QueryConstructor.filters b) ->
  (let f := join (QueryConstructor.filters b) " AND " in
   if negb (is_empty f) || negb (is_empty (QueryConstructor.matching b)) then
     let out := out +:+ " WHERE " +:+ f in
     let out :=
       if negb (is_empty f) && negb (is_empty (QueryConstructor.matching b))
       then out +:+ " AND " else out in
     out +:+ QueryConstructor.matching b
   else out)
  = out +:+ where_clause b.
Proof.
  intros Hf. cbv zeta. rewrite join_is_concat, (concat_is_empty _ _ Hf).
  unfold where_clause, conditions.
  destruct (QueryConstructor.filters b) as [|x rest] eqn:Efilters;
    destruct (is_empty (QueryConstructor.matching b)) eqn:Em; simpl negb;
    cbn [orb andb].
  - now rewrite append_nil_r.
  - cbn [app]. now rewrite !append_assoc.
  - apply is_empty_true in Em. rewrite Em, app_nil_r, !append_assoc.
    now rewrite !append_nil_r.
  - rewrite concat_app by discriminate. now rewrite !append_assoc.
Qed.

Lemma getQuery_group (b : QueryConstructor.t) (out : string) :
  (if negb (is_empty (QueryConstructor.groupby b)) then
     let out := out +:+ " GROUP BY " +:+ QueryConstructor.groupby b in
     if negb (is_empty (QueryConstructor.groupexpr b))
     then out +:+ " WITHIN GROUP ORDER BY " +:+ QueryConstructor.groupexpr b
     else out
   else out)
  = out +:+ group_clause b.
Proof.
  unfold group_clause. cbv zeta.
  destruct (is_empty (QueryConstructor.groupby b));
    destruct (is_empty (QueryConstructor.groupexpr b)); simpl negb; cbv iota;
    rewrite ?append_nil_r, ?append_assoc; reflexivity.
Qed.

Lemma getQuery_parts (b : QueryConstructor.t) :
  Forall (fun s => is_empty s = false) (QueryConstructor.filters b) ->
  QueryConstructor.getQuery b
  = "SELECT " +:+ QueryConstructor.query b +:+ " FROM " +:+ QueryConstructor.index b
    +:+ where_clause b +:+ group_clause b
    +:+ " " +:+ QueryConstructor.sorting b +:+ " LIMIT "
    +:+ show_int (QueryConstructor.offset b) +:+ ", "
    +:+ show_int (QueryConstructor.limit b) +:+ " "
    +:+ option_clause b +:+ ";".
Proof.
  intros Hf. unfold QueryConstructor.getQuery. cbv zeta.
  pose proof (getQuery_options b) as Ho. cbv zeta in Ho. rewrite Ho. clear Ho.
  pose proof (getQuery_where b
                ("SELECT " +:+ QueryConstructor.query b +:+ " FROM "
                 +:+ QueryConstructor.index b) Hf) as Hw.
  cbv zeta in Hw. rewrite Hw. clear Hw.
  pose proof (getQuery_group b
                (("SELECT " +:+ QueryConstructor.query b +:+ " FROM "
                  +:+ QueryConstructor.index b) +:+ where_clause b)) as Hg.
  cbv zeta in Hg. rewrite Hg. clear Hg.
  rewrite join_is_concat, (concat_is_empty _ _ (options_nonempty b)).
  unfold option_clause.
  destruct (options b); simpl negb; cbv iota;
    rewrite ?append_nil_r, ?append_assoc; reflexivity.
Qed.

(** X21: the statement of a builder reached by calls from a fresh one is
    "SELECT <select> FROM <index>", then " WHERE " and all conditions, the
    filters in the order added and the MATCH last, joined by " AND ", when
    there is any condition and nothing when there is none, then the GROUP BY
    part when a grouping field is set, then the sorting and the LIMIT, then
    "OPTION " and the options that are set, joined by ", ", when there is
    any, and the semicolon. *)
Theorem getQuery_canonical (cs : list builder_call) :
  QueryConstructor.getQuery (built cs)
  = "SELECT " +:+ QueryConstructor.query (built cs) +:+ " FROM "
    +:+ QueryConstructor.index (built cs)
    +:+ where_clause (built cs) +:+ group_clause (built cs)
    +:+ " " +:+ QueryConstructor.sorting (built cs) +:+ " LIMIT "
    +:+ show_int (QueryConstructor.offset (built cs)) +:+ ", "
    +:+ show_int (QueryConstructor.limit (built cs)) +:+ " "
    +:+ option_clause (built cs) +:+ ";".
Proof. apply getQuery_parts, built_filters_nonempty. Qed.
